(** * canvas-engine: the scene registry, movement and collision logic

    A shallow embedding of the TypeScript classes [CanvasEngine] and
    [CanvasObject].  The repository holds several revisions of both classes;
    each revision that a verified property talks about is embedded in a
    module of its own, named after what distinguishes it:

    - [Lib]     : src/lib/CanvasEngine.ts and src/lib/CanvasObject.ts, the
                  object-literal registry and the synchronous collision sweep
                  inside [setPosition];
    - [Raf]     : the revision whose [setMoveToPosition] drives a
                  requestAnimationFrame loop and whose sweep falls back on
                  [createObject] for an unresolved id (first class of
                  src/unnamed/part_005), with its engine (src/unnamed/part_000)
                  and utils/getMousePosition (src/unnamed/part_007);
    - [Current] : the revision with a [Map] registry, a frame loop calling
                  [update], and an IntersectionObserver per object
                  (CanvasEngine.ts in src/unnamed/part_001, CanvasObject.ts in
                  src/unnamed/part_004).

    Conventions.
    - A JavaScript number is an exact rational ([Q]); rounding, NaN and the
      infinities are outside the model.  [Math.hypot], [Math.sqrt],
      [Math.cos], [Math.sin] and [Math.PI] are platform values: the
      development is parametric in them (classes [Hypot], [Sqrt], [Trig]).
    - Every [CanvasObject] made by an engine's constructor or by
      [createObject] lives in a heap (a list indexed by allocation order); a
      reference is its index, so that two references are the same instance
      exactly when they are equal.
    - Each object owns one content element; the document is therefore
      represented by the objects' [classList] and [attached] fields, in
      allocation order, which is document order for top-level objects.  The
      page is taken to hold no other element that carries a class: objects
      made by [createChild] and the host's own elements are outside the
      model, and so are images, text and input listeners.
    - A class name or collision tag is a single class token, a non-empty
      string without white space, which is what [classList.add] accepts; the
      document is in no-quirks mode, where class names are compared
      case-sensitively.  [document.querySelectorAll] is a platform function
      (class [Selectors]): only the meaning of the selector [.c] for an
      identifier [c] is assumed.
    - An object literal used as a dictionary ([#canvasObjects],
      [#onCollisionTrigger]) is its own properties together with what it
      inherits: a read answers the members of [Object.prototype] too, an
      assignment to [__proto__] replaces the prototype instead of creating
      a property, and [Object.keys] lists the keys that are array indices
      first.  The [#variables] and [#functions] literals of the earlier
      revisions, which hold arbitrary host values, are not embedded.
    - Host callbacks are opaque: a callback is a name and each invocation is
      appended to a trace together with its arguments.  What a host function
      carries as properties is the host's matter (class [HostFunctions]).
    - Clock readings ([performance.now()], [Date.now()]), rectangles reported
      by the layout engine and the results of [Math.random()] are inputs. *)

From Stdlib Require Import QArith Qabs ZArith Lia Bool Ascii.
From stdpp Require Import base gmap strings list sorting.

Local Open Scope Q_scope.

(** ** Values shared by all revisions *)

(** [{ x: number; y: number }] *)
Record Point := mkPoint { px : Q; py : Q }.

Definition origin : Point := mkPoint 0 0.

(** A [DOMRect]: [rx], [ry] are the coordinates of the rectangle's origin
    (its left and top edge for the non-negative sizes layout produces). *)
Record DOMRect := mkRect { rx : Q; ry : Q; rwidth : Q; rheight : Q }.

(** The values of type [any] that [setVariable] may be given. *)
Inductive value :=
| VUndefined
| VNull
| VBool (b : bool)
| VNum (n : Q)
| VStr (s : string)
| VRef (r : nat).

(** A host callback, identified by name. *)
Definition callback := string.

(** [Math.hypot], with the one property the code relies on: the result is
    zero exactly when both arguments are. *)
Class Hypot := {
  hypot : Q -> Q -> Q;
  hypot_zero : forall dx dy, hypot dx dy == 0 <-> dx == 0 /\ dy == 0
}.

(** [Math.sqrt], a platform function of which nothing is assumed.  An
    earlier revision computes distances as
    [Math.sqrt(Math.pow(dx, 2) + Math.pow(dy, 2))], which need not agree with
    [Math.hypot(dx, dy)]. *)
Class Sqrt := { sqrt : Q -> Q }.

(** ** Object literals used as dictionaries

    [#canvasObjects] and [#onCollisionTrigger] of the earlier revisions are
    object literals.  A literal holds the properties assigned to it (its own
    properties) and reaches, through its prototype, the members of
    [Object.prototype]; a property read walks that chain.  An assignment to
    the key [__proto__] creates no property: it runs the setter inherited
    from [Object.prototype], and the assigned object becomes the literal's
    prototype.  The host is taken not to tamper with [Object.prototype] or
    with the objects the engine hands out. *)

(** The string-named members of [Object.prototype]. *)
Definition objectPrototype : list string :=
  ["constructor"; "__defineGetter__"; "__defineSetter__"; "hasOwnProperty";
   "__lookupGetter__"; "__lookupSetter__"; "isPrototypeOf";
   "propertyIsEnumerable"; "toString"; "valueOf"; "__proto__";
   "toLocaleString"].

(** What a read of [#canvasObjects[key]] finds, if anything. *)
Inductive found :=
| Filed (r : nat)              (* a CanvasObject: filed under the key, or the
                                  literal's prototype read through [__proto__] *)
| Inherited (name : string).   (* the member [name] of the prototype chain,
                                  which is no object of the registry *)

(** [#canvasObjects[key]] where [own] are the literal's own properties,
    [proto] is the CanvasObject that was made its prototype, if one was,
    and [members] are the names of the public members of a CanvasObject. *)
Definition readProperty (members : list string) (own : gmap string nat)
    (proto : option nat) (key : string) : option found :=
  match own !! key with
  | Some r => Some (Filed r)
  | None =>
      match proto with
      | Some r =>
          if String.eqb key "__proto__" then Some (Filed r)
          else if bool_decide (key ∈ members) || bool_decide (key ∈ objectPrototype)
               then Some (Inherited key)
               else None
      | None =>
          if bool_decide (key ∈ objectPrototype) then Some (Inherited key) else None
      end
  end.

(** [#canvasObjects[key] = r] *)
Definition writeProperty (own : gmap string nat) (proto : option nat)
    (key : string) (r : nat) : gmap string nat * option nat :=
  if String.eqb key "__proto__" then (own, Some r) else (<[key := r]> own, proto).

(** [classList.add]: a [DOMTokenList] holds each token once. *)
Definition classList_add (c : string) (l : list string) : list string :=
  if bool_decide (c ∈ l) then l else l ++ [c].

(** The id the sweep reads off a matched element: the characters of the
    element's [id] up to the first space. *)
Fixpoint upToSpace (s : string) : string :=
  match s with
  | EmptyString => EmptyString
  | String c rest => if Ascii.eqb c " "%char then EmptyString else String c (upToSpace rest)
  end.

(** The test the sweep applies to the two bounding rectangles
    ([_this] and [other] in the source). *)
Definition withinReach (this other : DOMRect) : bool :=
  Qle_bool (Qabs (rx this - rx other)) ((rwidth this + rwidth other) / 2) &&
  Qle_bool (Qabs (ry this - ry other)) ((rheight this + rheight other) / 2).

(** Centres of a [DOMRect], and overlap of two rectangles stated on their
    centres. *)
Definition centerX (r : DOMRect) : Q := rx r + rwidth r / 2.
Definition centerY (r : DOMRect) : Q := ry r + rheight r / 2.

Definition centresOverlap (a b : DOMRect) : bool :=
  Qle_bool (Qabs (centerX a - centerX b)) ((rwidth a + rwidth b) / 2) &&
  Qle_bool (Qabs (centerY a - centerY b)) ((rheight a + rheight b) / 2).

(** The own properties of [#onCollisionTrigger], in the order they were
    created.  [assign] is the effect of [obj[key] = v] on them when the
    assignment creates or overwrites a property: an existing key keeps its
    place, a new one goes last. *)
Fixpoint assign {A} (key : string) (v : A) (l : list (string * A)) : list (string * A) :=
  match l with
  | [] => [(key, v)]
  | (k, a) :: rest => if String.eqb k key then (k, v) :: rest else (k, a) :: assign key v rest
  end.

Fixpoint property {A} (key : string) (l : list (string * A)) : option A :=
  match l with
  | [] => None
  | (k, a) :: rest => if String.eqb k key then Some a else property key rest
  end.

(** Whether an assignment [obj[key] = v] creates no property on a literal
    that does not own [key] and whose prototype is the host function [f]:
    so it is for [name] and [length], which every function holds read-only
    (the assignment throws a [TypeError]).  What else a host function
    carries is the host's matter: nothing is assumed of it, except that it
    is an ordinary function, which inherits [__proto__] from
    [Object.prototype]. *)
Class HostFunctions := { refuses : callback -> string -> bool }.

(** [this.#onCollisionTrigger[key] = func], on the literal's own properties
    and the function that was made its prototype, if one was. *)
Definition assignHandler {F : HostFunctions} (key : string) (func : callback)
    (own : list (string * callback)) (proto : option callback)
    : list (string * callback) * option callback :=
  if String.eqb key "__proto__" then (own, Some func)
  else
    match property key own, proto with
    | None, Some f => if refuses f key then (own, proto) else (assign key func own, proto)
    | _, _ => (assign key func own, proto)
    end.

(** An array index: the canonical decimal form of an integer from 0 to
    2^32 - 2. *)
Definition digitOf (a : ascii) : option N :=
  let n := N_of_ascii a in
  if ((48 <=? n) && (n <=? 57))%N then Some (n - 48)%N else None.

Fixpoint digitsFrom (acc : N) (s : string) : option N :=
  match s with
  | EmptyString => Some acc
  | String a rest =>
      match digitOf a with
      | Some d => digitsFrom (10 * acc + d)%N rest
      | None => None
      end
  end.

Definition arrayIndex (s : string) : option N :=
  match s with
  | EmptyString => None
  | String a rest =>
      if Ascii.eqb a "0" && negb (String.eqb rest EmptyString) then None
      else
        match digitsFrom 0 s with
        | Some n => if (n <=? 4294967294)%N then Some n else None
        | None => None
        end
  end.

Definition isArrayIndex (s : string) : bool :=
  match arrayIndex s with Some _ => true | None => false end.

Fixpoint insertByIndex (x : N * string) (l : list (N * string)) : list (N * string) :=
  match l with
  | [] => [x]
  | y :: rest =>
      if (fst y <=? fst x)%N then y :: insertByIndex x rest else x :: y :: rest
  end.

(** [Object.keys(obj)]: the keys that are array indices in ascending
    numeric order, then the other keys in the order they were created. *)
Definition ownKeys {A} (l : list (string * A)) : list string :=
  let keys := map fst l in
  map snd
    (foldr insertByIndex []
       (omap (fun k => (fun n => (n, k)) <$> arrayIndex k) keys))
  ++ List.filter (fun k => negb (isArrayIndex k)) keys.

(** ** src/lib: object-literal registry, sweep inside [setPosition] *)

Module Lib.

Record CanvasObject := mkObject {
  id : string;                                  (* #id, also #HTMLElement.id *)
  isCamera : bool;                              (* #isCamera *)
  position : Point;                             (* #position *)
  onCollisionTriggers : list (string * callback); (* #onCollisionTrigger, own properties *)
  triggersProto : option callback;              (* #onCollisionTrigger, replaced prototype *)
  classList : list string;                      (* #HTMLElement.classList *)
  attached : bool;                              (* #containerElement is in the document *)
  offset : Point                                (* #containerElement.style.left / top *)
}.

Inductive event :=
| AlertDuplicate (id : string)                          (* alert(...) in createObject *)
| Collision (cb : callback) (self : nat) (other : option found).
                                                        (* handler(this, other | null) *)

Record Engine := mkEngine {
  heap : list CanvasObject;
  canvasObjects : gmap string nat;   (* #canvasObjects, own properties *)
  canvasProto : option nat;          (* #canvasObjects, replaced prototype *)
  camera : nat;                      (* #camera *)
  canvasShift : Point;               (* #canvas.style.left / top, relative to 50% *)
  canvasAttached : bool;             (* #canvas is in the document *)
  trace : list event
}.

Definition set_heap (h : list CanvasObject) (w : Engine) : Engine :=
  mkEngine h (canvasObjects w) (canvasProto w) (camera w) (canvasShift w)
           (canvasAttached w) (trace w).
Definition set_canvasObjects (m : gmap string nat) (w : Engine) : Engine :=
  mkEngine (heap w) m (canvasProto w) (camera w) (canvasShift w) (canvasAttached w)
           (trace w).
Definition set_canvasProto (p : option nat) (w : Engine) : Engine :=
  mkEngine (heap w) (canvasObjects w) p (camera w) (canvasShift w) (canvasAttached w)
           (trace w).
Definition set_canvasShift (p : Point) (w : Engine) : Engine :=
  mkEngine (heap w) (canvasObjects w) (canvasProto w) (camera w) p (canvasAttached w)
           (trace w).
Definition set_canvasAttached (b : bool) (w : Engine) : Engine :=
  mkEngine (heap w) (canvasObjects w) (canvasProto w) (camera w) (canvasShift w) b
           (trace w).
Definition emit (e : event) (w : Engine) : Engine :=
  mkEngine (heap w) (canvasObjects w) (canvasProto w) (camera w) (canvasShift w)
           (canvasAttached w) (trace w ++ [e]).

Definition set_position (p : Point) (o : CanvasObject) : CanvasObject :=
  mkObject (id o) (isCamera o) p (onCollisionTriggers o) (triggersProto o) (classList o)
           (attached o) (offset o).
Definition set_onCollisionTriggers (t : list (string * callback)) (o : CanvasObject)
    : CanvasObject :=
  mkObject (id o) (isCamera o) (position o) t (triggersProto o) (classList o)
           (attached o) (offset o).
Definition set_triggersProto (f : option callback) (o : CanvasObject) : CanvasObject :=
  mkObject (id o) (isCamera o) (position o) (onCollisionTriggers o) f (classList o)
           (attached o) (offset o).
Definition set_classList (l : list string) (o : CanvasObject) : CanvasObject :=
  mkObject (id o) (isCamera o) (position o) (onCollisionTriggers o) (triggersProto o) l
           (attached o) (offset o).
Definition set_attached (b : bool) (o : CanvasObject) : CanvasObject :=
  mkObject (id o) (isCamera o) (position o) (onCollisionTriggers o) (triggersProto o)
           (classList o) b (offset o).
Definition set_offset (p : Point) (o : CanvasObject) : CanvasObject :=
  mkObject (id o) (isCamera o) (position o) (onCollisionTriggers o) (triggersProto o)
           (classList o) (attached o) p.

Definition store (self : nat) (o : CanvasObject) (w : Engine) : Engine :=
  set_heap (<[self := o]> (heap w)) w.

Definition new_CanvasObject (i : string) (cam : bool) : CanvasObject :=
  {| id := i; isCamera := cam; position := origin;
     onCollisionTriggers := []; triggersProto := None; classList := [];
     attached := true; offset := origin |}.

(** The public members of this revision's [CanvasObject]: what a literal
    inherits, besides the members of [Object.prototype], once a
    CanvasObject is its prototype. *)
Definition members : list string :=
  ["setStyle"; "setPosition"; "getPosition"; "setImage"; "createChild";
   "setVariable"; "getVariable"; "onMouseEnter"; "onMouseLeave";
   "onMouseClickGlobal"; "onMouseClickThis"; "onKeyDown"; "onKeyUp";
   "onCollisionTrigger"; "getTriggers"; "addClass"; "getClasses"; "getId";
   "destroy"].

(** [new CanvasEngine(canvasId, document)] when the element [canvasId]
    exists. *)
Definition constructor (camId : string) : Engine :=
  {| heap := [new_CanvasObject camId true]; canvasObjects := ∅; canvasProto := None;
     camera := 0%nat; canvasShift := origin; canvasAttached := true; trace := [] |}.

(** [this.#canvasObjects[id] ?? null] *)
Definition getCanvasObject (i : string) (w : Engine) : option found :=
  readProperty members (canvasObjects w) (canvasProto w) i.

(** [createObject(id)]: the alert is raised when [this.#canvasObjects[id]]
    reads as something, be it an object filed under [id] or an inherited
    member. *)
Definition createObject (i : string) (w : Engine) : nat * Engine :=
  let r := length (heap w) in
  let w1 := set_heap (heap w ++ [new_CanvasObject i false]) w in
  let w2 := match getCanvasObject i w1 with
            | Some _ => emit (AlertDuplicate i) w1
            | None => w1
            end in
  let written := writeProperty (canvasObjects w2) (canvasProto w2) i r in
  (r, set_canvasProto (snd written) (set_canvasObjects (fst written) w2)).

Definition getCameraObject (w : Engine) : nat := camera w.

(** [CanvasEngine.destroy]: the registry becomes a fresh literal. *)
Definition destroyEngine (w : Engine) : Engine :=
  set_canvasAttached false (set_canvasProto None (set_canvasObjects ∅ w)).

(** [document.getElementsByClassName(key)], in document order. *)
Definition hasClass (c : string) (w : Engine) (r : nat) : bool :=
  match heap w !! r with
  | Some o => canvasAttached w && attached o && bool_decide (c ∈ classList o)
  | None => false
  end.

Definition getElementsByClassName (c : string) (w : Engine) : list nat :=
  List.filter (hasClass c w) (seq 0 (length (heap w))).

(** [this.#onCollisionTrigger[key]] for a key that [Object.keys] listed. *)
Definition trigger (key : string) (self : nat) (w : Engine) : option callback :=
  heap w !! self ≫= fun o => property key (onCollisionTriggers o).

(** The body of the [for] loop of the sweep, for one element. *)
Definition visit (rectOf : nat -> DOMRect) (key : string) (self : nat)
    (w : Engine) (el : nat) : Engine :=
  if withinReach (rectOf self) (rectOf el)
  then
    match heap w !! el, trigger key self w with
    | Some e, Some cb =>
        emit (Collision cb self (getCanvasObject (upToSpace (id e)) w)) w
    | _, _ => w
    end
  else w.

(** The sweep for one key of [#onCollisionTrigger]. *)
Definition sweepKey (rectOf : nat -> DOMRect) (self : nat) (w : Engine)
    (key : string) : Engine :=
  foldl (visit rectOf key self) w (getElementsByClassName key w).

(** [setPosition(x, y)]; [rectOf] is what [getBoundingClientRect] answers
    for each content element once the new offsets are written. *)
Definition setPosition (rectOf : nat -> DOMRect) (x y : Q) (self : nat) (w : Engine)
    : Engine :=
  match heap w !! self with
  | None => w
  | Some o =>
      let o1 := set_offset (mkPoint x (- y)) (set_position (mkPoint x y) o) in
      let w1 := store self o1 w in
      let w2 := if isCamera o then set_canvasShift (mkPoint (- x) y) w1 else w1 in
      foldl (sweepKey rectOf self) w2 (ownKeys (onCollisionTriggers o1))
  end.

Definition getPosition (self : nat) (w : Engine) : option Point :=
  position <$> heap w !! self.

Definition onCollisionTrigger {F : HostFunctions} (targetClass : string)
    (func : callback) (self : nat) (w : Engine) : Engine :=
  match heap w !! self with
  | None => w
  | Some o =>
      let assigned :=
        assignHandler targetClass func (onCollisionTriggers o) (triggersProto o) in
      store self
        (set_triggersProto (snd assigned) (set_onCollisionTriggers (fst assigned) o)) w
  end.

Definition addClass (className : string) (self : nat) (w : Engine) : Engine :=
  match heap w !! self with
  | None => w
  | Some o => store self (set_classList (classList_add className (classList o)) o) w
  end.

Definition destroy (self : nat) (w : Engine) : Engine :=
  match heap w !! self with
  | None => w
  | Some o => store self (set_attached false o) w
  end.

End Lib.

(** ** The requestAnimationFrame revision: movement loop, sweep with a
    fallback object, pointer position translated on every [mousemove] *)

Module Raf.

Record movementInterface := mkMovement {
  startX : Q;
  startY : Q;
  targetX : Q;
  targetY : Q;
  speed : Q;
  timestamp : Q;
  loopId : Z
}.

Record CanvasObject := mkObject {
  id : string;
  isCamera : bool;
  position : Point;                               (* #position *)
  moveToPosition : option movementInterface;      (* #moveToPosition *)
  onCollisionTriggers : list (string * callback); (* #onCollisionTrigger, own properties *)
  triggersProto : option callback;                (* #onCollisionTrigger, replaced prototype *)
  classList : list string;
  attached : bool;
  offset : Point
}.

Inductive event :=
| AlertDuplicate (id : string)
| Collision (cb : callback) (self : nat) (other : found).   (* handler(this, other) *)

Record Engine := mkEngine {
  heap : list CanvasObject;
  canvasObjects : gmap string nat;     (* #canvasObjects, own properties *)
  canvasProto : option nat;            (* #canvasObjects, replaced prototype *)
  camera : nat;                        (* #camera *)
  canvasShift : Point;
  canvasAttached : bool;
  mousePosition : option Point;        (* #mousePosition, [None] while undefined *)
  frames : list (Z * (nat * Q));       (* pending requestAnimationFrame callbacks:
                                          handle, receiver and timeTillDestination
                                          of the [loop] closure *)
  nextHandle : Z;
  entropy : nat -> string;             (* the results of `${Math.random()}` to come *)
  drawn : nat;
  trace : list event
}.

Definition set_heap (h : list CanvasObject) (w : Engine) : Engine :=
  mkEngine h (canvasObjects w) (canvasProto w) (camera w) (canvasShift w) (canvasAttached w)
           (mousePosition w) (frames w) (nextHandle w) (entropy w) (drawn w) (trace w).
Definition set_canvasObjects (m : gmap string nat) (w : Engine) : Engine :=
  mkEngine (heap w) m (canvasProto w) (camera w) (canvasShift w) (canvasAttached w)
           (mousePosition w) (frames w) (nextHandle w) (entropy w) (drawn w) (trace w).
Definition set_canvasProto (p : option nat) (w : Engine) : Engine :=
  mkEngine (heap w) (canvasObjects w) p (camera w) (canvasShift w) (canvasAttached w)
           (mousePosition w) (frames w) (nextHandle w) (entropy w) (drawn w) (trace w).
Definition set_canvasShift (p : Point) (w : Engine) : Engine :=
  mkEngine (heap w) (canvasObjects w) (canvasProto w) (camera w) p (canvasAttached w)
           (mousePosition w) (frames w) (nextHandle w) (entropy w) (drawn w) (trace w).
Definition set_mousePosition (p : option Point) (w : Engine) : Engine :=
  mkEngine (heap w) (canvasObjects w) (canvasProto w) (camera w) (canvasShift w) (canvasAttached w)
           p (frames w) (nextHandle w) (entropy w) (drawn w) (trace w).
Definition set_frames (f : list (Z * (nat * Q))) (w : Engine) : Engine :=
  mkEngine (heap w) (canvasObjects w) (canvasProto w) (camera w) (canvasShift w) (canvasAttached w)
           (mousePosition w) f (nextHandle w) (entropy w) (drawn w) (trace w).
Definition set_nextHandle (n : Z) (w : Engine) : Engine :=
  mkEngine (heap w) (canvasObjects w) (canvasProto w) (camera w) (canvasShift w) (canvasAttached w)
           (mousePosition w) (frames w) n (entropy w) (drawn w) (trace w).
Definition set_drawn (n : nat) (w : Engine) : Engine :=
  mkEngine (heap w) (canvasObjects w) (canvasProto w) (camera w) (canvasShift w) (canvasAttached w)
           (mousePosition w) (frames w) (nextHandle w) (entropy w) n (trace w).
Definition emit (e : event) (w : Engine) : Engine :=
  mkEngine (heap w) (canvasObjects w) (canvasProto w) (camera w) (canvasShift w) (canvasAttached w)
           (mousePosition w) (frames w) (nextHandle w) (entropy w) (drawn w)
           (trace w ++ [e]).

Definition set_position (p : Point) (o : CanvasObject) : CanvasObject :=
  mkObject (id o) (isCamera o) p (moveToPosition o)
           (onCollisionTriggers o) (triggersProto o) (classList o) (attached o) (offset o).
Definition set_moveToPosition (m : option movementInterface) (o : CanvasObject)
    : CanvasObject :=
  mkObject (id o) (isCamera o) (position o) m
           (onCollisionTriggers o) (triggersProto o) (classList o) (attached o) (offset o).
Definition set_onCollisionTriggers (t : list (string * callback)) (o : CanvasObject)
    : CanvasObject :=
  mkObject (id o) (isCamera o) (position o) (moveToPosition o)
           t (triggersProto o) (classList o) (attached o) (offset o).
Definition set_triggersProto (f : option callback) (o : CanvasObject) : CanvasObject :=
  mkObject (id o) (isCamera o) (position o) (moveToPosition o)
           (onCollisionTriggers o) f (classList o) (attached o) (offset o).
Definition set_classList (l : list string) (o : CanvasObject) : CanvasObject :=
  mkObject (id o) (isCamera o) (position o) (moveToPosition o)
           (onCollisionTriggers o) (triggersProto o) l (attached o) (offset o).
Definition set_offset (p : Point) (o : CanvasObject) : CanvasObject :=
  mkObject (id o) (isCamera o) (position o) (moveToPosition o)
           (onCollisionTriggers o) (triggersProto o) (classList o) (attached o) p.
Definition set_loopId (h : Z) (m : movementInterface) : movementInterface :=
  mkMovement (startX m) (startY m) (targetX m) (targetY m) (speed m) (timestamp m) h.

Definition store (self : nat) (o : CanvasObject) (w : Engine) : Engine :=
  set_heap (<[self := o]> (heap w)) w.

Definition new_CanvasObject (i : string) (cam : bool) : CanvasObject :=
  {| id := i; isCamera := cam; position := origin;
     moveToPosition := None; onCollisionTriggers := []; triggersProto := None;
     classList := []; attached := true; offset := origin |}.

(** The public members of this revision's [CanvasObject]: what a literal
    inherits, besides the members of [Object.prototype], once a
    CanvasObject is its prototype. *)
Definition members : list string :=
  ["setStyle"; "setPosition"; "getPosition"; "setMoveToPosition";
   "getMoveToPosition"; "setStopMovement"; "setMoveInDirection"; "setImage";
   "createChild"; "onMouseEnter"; "onMouseLeave"; "onMouseClickGlobal";
   "onMouseClickThis"; "onMouseMove"; "onKeyDown"; "onKeyUp";
   "onCollisionTrigger"; "getCollisionTriggers"; "setText"; "getText";
   "setVariable"; "getVariable"; "createFunction"; "callFunction"; "addClass";
   "getClasses"; "getId"; "destroy"].

(** [new CanvasEngine(canvasId, document)] when the element exists;
    [rnd] is the sequence of random strings the page will draw. *)
Definition constructor (camId : string) (rnd : nat -> string) : Engine :=
  {| heap := [new_CanvasObject camId true]; canvasObjects := ∅; canvasProto := None;
     camera := 0%nat;
     canvasShift := origin; canvasAttached := true; mousePosition := None;
     frames := []; nextHandle := 1%Z; entropy := rnd; drawn := 0%nat; trace := [] |}.

(** [this.#canvasObjects[id] ?? null] *)
Definition getCanvasObject (i : string) (w : Engine) : option found :=
  readProperty members (canvasObjects w) (canvasProto w) i.

(** [createObject(id)]: the alert is raised when [this.#canvasObjects[id]]
    reads as something, be it an object filed under [id] or an inherited
    member. *)
Definition createObject (i : string) (w : Engine) : nat * Engine :=
  let r := length (heap w) in
  let w1 := set_heap (heap w ++ [new_CanvasObject i false]) w in
  let w2 := match getCanvasObject i w1 with
            | Some _ => emit (AlertDuplicate i) w1
            | None => w1
            end in
  let written := writeProperty (canvasObjects w2) (canvasProto w2) i r in
  (r, set_canvasProto (snd written) (set_canvasObjects (fst written) w2)).

(** [`${Math.random()}`] *)
Definition random (w : Engine) : string * Engine :=
  (entropy w (drawn w), set_drawn (S (drawn w)) w).

Definition requestAnimationFrame (self : nat) (timeTill : Q) (w : Engine) : Z * Engine :=
  (nextHandle w,
   set_nextHandle (nextHandle w + 1)%Z
     (set_frames (frames w ++ [(nextHandle w, (self, timeTill))]) w)).

Definition cancelAnimationFrame (h : Z) (w : Engine) : Engine :=
  set_frames (List.filter (fun f => negb (Z.eqb (fst f) h)) (frames w)) w.

Definition hasClass (c : string) (w : Engine) (r : nat) : bool :=
  match heap w !! r with
  | Some o => canvasAttached w && attached o && bool_decide (c ∈ classList o)
  | None => false
  end.

Definition getElementsByClassName (c : string) (w : Engine) : list nat :=
  List.filter (hasClass c w) (seq 0 (length (heap w))).

(** [this.#onCollisionTrigger[key]] for a key that [Object.keys] listed. *)
Definition trigger (key : string) (self : nat) (w : Engine) : option callback :=
  heap w !! self ≫= fun o => property key (onCollisionTriggers o).

(** The body of the sweep's [for] loop: an unresolved id is replaced by
    [createObject(`${Math.random()}`)]. *)
Definition visit (rectOf : nat -> DOMRect) (key : string) (self : nat)
    (w : Engine) (el : nat) : Engine :=
  if withinReach (rectOf self) (rectOf el)
  then
    match heap w !! el, trigger key self w with
    | Some e, Some cb =>
        match getCanvasObject (upToSpace (id e)) w with
        | Some other => emit (Collision cb self other) w
        | None =>
            let '(name, w1) := random w in
            let '(other, w2) := createObject name w1 in
            emit (Collision cb self (Filed other)) w2
        end
    | _, _ => w
    end
  else w.

(** The element collection is live, but a fallback object carries no
    class, so the elements visited are those present at the start. *)
Definition sweepKey (rectOf : nat -> DOMRect) (self : nat) (w : Engine)
    (key : string) : Engine :=
  foldl (visit rectOf key self) w (getElementsByClassName key w).

Definition setPosition (rectOf : nat -> DOMRect) (x y : Q) (self : nat) (w : Engine)
    : Engine :=
  match heap w !! self with
  | None => w
  | Some o =>
      let o1 := set_offset (mkPoint x (- y)) (set_position (mkPoint x y) o) in
      let w1 := store self o1 w in
      let w2 := if isCamera o then set_canvasShift (mkPoint (- x) y) w1 else w1 in
      foldl (sweepKey rectOf self) w2 (ownKeys (onCollisionTriggers o1))
  end.

Definition getPosition (self : nat) (w : Engine) : Point :=
  match heap w !! self with
  | Some o => position o
  | None => origin
  end.

Definition getMoveToPosition (self : nat) (w : Engine) : option movementInterface :=
  heap w !! self ≫= moveToPosition.

(** The closure [loop] of [setMoveToPosition]; [now] is [Date.now()]. *)
Definition loop (rectOf : nat -> DOMRect) (now timeTillDestination : Q) (self : nat)
    (w : Engine) : Engine :=
  match getMoveToPosition self w with
  | None => w
  | Some m =>
      let timepassed := (now - timestamp m) / 1000 in
      if negb (Qle_bool timepassed timeTillDestination)
      then cancelAnimationFrame (loopId m)
             (setPosition rectOf (targetX m) (targetY m) self w)
      else
        let w1 :=
          setPosition rectOf
            (startX m + (targetX m - startX m) * timepassed / timeTillDestination)
            (startY m + (targetY m - startY m) * timepassed / timeTillDestination)
            self w in
        let '(h, w2) := requestAnimationFrame self timeTillDestination w1 in
        match heap w2 !! self with
        | None => w2
        | Some o => store self (set_moveToPosition (set_loopId h <$> moveToPosition o) o) w2
        end
  end.

(** The platform runs the pending callback with handle [h]. *)
Definition animationFrame (rectOf : nat -> DOMRect) (now : Q) (h : Z) (w : Engine)
    : Engine :=
  match List.find (fun f => Z.eqb (fst f) h) (frames w) with
  | None => w
  | Some (_, (self, timeTill)) => loop rectOf now timeTill self (cancelAnimationFrame h w)
  end.

Section Moving.
Context {R : Sqrt}.

(** [utils.getDistanceBetweenTwoPoints]: the square root of the sum of
    the squared differences. *)
Definition getDistanceBetweenTwoPoints (x1 y1 x2 y2 : Q) : Q :=
  sqrt ((x1 - x2) ^ 2 + (y1 - y2) ^ 2).

(** [setMoveToPosition(x, y, speed)]; [now] is the [Date.now()] stored as
    timestamp, [now1] the one read by the first run of [loop].  A
    division by zero (speed 0, or a target at distance 0) produces an
    infinity or NaN in the source, which [Q] does not have. *)
Definition setMoveToPosition (rectOf : nat -> DOMRect) (x y speed now now1 : Q)
    (self : nat) (w : Engine) : Engine :=
  match heap w !! self with
  | None => w
  | Some o =>
      let w1 := match moveToPosition o with
                | Some m => cancelAnimationFrame (loopId m) w
                | None => w
                end in
      let m := {| startX := px (position o); startY := py (position o);
                  targetX := x; targetY := y; speed := speed;
                  timestamp := now; loopId := (-1)%Z |} in
      let w2 := store self (set_moveToPosition (Some m) o) w1 in
      let timeTillDestination :=
        getDistanceBetweenTwoPoints (px (position o)) (py (position o)) x y / speed in
      loop rectOf now1 timeTillDestination self w2
  end.
End Moving.

Definition setStopMovement (self : nat) (w : Engine) : Engine :=
  match heap w !! self with
  | None => w
  | Some o =>
      let w1 := match moveToPosition o with
                | Some m => cancelAnimationFrame (loopId m) w
                | None => w
                end in
      store self (set_moveToPosition None o) w1
  end.

Definition addClass (className : string) (self : nat) (w : Engine) : Engine :=
  match heap w !! self with
  | None => w
  | Some o => store self (set_classList (classList_add className (classList o)) o) w
  end.

Definition onCollisionTrigger {F : HostFunctions} (targetClass : string)
    (func : callback) (self : nat) (w : Engine) : Engine :=
  match heap w !! self with
  | None => w
  | Some o =>
      let assigned :=
        assignHandler targetClass func (onCollisionTriggers o) (triggersProto o) in
      store self
        (set_triggersProto (snd assigned) (set_onCollisionTriggers (fst assigned) o)) w
  end.

(** utils/getMousePosition: [clientRect] is the first client rectangle of
    the canvas element, if there is one. *)
Definition getMousePosition (w : Engine) (clientRect : option DOMRect)
    (clientX clientY : Q) : Point :=
  let cameraPosition := getPosition (camera w) w in
  match clientRect with
  | Some r =>
      mkPoint (clientX - rwidth r / 2 + px cameraPosition)
              (rheight r - clientY - rheight r / 2 + py cameraPosition)
  | None => mkPoint 0 0
  end.

(** The [mousemove] listener of the engine's constructor. *)
Definition mousemove (clientRect : option DOMRect) (clientX clientY : Q) (w : Engine)
    : Engine :=
  set_mousePosition (Some (getMousePosition w clientRect clientX clientY)) w.


Section Utils.
Context {R : Sqrt}.

(** The [forEach] of [utils.getClosestToPoint], from index [i] on. *)
Fixpoint closestFrom (point : Point) (points : list Point) (i : nat)
    (closestIndex : option nat) (closestDistance : Q) : option nat :=
  match points with
  | [] => closestIndex
  | obj :: rest =>
      let thisDistance :=
        getDistanceBetweenTwoPoints (px obj) (py obj) (px point) (py point) in
      if Nat.eqb i 0 then closestFrom point rest (S i) (Some i) thisDistance
      else if negb (Qle_bool closestDistance thisDistance)
           then closestFrom point rest (S i) (Some i) thisDistance
           else closestFrom point rest (S i) closestIndex closestDistance
  end.

Definition getClosestToPoint (points : list Point) (point : Point) : option nat :=
  closestFrom point points 0 None 0.
End Utils.

End Raf.

(** [Math.PI], [Math.cos] and [Math.sin]: platform values, of which nothing
    is assumed. *)
Class Trig := {
  PI : Q;
  cos : Q -> Q;
  sin : Q -> Q
}.

(** [Array.prototype.sort((a, b) => a.d - b.d)] on index/distance pairs.
    The platform's sort is stable, and a stable sort has one possible
    result; it is computed here by inserting each pair behind the pairs
    that are not farther. *)
Fixpoint insertByDistance (x : nat * Q) (l : list (nat * Q)) : list (nat * Q) :=
  match l with
  | [] => [x]
  | y :: rest =>
      if Qle_bool (snd y) (snd x) then y :: insertByDistance x rest else x :: y :: rest
  end.

Definition sortByDistance (l : list (nat * Q)) : list (nat * Q) :=
  foldl (fun sorted x => insertByDistance x sorted) [] l.

(** [d < minDist], where [minDist] may still be [Infinity] ([None]). *)
Definition below (d : Q) (minDist : option Q) : bool :=
  match minDist with
  | None => true
  | Some m => negb (Qle_bool m d)
  end.

(** ** The current revision: [Map] registry, frame loop, observers *)

Module Current.

Record Movement := mkMovement {
  startX : Q;
  startY : Q;
  targetX : Q;
  targetY : Q;
  speed : Q;
  startTime : Q;
  duration : Q
}.

Record CanvasObject := mkObject {
  id : string;                              (* #id, also #content.id *)
  isCamera : bool;                          (* #isCamera *)
  pos : Point;                              (* #pos *)
  movement : option Movement;               (* #movement *)
  collisionHandlers : gmap string callback; (* #collisionHandlers *)
  observed : list nat;                      (* targets of #collisionObserver *)
  vars : gmap string value;                 (* #vars *)
  onDestroyCb : option callback;            (* #onDestroy *)
  classList : list string;                  (* #content.classList *)
  attached : bool;                          (* #container is in the document *)
  translate : Point                         (* #container.style.transform *)
}.

(** What the host can observe besides return values. *)
Inductive event :=
| WarnExists (id : string)                       (* console.warn in createObject *)
| Collision (cb : callback) (self other : nat)   (* handler(this, other) *)
| DestroyHook (cb : callback) (self : nat).      (* this.#onDestroy(this) *)

Record Engine := mkEngine {
  heap : list CanvasObject;
  objects : gmap string nat;   (* #objects *)
  camera : nat;                (* #camera *)
  mouse : Point;               (* #mouse *)
  lastTime : Q;                (* #lastTime *)
  sceneShift : Point;          (* #scene.style.transform *)
  trace : list event
}.

Definition set_heap (h : list CanvasObject) (w : Engine) : Engine :=
  mkEngine h (objects w) (camera w) (mouse w) (lastTime w) (sceneShift w) (trace w).
Definition set_objects (m : gmap string nat) (w : Engine) : Engine :=
  mkEngine (heap w) m (camera w) (mouse w) (lastTime w) (sceneShift w) (trace w).
Definition set_mouse (p : Point) (w : Engine) : Engine :=
  mkEngine (heap w) (objects w) (camera w) p (lastTime w) (sceneShift w) (trace w).
Definition set_lastTime (t : Q) (w : Engine) : Engine :=
  mkEngine (heap w) (objects w) (camera w) (mouse w) t (sceneShift w) (trace w).
Definition set_sceneShift (p : Point) (w : Engine) : Engine :=
  mkEngine (heap w) (objects w) (camera w) (mouse w) (lastTime w) p (trace w).
Definition emit (e : event) (w : Engine) : Engine :=
  mkEngine (heap w) (objects w) (camera w) (mouse w) (lastTime w) (sceneShift w)
           (trace w ++ [e]).

(** [new CanvasObject(id, document, engine, parent, false, isCamera)] *)
Definition new_CanvasObject (i : string) (cam : bool) : CanvasObject :=
  {| id := i; isCamera := cam; pos := origin; movement := None;
     collisionHandlers := ∅; observed := []; vars := ∅;
     onDestroyCb := None; classList := []; attached := true;
     translate := origin |}.

(** [new CanvasEngine(canvasId, document)]: throws when the container is
    missing ([None]); [camId] is the random camera id. *)
Definition constructor (containerFound : bool) (camId : string) : option Engine :=
  if containerFound
  then Some {| heap := [new_CanvasObject camId true]; objects := ∅; camera := 0%nat;
               mouse := origin; lastTime := 0; sceneShift := origin; trace := [] |}
  else None.

(** The [mousemove] listener installed by the constructor; [left], [top]
    are read from the container's bounding rectangle. *)
Definition mousemove (left top clientX clientY : Q) (w : Engine) : Engine :=
  set_mouse (mkPoint (clientX - left) (clientY - top)) w.

Definition createObject (i : string) (w : Engine) : nat * Engine :=
  match objects w !! i with
  | Some r => (r, emit (WarnExists i) w)
  | None =>
      let r := length (heap w) in
      (r, set_objects (<[i := r]> (objects w))
            (set_heap (heap w ++ [new_CanvasObject i false]) w))
  end.

Definition getCanvasObject (i : string) (w : Engine) : option nat :=
  objects w !! i.

Definition getCameraObject (w : Engine) : nat := camera w.

Definition getMousePosition (w : Engine) : Point := mouse w.

Definition unregisterObject (i : string) (w : Engine) : Engine :=
  set_objects (delete i (objects w)) w.

(** *** Methods of [CanvasObject]; [self] is the receiver's reference *)

Definition set_pos (p : Point) (o : CanvasObject) : CanvasObject :=
  mkObject (id o) (isCamera o) p (movement o) (collisionHandlers o) (observed o)
           (vars o) (onDestroyCb o) (classList o) (attached o) (translate o).
Definition set_movement (m : option Movement) (o : CanvasObject) : CanvasObject :=
  mkObject (id o) (isCamera o) (pos o) m (collisionHandlers o) (observed o)
           (vars o) (onDestroyCb o) (classList o) (attached o) (translate o).
Definition set_collisionHandlers (h : gmap string callback) (o : CanvasObject) : CanvasObject :=
  mkObject (id o) (isCamera o) (pos o) (movement o) h (observed o)
           (vars o) (onDestroyCb o) (classList o) (attached o) (translate o).
Definition set_observed (l : list nat) (o : CanvasObject) : CanvasObject :=
  mkObject (id o) (isCamera o) (pos o) (movement o) (collisionHandlers o) l
           (vars o) (onDestroyCb o) (classList o) (attached o) (translate o).
Definition set_vars (v : gmap string value) (o : CanvasObject) : CanvasObject :=
  mkObject (id o) (isCamera o) (pos o) (movement o) (collisionHandlers o) (observed o)
           v (onDestroyCb o) (classList o) (attached o) (translate o).
Definition set_onDestroyCb (c : option callback) (o : CanvasObject) : CanvasObject :=
  mkObject (id o) (isCamera o) (pos o) (movement o) (collisionHandlers o) (observed o)
           (vars o) c (classList o) (attached o) (translate o).
Definition set_classList (l : list string) (o : CanvasObject) : CanvasObject :=
  mkObject (id o) (isCamera o) (pos o) (movement o) (collisionHandlers o) (observed o)
           (vars o) (onDestroyCb o) l (attached o) (translate o).
Definition set_attached (b : bool) (o : CanvasObject) : CanvasObject :=
  mkObject (id o) (isCamera o) (pos o) (movement o) (collisionHandlers o) (observed o)
           (vars o) (onDestroyCb o) (classList o) b (translate o).
Definition set_translate (p : Point) (o : CanvasObject) : CanvasObject :=
  mkObject (id o) (isCamera o) (pos o) (movement o) (collisionHandlers o) (observed o)
           (vars o) (onDestroyCb o) (classList o) (attached o) p.

(** Write back the receiver's fields. *)
Definition store (self : nat) (o : CanvasObject) (w : Engine) : Engine :=
  set_heap (<[self := o]> (heap w)) w.

(** [#applyPosition]: the camera shifts the scene the opposite way, any
    other object translates its own container (CSS y points down).  The
    source dereferences [parentElement], so a camera that was itself
    destroyed raises there; that case is not distinguished here. *)
Definition applyPosition (x y : Q) (self : nat) (w : Engine) : Engine :=
  match heap w !! self with
  | None => w
  | Some o =>
      if isCamera o
      then set_sceneShift (mkPoint (- x) y) (store self (set_pos (mkPoint x y) o) w)
      else store self (set_translate (mkPoint x (- y)) (set_pos (mkPoint x y) o)) w
  end.

Definition setPosition (x y : Q) (self : nat) (w : Engine) : Engine :=
  match heap w !! self with
  | None => w
  | Some o => applyPosition x y self (store self (set_movement None o) w)
  end.

Definition getPosition (self : nat) (w : Engine) : option Point :=
  pos <$> heap w !! self.

Definition clearMovement (self : nat) (w : Engine) : Engine :=
  match heap w !! self with
  | None => w
  | Some o => store self (set_movement None o) w
  end.

(** [update(deltaTime)]; [now] is the reading of [performance.now()]. *)
Definition update (now : Q) (self : nat) (w : Engine) : Engine :=
  match heap w !! self with
  | None => w
  | Some o =>
      match movement o with
      | None => w
      | Some m =>
          let elapsed := (now - startTime m) / 1000 in
          if Qle_bool (duration m) elapsed
          then clearMovement self (setPosition (targetX m) (targetY m) self w)
          else
            let t := elapsed / duration m in
            applyPosition (startX m + (targetX m - startX m) * t)
                          (startY m + (targetY m - startY m) * t) self w
      end
  end.

Definition setStopMovement (self : nat) (w : Engine) : Engine :=
  clearMovement self w.

Section Moving.
Context {H : Hypot}.

Definition setMoveToPosition (x y speed now : Q) (self : nat) (w : Engine) : Engine :=
  match heap w !! self with
  | None => w
  | Some o =>
      if Qle_bool speed 0 then w
      else
        let dist := hypot (x - px (pos o)) (y - py (pos o)) in
        if Qeq_bool dist 0 then w
        else
          store self
            (set_movement
               (Some {| startX := px (pos o); startY := py (pos o);
                        targetX := x; targetY := y; speed := speed;
                        startTime := now; duration := dist / speed |}) o) w
  end.
End Moving.

(** The body of [#startLoop]'s [loop(time)].  The registered objects are
    visited through the registry; [update] changes only its receiver, so
    the visiting order does not show. *)
Definition loop (time now : Q) (w : Engine) : Engine :=
  foldl (fun w r => update now r w) (set_lastTime time w)
        (map snd (map_to_list (objects w))).

Definition addClass (className : string) (self : nat) (w : Engine) : Engine :=
  match heap w !! self with
  | None => w
  | Some o => store self (set_classList (classList_add className (classList o)) o) w
  end.

(** The content elements in the document that carry class [c], in
    document order. *)
Definition hasClass (c : string) (w : Engine) (r : nat) : bool :=
  match heap w !! r with
  | Some o => attached o && bool_decide (c ∈ classList o)
  | None => false
  end.

Definition carriers (c : string) (w : Engine) : list nat :=
  List.filter (hasClass c w) (seq 0 (length (heap w))).

(** A class name that, written after a dot, is a class selector for
    itself: an ASCII letter or underscore followed by ASCII letters, digits,
    hyphens and underscores.  (CSS identifiers can also start with a hyphen
    and hold escapes or other characters; for those, and for any other
    text, the selector is whatever the platform parses.) *)
Definition isLetter (a : ascii) : bool :=
  let n := nat_of_ascii a in
  ((65 <=? n) && (n <=? 90) || (97 <=? n) && (n <=? 122))%nat.

Definition isDigit (a : ascii) : bool :=
  let n := nat_of_ascii a in ((48 <=? n) && (n <=? 57))%nat.

Definition identStart (a : ascii) : bool := isLetter a || Ascii.eqb a "_".

Definition identChar (a : ascii) : bool :=
  identStart a || isDigit a || Ascii.eqb a "-".

Fixpoint identChars (s : string) : bool :=
  match s with
  | EmptyString => true
  | String a rest => identChar a && identChars rest
  end.

Definition identifier (s : string) : bool :=
  match s with
  | EmptyString => false
  | String a rest => identStart a && identChars rest
  end.

(** [document.querySelectorAll(selector)], a platform function: the
    elements the selector selects, in document order, or [None] when the
    text is no valid selector and the call throws.  What is known of it is
    what the selector [.c] means for an identifier [c] in a document in
    no-quirks mode: the elements that carry the class token [c]. *)
Class Selectors := {
  querySelectorAll : string -> Engine -> option (list nat);
  querySelectorAll_class :
    forall c w, identifier c = true ->
                querySelectorAll (String "." c) w = Some (carriers c w)
}.

(** [this.#collisionObserver.observe(el)]: observing a target twice has no
    further effect. *)
Definition observe (el : nat) (self : nat) (w : Engine) : Engine :=
  match heap w !! self with
  | None => w
  | Some o =>
      store self
        (set_observed (if bool_decide (el ∈ observed o) then observed o
                       else observed o ++ [el]) o) w
  end.

Definition setHandler (targetClass : string) (cb : callback) (self : nat)
    (w : Engine) : Engine :=
  match heap w !! self with
  | None => w
  | Some o =>
      store self (set_collisionHandlers (<[targetClass := cb]> (collisionHandlers o)) o) w
  end.

(** [onCollisionTrigger(targetClass, callback)].  When the selector is
    refused, [querySelectorAll] throws after the class and the handler are
    already written; the state is left at that point. *)
Definition onCollisionTrigger {Sel : Selectors} (targetClass : string) (cb : callback)
    (self : nat) (w : Engine) : Engine :=
  let w1 := setHandler targetClass cb self (addClass targetClass self w) in
  match querySelectorAll (String "." targetClass) w1 with
  | Some els =>
      foldl (fun w el => if Nat.eqb el self then w else observe el self w) w1 els
  | None => w1
  end.

(** The callback given to [new IntersectionObserver] in
    [#setupCollisionObserver]; an entry is its target element and its
    [isIntersecting] flag.  [onClass] is the body of the inner
    [classList.forEach], [onEntry] that of [entries.forEach]. *)
Definition onClass (self : nat) (target : CanvasObject) (w : Engine) (cls : string)
    : Engine :=
  match heap w !! self with
  | None => w
  | Some o =>
      match collisionHandlers o !! cls with
      | None => w
      | Some handler =>
          match getCanvasObject (id target) w with
          | None => w
          | Some other => emit (Collision handler self other) w
          end
      end
  end.

Definition onEntry (self : nat) (w : Engine) (entry : nat * bool) : Engine :=
  if negb (snd entry) then w
  else
    match heap w !! fst entry with
    | None => w
    | Some target => foldl (onClass self target) w (classList target)
    end.

Definition observerCallback (self : nat) (entries : list (nat * bool))
    (w : Engine) : Engine :=
  foldl (onEntry self) w entries.

(** The platform's side of the observer: it reports changes only for the
    targets the observer currently observes ([disconnect] leaves none). *)
Definition isObserved (self : nat) (w : Engine) (entry : nat * bool) : bool :=
  match heap w !! self with
  | Some o => bool_decide (fst entry ∈ observed o)
  | None => false
  end.

Definition intersectionChange (self : nat) (entries : list (nat * bool))
    (w : Engine) : Engine :=
  observerCallback self (List.filter (isObserved self w) entries) w.

Definition setVariable (key : string) (v : value) (self : nat) (w : Engine) : Engine :=
  match heap w !! self with
  | None => w
  | Some o => store self (set_vars (<[key := v]> (vars o)) o) w
  end.


Definition onDestroy (cb : callback) (self : nat) (w : Engine) : Engine :=
  match heap w !! self with
  | None => w
  | Some o => store self (set_onDestroyCb (Some cb) o) w
  end.

Definition disconnect (self : nat) (w : Engine) : Engine :=
  match heap w !! self with
  | None => w
  | Some o => store self (set_observed [] o) w
  end.

Definition removeContainer (self : nat) (w : Engine) : Engine :=
  match heap w !! self with
  | None => w
  | Some o => store self (set_attached false o) w
  end.

Definition destroy (self : nat) (w : Engine) : Engine :=
  match heap w !! self with
  | None => w
  | Some o =>
      let w1 := match onDestroyCb o with
                | Some cb => emit (DestroyHook cb self) w
                | None => w
                end in
      removeContainer self (unregisterObject (id o) (disconnect self w1))
  end.

(** *** What can happen to an engine

    The calls a host can make on a running engine and on the objects it
    registered, the frame tick and the two platform events the engine
    reacts to.  Not among the steps: the engine's own [destroy()], which
    stops the loop and detaches the scene, and [createChild] with whatever
    is done to the object it returns; a run is a run of an engine that has
    not been destroyed and whose objects were all made by [createObject].
    [setMoveInDirection] is a [setMoveToPosition] on the target it computes.
    The style, image and text setters, the function store and the input
    listeners touch nothing that the model represents. *)
Inductive step :=
| CreateObject (i : string)
| SetPosition (x y : Q) (self : nat)
| SetMoveToPosition (x y speed now : Q) (self : nat)
| SetStopMovement (self : nat)
| AddClass (className : string) (self : nat)
| OnCollisionTrigger (targetClass : string) (cb : callback) (self : nat)
| SetVariable (key : string) (v : value) (self : nat)
| OnDestroy (cb : callback) (self : nat)
| Destroy (self : nat)
| Tick (time now : Q)
| IntersectionChange (self : nat) (entries : list (nat * bool))
| MouseMove (left top clientX clientY : Q).

(** The object whose method a step calls, if it is a method call. *)
Definition receiver (s : step) : option nat :=
  match s with
  | SetPosition _ _ self | SetMoveToPosition _ _ _ _ self | SetStopMovement self
  | AddClass _ self | OnCollisionTrigger _ _ self | SetVariable _ _ self
  | OnDestroy _ self | Destroy self => Some self
  | CreateObject _ | Tick _ _ | IntersectionChange _ _ | MouseMove _ _ _ _ => None
  end.

Section Running.
Context {H : Hypot} {Sel : Selectors}.

Definition run1 (w : Engine) (s : step) : Engine :=
  match s with
  | CreateObject i => snd (createObject i w)
  | SetPosition x y self => setPosition x y self w
  | SetMoveToPosition x y speed now self => setMoveToPosition x y speed now self w
  | SetStopMovement self => setStopMovement self w
  | AddClass c self => addClass c self w
  | OnCollisionTrigger c cb self => onCollisionTrigger c cb self w
  | SetVariable k v self => setVariable k v self w
  | OnDestroy cb self => onDestroy cb self w
  | Destroy self => destroy self w
  | Tick time now => loop time now w
  | IntersectionChange self entries => intersectionChange self entries w
  | MouseMove bx by_ cx cy => mousemove bx by_ cx cy w
  end.

Definition run (steps : list step) (w : Engine) : Engine := foldl run1 w steps.
End Running.

(** The invocations of [self]'s collision handlers recorded in a trace. *)
Definition isHandlerCallOf (self : nat) (e : event) : bool :=
  match e with
  | Collision _ s _ => Nat.eqb s self
  | _ => false
  end.

Definition handlerCallsOf (self : nat) (tr : list event) : list event :=
  List.filter (isHandlerCallOf self) tr.

Definition observedBy (self : nat) (w : Engine) : list nat :=
  match heap w !! self with
  | Some o => observed o
  | None => []
  end.

Definition movementOf (self : nat) (w : Engine) : option Movement :=
  heap w !! self ≫= movement.

(** *** [utils] and [setMoveInDirection] *)

Section Utils.
Context {H : Hypot}.

Definition getDistanceBetweenTwoPoints (x1 y1 x2 y2 : Q) : Q :=
  hypot (x2 - x1) (y2 - y1).

(** The [forEach] of [getClosestToPoint], from index [i] on. *)
Fixpoint closestFrom (target : Point) (points : list Point) (i closest : nat)
    (minDist : option Q) : nat :=
  match points with
  | [] => closest
  | p :: rest =>
      let d := hypot (px p - px target) (py p - py target) in
      if below d minDist then closestFrom target rest (S i) i (Some d)
      else closestFrom target rest (S i) closest minDist
  end.

Definition getClosestToPoint (points : list Point) (target : Point) : option nat :=
  match points with
  | [] => None
  | _ => Some (closestFrom target points 0 0 None)
  end.

Definition getPointDistancesInOrdered (points : list Point) (target : Point) : list nat :=
  map fst
    (sortByDistance
       (imap (fun i p => (i, hypot (px p - px target) (py p - py target))) points)).

Context {T : Trig}.

Definition setMoveInDirection (direction distance speed now : Q) (self : nat)
    (w : Engine) : Engine :=
  match heap w !! self with
  | None => w
  | Some o =>
      let rad := (90 - direction) * (PI / 180) in
      let tx := px (pos o) + cos rad * distance in
      let ty := py (pos o) + sin rad * distance in
      setMoveToPosition tx ty speed now self w
  end.
End Utils.

End Current.

(** * Notions used in the statements *)

Section CurrentNotions.
Import Current.

(** The receiver after [#applyPosition(x, y)]. *)
Definition placed (x y : Q) (o : CanvasObject) : CanvasObject :=
  if isCamera o then set_pos (mkPoint x y) o
  else set_translate (mkPoint x (- y)) (set_pos (mkPoint x y) o).

Definition keeps (r : nat) (w w' : Engine) : Prop :=
  observedBy r w' = observedBy r w /\
  handlerCallsOf r (trace w') = handlerCallsOf r (trace w).

Definition classListOf (self : nat) (w : Engine) : list string :=
  match heap w !! self with
  | Some o => classList o
  | None => []
  end.

Definition handlerOf (self : nat) (tag : string) (w : Engine) : option callback :=
  heap w !! self ≫= fun o => collisionHandlers o !! tag.

(** One turn of the [forEach] that follows [querySelectorAll] in
    [onCollisionTrigger]. *)
Definition watch (self : nat) (w : Engine) (el : nat) : Engine :=
  if Nat.eqb el self then w else observe el self w.

(** The elements that [forEach] goes through: what the query answered, and
    none when it threw. *)
Definition selected {Sel : Selectors} (targetClass : string) (cb : callback) (self : nat)
    (w : Engine) : list nat :=
  default [] (querySelectorAll (String "." targetClass)
                (setHandler targetClass cb self (addClass targetClass self w))).

(** What a run of the observer callback can change: nothing but the trace,
    which grows by invocations of the receiver's own handlers, each with
    the receiver as first argument. *)
Definition onlyCalls (self : nat) (w w' : Engine) : Prop :=
  heap w' = heap w /\ objects w' = objects w /\
  exists calls, trace w' = trace w ++ calls /\
    Forall (fun e => exists cb other, e = Collision cb self other) calls.

(** C8 as stated: subscribing makes the receiver carry the tag, and every
    other object already subscribed to that tag then has the receiver among
    the elements its observer watches (without which its handler can never
    be invoked for the receiver). *)
Definition adoption_makes_detection_symmetric {Sel : Selectors} : Prop :=
  forall (w : Engine) (self s : nat) (o os : CanvasObject) (tag : string)
         (cb hs : callback),
    heap w !! self = Some o -> heap w !! s = Some os -> s <> self ->
    attached o = true -> attached os = true ->
    collisionHandlers os !! tag = Some hs ->
    tag ∈ classListOf self (onCollisionTrigger tag cb self w) /\
    self ∈ observedBy s (onCollisionTrigger tag cb self w).

End CurrentNotions.

Section LibNotions.
Import Lib.

(** The invocation the sweep makes for one element, if any. *)
Definition callFor (rectOf : nat -> DOMRect) (key : string) (self : nat) (w : Engine)
    (el : nat) : list event :=
  if withinReach (rectOf self) (rectOf el)
  then match heap w !! el, trigger key self w with
       | Some e, Some cb => [Collision cb self (getCanvasObject (upToSpace (id e)) w)]
       | _, _ => []
       end
  else [].

(** The invocations the sweep makes for one subscribed key. *)
Definition sweepCalls (rectOf : nat -> DOMRect) (self : nat) (w : Engine)
    (key : string) : list event :=
  flat_map (callFor rectOf key self w) (getElementsByClassName key w).

(** What [Object.keys(this.#onCollisionTrigger)] lists for an object. *)
Definition keysOf (self : nat) (w : Engine) : list string :=
  match heap w !! self with
  | Some o => ownKeys (onCollisionTriggers o)
  | None => []
  end.

(** What the sweep reads of an object. *)
Definition swept (o : CanvasObject)
    : string * list (string * callback) * list string * bool :=
  (id o, onCollisionTriggers o, classList o, attached o).

(** [w'] differs from [w] at most in what the sweep does not read. *)
Definition alike (w w' : Engine) : Prop :=
  canvasObjects w' = canvasObjects w /\
  canvasProto w' = canvasProto w /\
  canvasAttached w' = canvasAttached w /\
  length (heap w') = length (heap w) /\
  forall r, swept <$> heap w' !! r = swept <$> heap w !! r.

End LibNotions.

Section RafNotions.
Import Raf.

(** Going from [w] to [w'] kept every object there was, the pending frames
    and the handle counter. *)
Definition extends (w w' : Engine) : Prop :=
  frames w' = frames w /\
  nextHandle w' = nextHandle w /\
  mousePosition w' = mousePosition w /\
  forall r o, heap w !! r = Some o -> heap w' !! r = Some o.

(** The frame with handle [h] is pending. *)
Definition pending (h : Z) (w : Engine) : Prop := In h (map fst (frames w)).

(** The distance [utils.getClosestToPoint] computes for the point at
    index [i]. *)
Definition distanceTo {R : Sqrt} (points : list Point) (point : Point) (i : nat) : Q :=
  match points !! i with
  | Some obj => getDistanceBetweenTwoPoints (px obj) (py obj) (px point) (py point)
  | None => 0
  end.

End RafNotions.

(** ** Notions for the further properties *)

Section CurrentInvariants.
Import Current.

(** Going from [w] to [w'] kept the camera, the registry and the heap's
    size, and every object kept its identity, its kind and its place in or
    out of the document. *)
Definition quiet (w w' : Engine) : Prop :=
  camera w' = camera w /\ objects w' = objects w /\
  length (heap w') = length (heap w) /\
  forall r o, heap w !! r = Some o ->
    exists o', heap w' !! r = Some o' /\
      id o' = id o /\ isCamera o' = isCamera o /\ attached o' = attached o.

(** Every object of [w] is still there in [w'], with its identity and
    kind. *)
Definition persists (w w' : Engine) : Prop :=
  camera w' = camera w /\
  forall r o, heap w !! r = Some o ->
    exists o', heap w' !! r = Some o' /\ id o' = id o /\ isCamera o' = isCamera o.

(** The engine's data invariant: the camera exists and is the only camera;
    the registry maps an id to an object in the document that bears this
    id and is not a camera. *)
Definition consistent (w : Engine) : Prop :=
  (exists c, heap w !! camera w = Some c /\ isCamera c = true) /\
  (forall r o, heap w !! r = Some o -> isCamera o = true -> r = camera w) /\
  (forall i r, objects w !! i = Some r ->
     exists o, heap w !! r = Some o /\ id o = i /\ isCamera o = false /\
               attached o = true).

(** What [update] makes of its receiver. *)
Definition advance (now : Q) (o : CanvasObject) : CanvasObject :=
  match movement o with
  | None => o
  | Some m =>
      if Qle_bool (duration m) ((now - startTime m) / 1000)
      then set_movement None (placed (targetX m) (targetY m) (set_movement None o))
      else placed
             (startX m + (targetX m - startX m) * ((now - startTime m) / 1000 / duration m))
             (startY m + (targetY m - startY m) * ((now - startTime m) / 1000 / duration m))
             o
  end.

(** [r] is the object of some registry entry. *)
Definition registered (r : nat) (w : Engine) : Prop :=
  exists i, objects w !! i = Some r.

(** The distance [getClosestToPoint] and [getPointDistancesInOrdered]
    compute for the point at index [i]. *)
Definition distanceAt {H : Hypot} (points : list Point) (target : Point) (i : nat) : Q :=
  match points !! i with
  | Some p => hypot (px p - px target) (py p - py target)
  | None => 0
  end.

(** The order [getPointDistancesInOrdered] has to put indices in: nearer
    first, and of two equally near points the one that comes first in the
    array. *)
Definition nearerFirst {H : Hypot} (points : list Point) (target : Point)
    (i j : nat) : Prop :=
  distanceAt points target i < distanceAt points target j \/
  (distanceAt points target i == distanceAt points target j /\ (i < j)%nat).

(** The same order on the index/distance pairs that are sorted. *)
Definition pairBefore (x y : nat * Q) : Prop :=
  snd x < snd y \/ (snd x == snd y /\ (fst x < fst y)%nat).

(** The fraction of a movement that has elapsed at clock reading [now]. *)
Definition progress (now : Q) (m : Movement) : Q :=
  (now - startTime m) / 1000 / duration m.

(** What one call of [destroy] adds to the trace. *)
Definition destroyHooks (self : nat) (o : CanvasObject) : list event :=
  match onDestroyCb o with
  | Some cb => [DestroyHook cb self]
  | None => []
  end.

(** The invocations one reported entry gives rise to: for an intersecting
    target whose id the registry resolves, one per class of the target that
    the receiver has a handler for. *)
Definition invocationsFor (self : nat) (w : Engine) (entry : nat * bool) : list event :=
  if snd entry then
    match heap w !! fst entry with
    | Some target =>
        flat_map (fun cls =>
                    match handlerOf self cls w, getCanvasObject (id target) w with
                    | Some handler, Some other => [Collision handler self other]
                    | _, _ => []
                    end) (classList target)
    | None => []
    end
  else [].

End CurrentInvariants.

(** ** An executable [Math.hypot] on rationals

    Exact whenever the sum of the squares is the square of a rational,
    rounded towards zero on numerator and denominator otherwise. *)

Definition rational_hypot (dx dy : Q) : Q :=
  let s := Qred (dx * dx + dy * dy) in
  Z.sqrt (Qnum s) # Z.to_pos (Z.sqrt (Zpos (Qden s))).

(** The square root taken the same way. *)
Definition rational_sqrt (q : Q) : Q :=
  let s := Qred q in
  Z.sqrt (Qnum s) # Z.to_pos (Z.sqrt (Zpos (Qden s))).

(** ** Scenarios *)

(** A freshly constructed engine, and the engine of scenario 3 after the
    first [createObject] of "p". *)
Definition fresh_engine : Current.Engine :=
  default (Current.mkEngine [] ∅ 0 origin 0 origin [])
          (Current.constructor true "cam").

Definition engine_with_p : Current.Engine :=
  snd (Current.createObject "p" fresh_engine).

(** Objects "a" (reference 1) and "b" (reference 2); "b" has subscribed to
    "hit". *)
Definition a_and_b : Current.Engine :=
  snd (Current.createObject "b" (snd (Current.createObject "a" fresh_engine))).

Definition b_subscribed {Sel : Current.Selectors} : Current.Engine :=
  Current.onCollisionTrigger "hit" "hb" 2 a_and_b.



(** Objects "a" (reference 1, 10 x 10, at the scene origin) and "b"
    (reference 2, 2 x 10, at (4, 0)), both carrying "hit"; "a" subscribes to
    "hit".  The canvas origin is at client (400, 300), so the layout engine
    reports the rectangles of [layout_ab]: "b" lies inside "a". *)
Definition scene_ab {F : HostFunctions} : Lib.Engine :=
  let w0 := Lib.constructor "cam" in
  let w1 := snd (Lib.createObject "a" w0) in
  let w2 := snd (Lib.createObject "b" w1) in
  let w3 := Lib.addClass "hit" 2 (Lib.addClass "hit" 1 w2) in
  let w4 := Lib.onCollisionTrigger "hit" "h" 1 w3 in
  Lib.setPosition (fun _ => mkRect 400 300 0 0) 4 0 2 w4.

(** Objects "a" (reference 1) and "c" (reference 2); "c" carries the
    classes "b" and "1", and "a" subscribes to "b" and then to "1". *)
Definition scene_keys {F : HostFunctions} : Lib.Engine :=
  let w0 := Lib.constructor "cam" in
  let w1 := snd (Lib.createObject "a" w0) in
  let w2 := snd (Lib.createObject "c" w1) in
  let w3 := Lib.addClass "1" 2 (Lib.addClass "b" 2 w2) in
  Lib.onCollisionTrigger "1" "h1" 1 (Lib.onCollisionTrigger "b" "hb" 1 w3).

Definition layout_ab (r : nat) : DOMRect :=
  match r with
  | 1%nat => mkRect 395 295 10 10
  | 2%nat => mkRect 403 295 2 10
  | _ => mkRect 400 300 0 0
  end.

(** An engine of the requestAnimationFrame revision in which the camera
    (reference 0, never in the registry) carries "hit" and object "a"
    (reference 1, 10 x 10) subscribes to "hit"; both sit on the scene
    origin.  The next [Math.random()] prints as "0.42". *)
Definition scene_camera_tagged {F : HostFunctions} : Raf.Engine :=
  let w0 := Raf.constructor "cam" (fun _ => "0.42") in
  let w1 := snd (Raf.createObject "a" w0) in
  Raf.onCollisionTrigger "hit" "h" 1 (Raf.addClass "hit" 0 w1).

Definition layout_camera (r : nat) : DOMRect :=
  match r with
  | 1%nat => mkRect 395 295 10 10
  | _ => mkRect 400 300 0 0
  end.

Definition raf_with_p : Raf.Engine :=
  snd (Raf.createObject "p" (Raf.constructor "cam" (fun _ => "0.42"))).

Definition no_layout (r : nat) : DOMRect := mkRect 0 0 0 0.

(** A selector engine for the examples: it answers [.c] for an identifier
    [c] and refuses every other text. *)
Definition classSelectors (selector : string) (w : Current.Engine) : option (list nat) :=
  match selector with
  | String "." c => if Current.identifier c then Some (Current.carriers c w) else None
  | _ => None
  end.

(** A stand-in for the platform's trigonometry where an example needs
    one: every direction points right. *)
Definition rightwards : Trig := {| PI := 3; cos := fun _ => 1; sin := fun _ => 0 |}.

Definition at_point (x y : Q) (p : Point) : bool :=
  Qeq_bool (px p) x && Qeq_bool (py p) y.

(** * Verified properties *)

(** ** [rational_hypot] is a [Math.hypot] *)

Lemma Qnum_zero (q : Q) : Qnum q = 0%Z <-> q == 0.
Proof. unfold Qeq; simpl; lia. Qed.

Lemma sum_squares_zero (a b : Q) : a * a + b * b == 0 <-> a == 0 /\ b == 0.
Proof.
  split.
  - destruct a as [an ad], b as [bn bd].
    unfold Qeq, Qplus, Qmult; simpl. intros E. nia.
  - intros [-> ->]. reflexivity.
Qed.

Lemma sum_squares_nonneg (a b : Q) : 0 <= a * a + b * b.
Proof.
  destruct a as [an ad], b as [bn bd].
  unfold Qle, Qplus, Qmult; simpl. nia.
Qed.

Lemma rational_hypot_zero (dx dy : Q) :
  rational_hypot dx dy == 0 <-> dx == 0 /\ dy == 0.
Proof.
  rewrite <- sum_squares_zero. unfold rational_hypot.
  pose proof (sum_squares_nonneg dx dy) as Hnn.
  pose proof (Qred_correct (dx * dx + dy * dy)) as Hred.
  set (s := Qred (dx * dx + dy * dy)) in *.
  rewrite <- Hred in Hnn. rewrite <- Hred.
  assert (0 <= Qnum s)%Z as Hn by (unfold Qle in Hnn; simpl in Hnn; lia).
  rewrite <- !Qnum_zero. simpl.
  split; intros E.
  - destruct (Z.eq_dec (Qnum s) 0%Z) as [|Hne]; [assumption|].
    assert (0 < Z.sqrt (Qnum s))%Z by (apply Z.sqrt_pos; lia). lia.
  - rewrite E. reflexivity.
Qed.

#[export] Instance rational_Hypot : Hypot :=
  {| hypot := rational_hypot; hypot_zero := rational_hypot_zero |}.

(** ** Stand-ins for the other platform functions

    The examples below need a square root, a selector engine and host
    functions to run on.  The square root is the one of [rational_hypot];
    the selector engine answers the class selectors of identifiers and
    refuses every other text; the host functions are plain ones, which
    refuse nothing but the names every function holds read-only. *)

#[export] Instance rational_Sqrt : Sqrt := {| sqrt := rational_sqrt |}.

Lemma classSelectors_class (c : string) (w : Current.Engine) :
  Current.identifier c = true ->
  classSelectors (String "." c) w = Some (Current.carriers c w).
Proof. intros Hc. unfold classSelectors. rewrite Hc. reflexivity. Qed.

#[export] Instance class_Selectors : Current.Selectors :=
  {| Current.querySelectorAll := classSelectors;
     Current.querySelectorAll_class := classSelectors_class |}.

#[export] Instance plain_HostFunctions : HostFunctions :=
  {| refuses _ key := bool_decide (key ∈ ["name"; "length"]) |}.

(** ** The current revision *)

Section CurrentFacts.
Import Current.
Context {H : Hypot} {Sel : Selectors}.

Lemma onCollisionTrigger_selected (c : string) (cb : callback) (self : nat) (w : Engine) :
  onCollisionTrigger c cb self w
    = foldl (watch self) (setHandler c cb self (addClass c self w)) (selected c cb self w).
Proof.
  unfold onCollisionTrigger, selected.
  destruct (querySelectorAll _ _); reflexivity.
Qed.

Lemma onCollisionTrigger_identifier (c : string) (cb : callback) (self : nat)
    (w : Engine) :
  identifier c = true ->
  onCollisionTrigger c cb self w
    = foldl (watch self) (setHandler c cb self (addClass c self w))
            (carriers c (setHandler c cb self (addClass c self w))).
Proof.
  intros Hc. unfold onCollisionTrigger. rewrite querySelectorAll_class by exact Hc.
  reflexivity.
Qed.

Lemma selected_identifier (c : string) (cb : callback) (self : nat) (w : Engine) :
  identifier c = true ->
  selected c cb self w = carriers c (setHandler c cb self (addClass c self w)).
Proof.
  intros Hc. unfold selected. rewrite querySelectorAll_class by exact Hc. reflexivity.
Qed.

Lemma heap_store_eq (w : Engine) (self : nat) (o o' : CanvasObject) :
  heap w !! self = Some o -> heap (store self o' w) !! self = Some o'.
Proof.
  intros E. simpl. apply list_lookup_insert_eq. eapply lookup_lt_Some, E.
Qed.

Lemma heap_store_ne (w : Engine) (self r : nat) (o' : CanvasObject) :
  self <> r -> heap (store self o' w) !! r = heap w !! r.
Proof. intros Hne. simpl. apply list_lookup_insert_ne, Hne. Qed.

(** C1. When [id] is already in the registry, [createObject(id)] returns
    the registered object, allocates no object and changes none, leaves
    the registry exactly as it was (so a single entry for [id]), and
    emits exactly one duplicate-id warning. *)
Theorem createObject_existing_id (w : Engine) (i : string) (r : nat) :
  objects w !! i = Some r ->
  fst (createObject i w) = r /\
  heap (snd (createObject i w)) = heap w /\
  objects (snd (createObject i w)) = objects w /\
  getCanvasObject i (snd (createObject i w)) = Some r /\
  trace (snd (createObject i w)) = trace w ++ [WarnExists i].
Proof.
  intros E. unfold createObject, getCanvasObject. rewrite E. simpl.
  repeat split; assumption.
Qed.

Lemma applyPosition_heap (w : Engine) (self : nat) (o : CanvasObject) (x y : Q) :
  heap w !! self = Some o ->
  heap (applyPosition x y self w) = <[self := placed x y o]> (heap w) /\
  objects (applyPosition x y self w) = objects w /\
  trace (applyPosition x y self w) = trace w.
Proof.
  intros E. unfold applyPosition, placed. rewrite E.
  destruct (isCamera o); simpl; auto.
Qed.

Lemma setPosition_heap (w : Engine) (self : nat) (o : CanvasObject) (x y : Q) :
  heap w !! self = Some o ->
  heap (setPosition x y self w) = <[self := placed x y (set_movement None o)]> (heap w) /\
  objects (setPosition x y self w) = objects w /\
  trace (setPosition x y self w) = trace w.
Proof.
  intros E. unfold setPosition. rewrite E.
  destruct (applyPosition_heap (store self (set_movement None o) w) self
              (set_movement None o) x y) as (Hh & Ho & Ht).
  { eapply heap_store_eq, E. }
  rewrite Hh, Ho, Ht. simpl. rewrite list_insert_insert_eq. auto.
Qed.

Lemma clearMovement_heap (w : Engine) (self : nat) (o : CanvasObject) :
  heap w !! self = Some o ->
  heap (clearMovement self w) = <[self := set_movement None o]> (heap w) /\
  objects (clearMovement self w) = objects w /\
  trace (clearMovement self w) = trace w.
Proof. intros E. unfold clearMovement. rewrite E. simpl. auto. Qed.

(** C3. [setMoveToPosition(x, y, speed)] with a non-positive speed, or
    with a target equal to the current position, returns without any
    effect: the engine (and so the receiver's position and movement, and
    the trace) is exactly what it was. *)
Theorem setMoveToPosition_ignored (w : Engine) (self : nat) (o : CanvasObject)
    (x y speed now : Q) :
  heap w !! self = Some o ->
  speed <= 0 \/ (x == px (pos o) /\ y == py (pos o)) ->
  setMoveToPosition x y speed now self w = w.
Proof.
  intros E Hc. unfold setMoveToPosition. rewrite E.
  destruct (Qle_bool speed 0) eqn:Hs; [reflexivity|].
  destruct Hc as [Hle | [Hx Hy]].
  - apply Qle_bool_iff in Hle. congruence.
  - assert (hypot (x - px (pos o)) (y - py (pos o)) == 0) as Hz.
    { apply hypot_zero. split; [rewrite Hx | rewrite Hy]; ring. }
    apply Qeq_bool_iff in Hz. rewrite Hz. reflexivity.
Qed.

(** [update] once the elapsed time has reached the duration of the active
    movement, whatever that movement is. *)
Lemma update_arrival (w : Engine) (self : nat) (m : Movement) (now : Q) :
  movementOf self w = Some m ->
  duration m <= (now - startTime m) / 1000 ->
  getPosition self (update now self w) = Some (mkPoint (targetX m) (targetY m)) /\
  movementOf self (update now self w) = None.
Proof.
  unfold movementOf. destruct (heap w !! self) as [o|] eqn:E; [|discriminate].
  intros Hm Hd. change (movement o = Some m) in Hm.
  unfold update. rewrite E, Hm. cbv zeta.
  apply Qle_bool_iff in Hd. rewrite Hd.
  destruct (setPosition_heap w self o (targetX m) (targetY m) E) as (Hh & _ & _).
  assert (heap (setPosition (targetX m) (targetY m) self w) !! self =
          Some (placed (targetX m) (targetY m) (set_movement None o))) as E2.
  { rewrite Hh. apply list_lookup_insert_eq. eapply lookup_lt_Some, E. }
  destruct (clearMovement_heap _ self _ E2) as (Hc & _ & _).
  unfold getPosition. rewrite Hc, list_lookup_insert_eq.
  - unfold placed. simpl. destruct (isCamera o); simpl; auto.
  - eapply lookup_lt_Some, E2.
Qed.

(** [update] before that: the object is put on the segment and the
    movement stays as it is. *)
Lemma update_under_way (w : Engine) (self : nat) (m : Movement) (now : Q) :
  movementOf self w = Some m ->
  (now - startTime m) / 1000 < duration m ->
  getPosition self (update now self w)
    = Some (mkPoint
              (startX m + (targetX m - startX m) * ((now - startTime m) / 1000 / duration m))
              (startY m + (targetY m - startY m) * ((now - startTime m) / 1000 / duration m)))
  /\ movementOf self (update now self w) = Some m.
Proof.
  unfold movementOf. destruct (heap w !! self) as [o|] eqn:E; [|discriminate].
  intros Hm Hlt. change (movement o = Some m) in Hm.
  unfold update. rewrite E, Hm. cbv zeta.
  destruct (Qle_bool (duration m) ((now - startTime m) / 1000)) eqn:Hd.
  - apply Qle_bool_iff in Hd. exfalso. eapply Qlt_not_le; eassumption.
  - match goal with
    | |- context [applyPosition ?a ?b self w] =>
        destruct (applyPosition_heap w self o a b E) as (Hh & _ & _)
    end.
    unfold getPosition. rewrite Hh.
    rewrite list_lookup_insert_eq by (eapply lookup_lt_Some, E).
    unfold placed. simpl. destruct (isCamera o); simpl; auto.
Qed.

(** C4. After [setMoveToPosition(x, y, speed)] with a positive speed and a
    target other than the current position, a movement is active whose
    duration is the distance divided by the speed.  After any number of
    earlier updates that fell short of the duration, [update] at a clock
    reading with elapsed time at least the duration (equal to it in
    particular) puts the object exactly on the target and clears the
    movement. *)
Theorem update_arrives_on_target (w : Engine) (self : nat) (o : CanvasObject)
    (x y speed now0 : Q) :
  heap w !! self = Some o ->
  0 < speed ->
  ~ (x == px (pos o) /\ y == py (pos o)) ->
  let d := hypot (x - px (pos o)) (y - py (pos o)) / speed in
  let w1 := setMoveToPosition x y speed now0 self w in
  movementOf self w1 =
    Some (mkMovement (px (pos o)) (py (pos o)) x y speed now0 d) /\
  (forall (earlier : list Q) (now1 : Q),
     Forall (fun t => (t - now0) / 1000 < d) earlier ->
     d <= (now1 - now0) / 1000 ->
     let w2 := foldl (fun w t => update t self w) w1 earlier in
     getPosition self (update now1 self w2) = Some (mkPoint x y) /\
     movementOf self (update now1 self w2) = None).
Proof.
  intros E Hs Hne d w1.
  set (m := mkMovement (px (pos o)) (py (pos o)) x y speed now0 d).
  assert (w1 = store self (set_movement (Some m) o) w) as Hw1.
  { unfold w1, setMoveToPosition. rewrite E.
    destruct (Qle_bool speed 0) eqn:Hle.
    - apply Qle_bool_iff in Hle. exfalso. eapply Qlt_not_le; eassumption.
    - destruct (Qeq_bool (hypot (x - px (pos o)) (y - py (pos o))) 0) eqn:Hz;
        [|reflexivity].
      apply Qeq_bool_iff, hypot_zero in Hz. exfalso. apply Hne.
      destruct Hz as [Hx Hy]. split.
      + rewrite <- (Qplus_0_r (px (pos o))), <- Hx. ring.
      + rewrite <- (Qplus_0_r (py (pos o))), <- Hy. ring. }
  assert (movementOf self w1 = Some m) as Hm1.
  { unfold movementOf. rewrite Hw1, (heap_store_eq w self o _ E). reflexivity. }
  split; [exact Hm1|].
  intros earlier now1 Hall Hd w2.
  assert (movementOf self w2 = Some m) as Hm2.
  { unfold w2. clear w2 Hw1. generalize dependent w1.
    induction earlier as [|t ts IH]; intros w1 Hm1; simpl; [exact Hm1|].
    inversion Hall as [|? ? Ht Hts]; subst.
    apply IH; [exact Hts|].
    apply (update_under_way w1 self m t Hm1). exact Ht. }
  apply (update_arrival w2 self m now1 Hm2). exact Hd.
Qed.

Lemma update_idle (w : Engine) (self : nat) (now : Q) :
  movementOf self w = None -> update now self w = w.
Proof.
  unfold movementOf, update. destruct (heap w !! self) as [o|]; simpl; [|reflexivity].
  intros ->. reflexivity.
Qed.

Lemma update_heap_other (w : Engine) (self r : nat) (now : Q) :
  self <> r -> heap (update now self w) !! r = heap w !! r.
Proof.
  intros Hne. unfold update.
  destruct (heap w !! self) as [o|] eqn:E; [|reflexivity].
  destruct (movement o) as [m|]; [|reflexivity].
  destruct (Qle_bool _ _).
  - destruct (setPosition_heap w self o (targetX m) (targetY m) E) as (Hh & _ & _).
    assert (heap (setPosition (targetX m) (targetY m) self w) !! self =
            Some (placed (targetX m) (targetY m) (set_movement None o))) as E2.
    { rewrite Hh. apply list_lookup_insert_eq. eapply lookup_lt_Some, E. }
    destruct (clearMovement_heap _ self _ E2) as (Hc & _ & _).
    rewrite Hc, Hh, !list_lookup_insert_ne by exact Hne. reflexivity.
  - destruct (applyPosition_heap w self o
               (startX m + (targetX m - startX m) * ((now - startTime m) / 1000 / duration m))
               (startY m + (targetY m - startY m) * ((now - startTime m) / 1000 / duration m))
               E) as (Hh & _ & _).
    rewrite Hh, list_lookup_insert_ne by exact Hne. reflexivity.
Qed.

Lemma updates_keep_idle (now : Q) (rs : list nat) (w : Engine) (self : nat)
    (o : CanvasObject) :
  heap w !! self = Some o -> movement o = None ->
  heap (foldl (fun w r => update now r w) w rs) !! self = Some o.
Proof.
  revert w. induction rs as [|r rs IH]; intros w E Hm; simpl; [exact E|].
  apply IH; [|exact Hm].
  destruct (decide (r = self)) as [->|Hne].
  - rewrite update_idle; [exact E|]. unfold movementOf. rewrite E. exact Hm.
  - rewrite update_heap_other by exact Hne. exact E.
Qed.

Lemma loop_keeps_idle (time now : Q) (w : Engine) (self : nat) (o : CanvasObject) :
  heap w !! self = Some o -> movement o = None ->
  heap (loop time now w) !! self = Some o.
Proof. intros E Hm. unfold loop. apply updates_keep_idle; assumption. Qed.

(** C5. [setPosition(x, y)] puts the object on (x, y) and leaves it
    without a movement; from then on neither [update] nor any number of
    frame ticks changes the object, its position included. *)
Theorem setPosition_stops_movement (w : Engine) (self : nat) (o : CanvasObject)
    (x y : Q) :
  heap w !! self = Some o ->
  let w1 := setPosition x y self w in
  getPosition self w1 = Some (mkPoint x y) /\
  movementOf self w1 = None /\
  (forall now, update now self w1 = w1) /\
  (forall ticks : list (Q * Q),
     let w2 := foldl (fun w t => loop (fst t) (snd t) w) w1 ticks in
     heap w2 !! self = heap w1 !! self /\
     getPosition self w2 = Some (mkPoint x y)).
Proof.
  intros E w1.
  destruct (setPosition_heap w self o x y E) as (Hh & _ & _).
  set (o1 := placed x y (set_movement None o)) in *.
  assert (heap w1 !! self = Some o1) as E1.
  { unfold w1. rewrite Hh. apply list_lookup_insert_eq. eapply lookup_lt_Some, E. }
  assert (movement o1 = None) as Hm.
  { unfold o1, placed. destruct (isCamera _); reflexivity. }
  assert (pos o1 = mkPoint x y) as Hp.
  { unfold o1, placed. destruct (isCamera _); reflexivity. }
  assert (movementOf self w1 = None) as Hm1.
  { unfold movementOf. rewrite E1. exact Hm. }
  repeat split.
  - unfold getPosition. rewrite E1. simpl. congruence.
  - exact Hm1.
  - intros now. apply update_idle, Hm1.
  - rewrite E1. clear Hh. generalize dependent w1.
    induction ticks as [|t ticks IH]; intros w1 E1 Hm1; simpl; [exact E1|].
    apply IH.
    + apply loop_keeps_idle; assumption.
    + unfold movementOf. rewrite loop_keeps_idle with (o := o1); assumption.
  - assert (heap (foldl (fun w t => loop (fst t) (snd t) w) w1 ticks) !! self = Some o1)
      as E2.
    { clear Hh. generalize dependent w1.
      induction ticks as [|t ticks IH]; intros w1 E1 Hm1; simpl; [exact E1|].
      apply IH.
      + apply loop_keeps_idle; assumption.
      + unfold movementOf. rewrite loop_keeps_idle with (o := o1); assumption. }
    unfold getPosition. rewrite E2. simpl. congruence.
Qed.
End CurrentFacts.

Lemma createObject_existing_id_witness :
  fst (Current.createObject "p" engine_with_p) = 1%nat /\
  Current.heap (snd (Current.createObject "p" engine_with_p)) = Current.heap engine_with_p /\
  Current.objects (snd (Current.createObject "p" engine_with_p)) = Current.objects engine_with_p /\
  Current.getCanvasObject "p" (snd (Current.createObject "p" engine_with_p)) = Some 1%nat /\
  Current.trace (snd (Current.createObject "p" engine_with_p)) =
    Current.trace engine_with_p ++ [Current.WarnExists "p"].
Proof. apply (createObject_existing_id engine_with_p "p" 1). vm_compute. reflexivity. Defined.

Lemma setMoveToPosition_ignored_witness :
  Current.setMoveToPosition 5 5 0 0 1 engine_with_p = engine_with_p /\
  Current.setMoveToPosition 0 0 50 0 1 engine_with_p = engine_with_p.
Proof.
  split.
  - apply (setMoveToPosition_ignored engine_with_p 1 (Current.new_CanvasObject "p" false)).
    + reflexivity.
    + left. apply Qle_bool_iff. reflexivity.
  - apply (setMoveToPosition_ignored engine_with_p 1 (Current.new_CanvasObject "p" false)).
    + reflexivity.
    + right. split; reflexivity.
Defined.

(** Scenario 1: from (0,0), [setMoveToPosition(100, 0, 50)] read at clock 0,
    an update after 1 s and the update after 2 s. *)
Lemma update_arrives_on_target_witness :
  let w1 := Current.setMoveToPosition 100 0 50 0 1 engine_with_p in
  let w2 := Current.update 1000 1 w1 in
  Current.getPosition 1 (Current.update 2000 1 w2) = Some (mkPoint 100 0) /\
  Current.movementOf 1 (Current.update 2000 1 w2) = None.
Proof.
  refine (proj2 (update_arrives_on_target engine_with_p 1
                   (Current.new_CanvasObject "p" false) 100 0 50 0 _ _ _)
                [1000] 2000 _ _).
  - reflexivity.
  - reflexivity.
  - intros [Hx _]. vm_compute in Hx. discriminate Hx.
  - constructor; [vm_compute; reflexivity | constructor].
  - apply Qle_bool_iff. vm_compute. reflexivity.
Defined.

(** Scenario 1 interrupted: the object is on its way to (100, 0) when
    [setPosition(3, 4)] is called; two ticks later, past the time the
    movement would have ended, it is still on (3, 4). *)
Lemma setPosition_stops_movement_witness :
  let w := Current.setMoveToPosition 100 0 50 0 1 engine_with_p in
  let w1 := Current.setPosition 3 4 1 w in
  let w2 := Current.loop 2000 2000 (Current.loop 1000 1000 w1) in
  (Current.duration <$> Current.movementOf 1 w) = Some (100 / 50) /\
  Current.getPosition 1 w1 = Some (mkPoint 3 4) /\
  Current.movementOf 1 w1 = None /\
  Current.update 1000 1 w1 = w1 /\
  Current.heap w2 !! 1%nat = Current.heap w1 !! 1%nat /\
  Current.getPosition 1 w2 = Some (mkPoint 3 4).
Proof.
  cbv zeta. split; [vm_compute; reflexivity|].
  epose proof (setPosition_stops_movement
                 (Current.setMoveToPosition (H := rational_Hypot) 100 0 50 0 1
                    engine_with_p) 1 _ 3 4
                 ltac:(vm_compute; reflexivity))
    as (Hp & Hm & Hu & Ht).
  split; [exact Hp|]. split; [exact Hm|]. split; [exact (Hu 1000)|].
  exact (Ht [(1000, 1000); (2000, 2000)]).
Defined.

(** Scenario 1 in full: the duration is 2 s, the object is halfway after
    1 s and on the target, idle, after 2 s. *)
Example scenario_move_100_at_50 :
  (Current.duration <$>
     Current.movementOf 1 (Current.setMoveToPosition 100 0 50 0 1 engine_with_p))
    = Some (100 / 50) /\
  (Current.getPosition 1
     (Current.update 1000 1 (Current.setMoveToPosition 100 0 50 0 1 engine_with_p))
     ≫= fun p => Some (Qeq_bool (px p) 50 && Qeq_bool (py p) 0)) = Some true /\
  Current.getPosition 1
    (Current.update 2000 1 (Current.setMoveToPosition 100 0 50 0 1 engine_with_p))
    = Some (mkPoint 100 0).
Proof. vm_compute. auto. Qed.

(** *** Destruction

    [keeps r w w'] says that going from [w] to [w'] left the targets observed
    by [r] and the recorded invocations of [r]'s handlers as they were. *)

Section Destruction.
Import Current.
Context {H : Hypot} {Sel : Selectors}.

Lemma keeps_refl r w : keeps r w w.
Proof. split; reflexivity. Qed.

Lemma keeps_trans r w1 w2 w3 : keeps r w1 w2 -> keeps r w2 w3 -> keeps r w1 w3.
Proof. intros [A B] [C D]. split; congruence. Qed.

Lemma keeps_store r s o o' w :
  heap w !! s = Some o -> observed o' = observed o -> keeps r w (store s o' w).
Proof.
  intros E Ho. split; [|reflexivity]. unfold observedBy.
  destruct (decide (s = r)) as [->|Hne].
  - rewrite (heap_store_eq w r o o' E), E. exact Ho.
  - rewrite heap_store_ne by exact Hne. reflexivity.
Qed.

Lemma keeps_store_other r s o' w : s <> r -> keeps r w (store s o' w).
Proof.
  intros Hne. split; [|reflexivity]. unfold observedBy.
  rewrite heap_store_ne by exact Hne. reflexivity.
Qed.

Lemma keeps_emit r e w : isHandlerCallOf r e = false -> keeps r w (emit e w).
Proof.
  intros He. split; [reflexivity|]. simpl. unfold handlerCallsOf.
  rewrite List.filter_app. simpl. rewrite He. apply app_nil_r.
Qed.

Lemma keeps_foldl {A} r (f : Engine -> A -> Engine) (l : list A) :
  (forall w a, keeps r w (f w a)) -> forall w, keeps r w (foldl f w l).
Proof.
  intros Hf. induction l as [|a l IH]; intros w; simpl; [apply keeps_refl|].
  eapply keeps_trans; [apply Hf | apply IH].
Qed.

Ltac on_receiver w s :=
  let E := fresh "E" in
  destruct (heap w !! s) as [?o|] eqn:E; [|apply keeps_refl].

Lemma keeps_applyPosition r x y s w : keeps r w (applyPosition x y s w).
Proof.
  unfold applyPosition. on_receiver w s.
  destruct (isCamera o).
  - apply (keeps_trans r w (store s (set_pos (mkPoint x y) o) w)).
    + eapply keeps_store; [eassumption|reflexivity].
    + split; reflexivity.
  - eapply keeps_store; [eassumption|reflexivity].
Qed.

Lemma keeps_clearMovement r s w : keeps r w (clearMovement s w).
Proof.
  unfold clearMovement. on_receiver w s.
  eapply keeps_store; [eassumption|reflexivity].
Qed.

Lemma keeps_setPosition r x y s w : keeps r w (setPosition x y s w).
Proof.
  unfold setPosition. on_receiver w s.
  eapply keeps_trans; [|apply keeps_applyPosition].
  eapply keeps_store; [eassumption|reflexivity].
Qed.

Lemma keeps_update r now s w : keeps r w (update now s w).
Proof.
  unfold update. on_receiver w s.
  destruct (movement o) as [m|]; [|apply keeps_refl].
  destruct (Qle_bool _ _).
  - eapply keeps_trans; [|apply keeps_clearMovement]. apply keeps_setPosition.
  - apply keeps_applyPosition.
Qed.

Lemma keeps_loop r time now w : keeps r w (loop time now w).
Proof.
  unfold loop. eapply keeps_trans; [|apply keeps_foldl; intros; apply keeps_update].
  split; reflexivity.
Qed.

Lemma keeps_setMoveToPosition r x y speed now s w :
  keeps r w (setMoveToPosition x y speed now s w).
Proof.
  unfold setMoveToPosition. on_receiver w s.
  destruct (Qle_bool speed 0); [apply keeps_refl|].
  destruct (Qeq_bool _ 0); [apply keeps_refl|].
  eapply keeps_store; [eassumption|reflexivity].
Qed.

Lemma keeps_addClass r c s w : keeps r w (addClass c s w).
Proof.
  unfold addClass. on_receiver w s. eapply keeps_store; [eassumption|reflexivity].
Qed.

Lemma keeps_setHandler r c cb s w : keeps r w (setHandler c cb s w).
Proof.
  unfold setHandler. on_receiver w s. eapply keeps_store; [eassumption|reflexivity].
Qed.

Lemma keeps_observe r el s w : s <> r -> keeps r w (observe el s w).
Proof.
  intros Hne. unfold observe. on_receiver w s. apply keeps_store_other, Hne.
Qed.

Lemma keeps_onCollisionTrigger r c cb s w :
  s <> r -> keeps r w (onCollisionTrigger c cb s w).
Proof.
  intros Hne. rewrite onCollisionTrigger_selected.
  eapply keeps_trans;
    [|apply keeps_foldl; intros w' el; unfold watch;
      destruct (Nat.eqb el s); [apply keeps_refl | apply keeps_observe, Hne]].
  eapply keeps_trans; [|apply keeps_setHandler]. apply keeps_addClass.
Qed.

Lemma keeps_setVariable r k v s w : keeps r w (setVariable k v s w).
Proof.
  unfold setVariable. on_receiver w s. eapply keeps_store; [eassumption|reflexivity].
Qed.

Lemma keeps_onDestroy r cb s w : keeps r w (onDestroy cb s w).
Proof.
  unfold onDestroy. on_receiver w s. eapply keeps_store; [eassumption|reflexivity].
Qed.

Lemma keeps_removeContainer r s w : keeps r w (removeContainer s w).
Proof.
  unfold removeContainer. on_receiver w s.
  eapply keeps_store; [eassumption|reflexivity].
Qed.

Lemma keeps_destroy r s w : s <> r -> keeps r w (destroy s w).
Proof.
  intros Hne. unfold destroy. on_receiver w s.
  set (w1 := match onDestroyCb o with
             | Some cb => emit (DestroyHook cb s) w
             | None => w
             end).
  eapply keeps_trans; [|apply keeps_removeContainer].
  apply (keeps_trans r w (disconnect s w1)); [|split; reflexivity].
  apply (keeps_trans r w w1).
  - unfold w1. destruct (onDestroyCb o); [apply keeps_emit; reflexivity | apply keeps_refl].
  - unfold disconnect. on_receiver w1 s. apply keeps_store_other, Hne.
Qed.

Lemma keeps_createObject r i w : keeps r w (snd (createObject i w)).
Proof.
  unfold createObject. destruct (objects w !! i) as [r0|]; simpl.
  - apply keeps_emit. reflexivity.
  - split; [|reflexivity]. unfold observedBy. simpl.
    destruct (heap w !! r) as [o|] eqn:E.
    + rewrite lookup_app_l by (eapply lookup_lt_Some, E). rewrite E. reflexivity.
    + apply lookup_ge_None in E.
      destruct (decide (r = length (heap w))) as [->|Hne].
      * rewrite lookup_app_r by lia. rewrite Nat.sub_diag. reflexivity.
      * rewrite lookup_ge_None_2; [reflexivity|]. rewrite length_app. simpl. lia.
Qed.

Lemma keeps_onEntry r s w entry : s <> r -> keeps r w (onEntry s w entry).
Proof.
  intros Hne. unfold onEntry.
  destruct (negb (snd entry)); [apply keeps_refl|].
  destruct (heap w !! fst entry) as [target|]; [|apply keeps_refl].
  apply keeps_foldl. intros w' cls. unfold onClass.
  destruct (heap w' !! s) as [o|]; [|apply keeps_refl].
  destruct (collisionHandlers o !! cls) as [handler|]; [|apply keeps_refl].
  destruct (getCanvasObject (id target) w') as [other|]; [|apply keeps_refl].
  apply keeps_emit. simpl. apply Nat.eqb_neq, Hne.
Qed.

(** An observer that observes nothing is told nothing. *)
Lemma intersectionChange_unobserved s entries w :
  observedBy s w = [] -> intersectionChange s entries w = w.
Proof.
  intros Ho. unfold intersectionChange.
  assert (List.filter (isObserved s w) entries = []) as ->; [|reflexivity].
  induction entries as [|e entries IH]; simpl; [reflexivity|].
  assert (isObserved s w e = false) as ->; [|exact IH].
  unfold isObserved, observedBy in *. destruct (heap w !! s); [|reflexivity].
  rewrite Ho. apply bool_decide_eq_false. apply not_elem_of_nil.
Qed.

Lemma keeps_intersectionChange r s entries w :
  observedBy r w = [] -> keeps r w (intersectionChange s entries w).
Proof.
  intros Ho. destruct (decide (s = r)) as [->|Hne].
  - rewrite intersectionChange_unobserved by exact Ho. apply keeps_refl.
  - unfold intersectionChange, observerCallback.
    apply keeps_foldl. intros. apply keeps_onEntry, Hne.
Qed.

Lemma keeps_run1 r w s :
  observedBy r w = [] -> receiver s <> Some r -> keeps r w (run1 w s).
Proof.
  intros Ho Hr.
  destruct s; simpl in *;
    try (assert (self <> r) by congruence).
  - apply keeps_createObject.
  - apply keeps_setPosition.
  - apply keeps_setMoveToPosition.
  - apply keeps_clearMovement.
  - apply keeps_addClass.
  - apply keeps_onCollisionTrigger; assumption.
  - apply keeps_setVariable.
  - apply keeps_onDestroy.
  - apply keeps_destroy; assumption.
  - apply keeps_loop.
  - apply keeps_intersectionChange, Ho.
  - split; reflexivity.
Qed.

Lemma keeps_run r steps :
  forall w, observedBy r w = [] ->
  Forall (fun s => receiver s <> Some r) steps ->
  keeps r w (run steps w).
Proof.
  induction steps as [|s steps IH]; intros w Ho Hall; simpl; [apply keeps_refl|].
  inversion Hall as [|? ? Hs Hrest]; subst.
  pose proof (keeps_run1 r w s Ho Hs) as Hk.
  eapply keeps_trans; [exact Hk|].
  apply IH; [|exact Hrest]. destruct Hk as [-> _]. exact Ho.
Qed.

Lemma destroy_disconnects r o w :
  heap w !! r = Some o -> observedBy r (destroy r w) = [].
Proof.
  intros E. unfold destroy. rewrite E.
  set (w1 := match onDestroyCb o with
             | Some cb => emit (DestroyHook cb r) w
             | None => w
             end).
  assert (heap w1 !! r = Some o) as E1 by (unfold w1; destruct (onDestroyCb o); exact E).
  unfold disconnect. rewrite E1.
  unfold removeContainer, unregisterObject. simpl.
  rewrite list_lookup_insert_eq by (eapply lookup_lt_Some, E1).
  unfold observedBy. simpl.
  rewrite list_lookup_insert_eq; [reflexivity|].
  rewrite length_insert. eapply lookup_lt_Some, E1.
Qed.

(** C2. After [destroy()] of an object whose identity is [id o], the
    registry lookup of that id is absent; and whatever happens afterwards
    (calls on other objects, creations, frame ticks, pointer moves and
    intersection reports to any observer, the destroyed object's included),
    as long as no method is called on the destroyed object itself, none of
    its collision handlers is invoked again. *)
Theorem destroy_unregisters_and_silences (w : Engine) (r : nat) (o : CanvasObject) :
  heap w !! r = Some o ->
  getCanvasObject (id o) (destroy r w) = None /\
  forall steps,
    Forall (fun s => receiver s <> Some r) steps ->
    handlerCallsOf r (trace (run steps (destroy r w))) =
    handlerCallsOf r (trace (destroy r w)).
Proof.
  intros E. split.
  - unfold destroy. rewrite E.
    unfold getCanvasObject, removeContainer, unregisterObject, disconnect.
    repeat (match goal with
            | |- context [match ?x with _ => _ end] => destruct x
            end; simpl); apply lookup_delete_eq.
  - intros steps Hall.
    apply (keeps_run r steps (destroy r w)); [|exact Hall].
    eapply destroy_disconnects, E.
Qed.
End Destruction.

(** Object "a" observes "b" and has a handler for "hit"; once "a" is
    destroyed, a report about "b" no longer reaches that handler. *)
Lemma destroy_unregisters_and_silences_witness :
  let w := Current.onCollisionTrigger "hit" "ha" 1 b_subscribed in
  Current.trace (Current.intersectionChange 1 [(2%nat, true)] w)
    = [Current.Collision "ha" 1 2] /\
  Current.getCanvasObject "a" (Current.destroy 1 w) = None /\
  Current.handlerCallsOf 1
    (Current.trace
       (Current.run [Current.IntersectionChange 1 [(2%nat, true)]; Current.Tick 16 16]
                    (Current.destroy 1 w)))
    = Current.handlerCallsOf 1 (Current.trace (Current.destroy 1 w)).
Proof.
  intros w.
  destruct (destroy_unregisters_and_silences w 1 _ eq_refl) as [Hn Hs].
  split; [vm_compute; reflexivity|].
  split; [exact Hn|].
  apply Hs. repeat constructor; discriminate.
Defined.

(** *** Collision subscriptions *)

Section Subscriptions.
Import Current.
Context {Sel : Selectors}.

Lemma classList_add_elem (c : string) (l : list string) : c ∈ classList_add c l.
Proof.
  unfold classList_add. case_bool_decide; [assumption|].
  apply elem_of_app. right. apply list_elem_of_singleton. reflexivity.
Qed.

Lemma hasClass_carriers (c : string) (w : Engine) (el : nat) :
  hasClass c w el = true -> In el (carriers c w).
Proof.
  intros Hc. unfold carriers. apply filter_In. split; [|exact Hc].
  apply in_seq. split; [lia|]. simpl.
  unfold hasClass in Hc. destruct (heap w !! el) eqn:E; [|discriminate].
  eapply lookup_lt_Some, E.
Qed.

Lemma watch_spec (self : nat) (w : Engine) (el : nat) (o : CanvasObject) :
  heap w !! self = Some o ->
  exists o', heap (watch self w el) !! self = Some o' /\
             (forall x, x ∈ observed o -> x ∈ observed o') /\
             (el <> self -> el ∈ observed o').
Proof.
  intros E. unfold watch. destruct (Nat.eqb_spec el self) as [->|Hne].
  - exists o. split; [exact E|]. split; [auto|congruence].
  - unfold observe. rewrite E. eexists. split; [eapply heap_store_eq, E|]. simpl.
    case_bool_decide as Hin.
    + split; auto.
    + split; [intros x Hx; apply elem_of_app; auto|].
      intros _. apply elem_of_app. right. apply list_elem_of_singleton. reflexivity.
Qed.

Lemma watch_all (self : nat) (els : list nat) :
  forall (w : Engine) (o : CanvasObject),
    heap w !! self = Some o ->
    exists o', heap (foldl (watch self) w els) !! self = Some o' /\
               (forall x, x ∈ observed o -> x ∈ observed o') /\
               (forall el, In el els -> el <> self -> el ∈ observed o').
Proof.
  induction els as [|e els IH]; intros w o E; simpl.
  - exists o. split; [exact E|]. split; [auto|]. intros el [].
  - destruct (watch_spec self w e o E) as (o1 & E1 & Hmono & Hnew).
    destruct (IH _ o1 E1) as (o2 & E2 & Hmono2 & Hall).
    exists o2. split; [exact E2|]. split; [auto|].
    intros el [->|Hin] Hne; auto.
Qed.

(** After [onCollisionTrigger(tag, cb)] the receiver carries [tag], holds
    [cb] for it, and, when [tag] is an identifier, observes every other
    element that carried [tag] in the document at that moment. *)
Lemma onCollisionTrigger_spec (w : Engine) (self : nat) (o : CanvasObject)
    (tag : string) (cb : callback) :
  heap w !! self = Some o ->
  exists o', heap (onCollisionTrigger tag cb self w) !! self = Some o' /\
    id o' = id o /\ attached o' = attached o /\
    classList o' = classList_add tag (classList o) /\
    collisionHandlers o' = <[tag := cb]> (collisionHandlers o) /\
    (identifier tag = true ->
     forall el, el <> self -> hasClass tag w el = true -> el ∈ observed o').
Proof.
  intros E. rewrite onCollisionTrigger_selected.
  set (w1 := setHandler tag cb self (addClass tag self w)).
  set (o1 := set_collisionHandlers (<[tag := cb]> (collisionHandlers o))
               (set_classList (classList_add tag (classList o)) o)).
  assert (heap w1 = <[self := o1]> (heap w)) as Hh.
  { unfold w1, addClass. rewrite E. unfold setHandler.
    rewrite (heap_store_eq w self o _ E). simpl. apply list_insert_insert_eq. }
  assert (heap w1 !! self = Some o1) as E1.
  { rewrite Hh. apply list_lookup_insert_eq. eapply lookup_lt_Some, E. }
  assert (forall el, el <> self -> hasClass tag w1 el = hasClass tag w el) as Hsame.
  { intros el Hne. unfold hasClass. rewrite Hh, list_lookup_insert_ne by congruence.
    reflexivity. }
  destruct (watch_all self (selected tag cb self w) w1 o1 E1) as (o2 & E2 & _ & Hall).
  exists o2. split; [exact E2|].
  assert (forall els w' o', heap w' !! self = Some o' ->
            exists o'', heap (foldl (watch self) w' els) !! self = Some o'' /\
              id o'' = id o' /\ attached o'' = attached o' /\
              classList o'' = classList o' /\
              collisionHandlers o'' = collisionHandlers o') as Hkeep.
  { clear. induction els as [|e els IH]; intros w' o' E'; simpl; [eauto 10|].
    unfold watch at 2. destruct (Nat.eqb e self); [apply IH, E'|].
    unfold observe. rewrite E'.
    edestruct IH as (o'' & E'' & ? & ? & ? & ?); [eapply heap_store_eq, E'|].
    exists o''. split; [exact E''|]. simpl in *. auto. }
  destruct (Hkeep (selected tag cb self w) w1 o1 E1) as (o3 & E3 & Hi & Ha & Hc & Hhd).
  rewrite E2 in E3. injection E3 as <-.
  repeat split; try assumption.
  intros Hid el Hne Hel. apply Hall; [|exact Hne].
  rewrite (selected_identifier tag cb self w Hid).
  apply hasClass_carriers. fold w1. rewrite Hsame by exact Hne. exact Hel.
Qed.

Lemma onCollisionTrigger_other (w : Engine) (self r : nat) (tag : string) (cb : callback) :
  self <> r ->
  heap (onCollisionTrigger tag cb self w) !! r = heap w !! r /\
  objects (onCollisionTrigger tag cb self w) = objects w /\
  trace (onCollisionTrigger tag cb self w) = trace w.
Proof.
  intros Hne. rewrite onCollisionTrigger_selected.
  set (w1 := setHandler tag cb self (addClass tag self w)).
  assert (heap w1 !! r = heap w !! r /\ objects w1 = objects w /\ trace w1 = trace w)
    as (H1 & H2 & H3).
  { unfold w1, setHandler, addClass.
    destruct (heap w !! self) as [o|] eqn:E.
    - rewrite (heap_store_eq w self o _ E). simpl.
      rewrite !list_lookup_insert_ne by exact Hne. auto.
    - rewrite E. auto. }
  rewrite <- H1, <- H2, <- H3.
  generalize (selected tag cb self w). generalize w1. clear - Hne.
  intros w l. revert w. induction l as [|e l IH]; intros w; simpl; [auto|].
  destruct (IH (watch self w e)) as (-> & -> & ->).
  unfold watch. destruct (Nat.eqb e self); [auto|].
  unfold observe. destruct (heap w !! self); [|auto]. simpl.
  rewrite list_lookup_insert_ne by exact Hne. auto.
Qed.
End Subscriptions.

Section Notifications.
Import Current.
Context {Sel : Selectors}.

Lemma onlyCalls_refl self w : onlyCalls self w w.
Proof.
  split; [reflexivity|]. split; [reflexivity|].
  exists []. split; [symmetry; apply app_nil_r | constructor].
Qed.

Lemma onlyCalls_trans self w1 w2 w3 :
  onlyCalls self w1 w2 -> onlyCalls self w2 w3 -> onlyCalls self w1 w3.
Proof.
  intros (A1 & B1 & c1 & T1 & F1) (A2 & B2 & c2 & T2 & F2).
  split; [congruence|]. split; [congruence|].
  exists (c1 ++ c2). split.
  - rewrite T2, T1. symmetry. apply app_assoc.
  - apply Forall_app. split; assumption.
Qed.

Lemma onlyCalls_foldl {A} self (f : Engine -> A -> Engine) (l : list A) :
  (forall w a, onlyCalls self w (f w a)) -> forall w, onlyCalls self w (foldl f w l).
Proof.
  intros Hf. induction l as [|a l IH]; intros w; simpl; [apply onlyCalls_refl|].
  eapply onlyCalls_trans; [apply Hf | apply IH].
Qed.

Lemma onClass_onlyCalls self target w cls : onlyCalls self w (onClass self target w cls).
Proof.
  unfold onClass.
  destruct (heap w !! self) as [o|]; [|apply onlyCalls_refl].
  destruct (collisionHandlers o !! cls) as [handler|]; [|apply onlyCalls_refl].
  destruct (getCanvasObject (id target) w) as [other|]; [|apply onlyCalls_refl].
  split; [reflexivity|]. split; [reflexivity|].
  eexists. split; [reflexivity|]. constructor; [eauto|constructor].
Qed.

Lemma onEntry_onlyCalls self w entry : onlyCalls self w (onEntry self w entry).
Proof.
  unfold onEntry. destruct (negb (snd entry)); [apply onlyCalls_refl|].
  destruct (heap w !! fst entry) as [target|]; [|apply onlyCalls_refl].
  apply onlyCalls_foldl. intros. apply onClass_onlyCalls.
Qed.

Lemma intersectionChange_onlyCalls self entries w :
  onlyCalls self w (intersectionChange self entries w).
Proof.
  unfold intersectionChange, observerCallback.
  apply onlyCalls_foldl. intros. apply onEntry_onlyCalls.
Qed.

Lemma onlyCalls_In self w w' e : onlyCalls self w w' -> In e (trace w) -> In e (trace w').
Proof.
  intros (_ & _ & calls & -> & _) Hin. apply in_or_app. left. exact Hin.
Qed.

(** An intersecting entry for an observed, registered element that carries
    a class the receiver has a handler for makes that handler run with
    (receiver, element's object). *)
Lemma intersectionChange_invokes (w : Engine) (self el : nat) (o t : CanvasObject)
    (tag : string) (cb : callback) :
  heap w !! self = Some o ->
  heap w !! el = Some t ->
  el ∈ observed o ->
  tag ∈ classList t ->
  collisionHandlers o !! tag = Some cb ->
  objects w !! id t = Some el ->
  In (Collision cb self el) (trace (intersectionChange self [(el, true)] w)).
Proof.
  intros Eo Et Hobs Htag Hcb Hreg.
  unfold intersectionChange. simpl.
  assert (isObserved self w (el, true) = true) as ->.
  { unfold isObserved. rewrite Eo. apply bool_decide_eq_true. exact Hobs. }
  unfold observerCallback. simpl. unfold onEntry. simpl. rewrite Et.
  apply list_elem_of_split in Htag as (l1 & l2 & ->).
  rewrite foldl_app. simpl.
  set (w1 := foldl (onClass self t) w l1).
  assert (onlyCalls self w w1) as (Hh & Hob & _).
  { apply onlyCalls_foldl. intros. apply onClass_onlyCalls. }
  eapply onlyCalls_In.
  { apply onlyCalls_foldl. intros. apply onClass_onlyCalls. }
  unfold onClass at 1. unfold getCanvasObject. rewrite Hh, Hob, Eo, Hcb, Hreg.
  simpl. apply in_or_app. right. left. reflexivity.
Qed.
End Notifications.

(** *** Adopting the tag on subscription *)

Section Adoption.
Import Current.
Context {Sel : Selectors}.

(** "b" subscribed to "hit" before "a" did: what each of them observes
    once "a" has subscribed too. *)
Lemma late_subscription_observers :
  let w := onCollisionTrigger "hit" "ha" 1 b_subscribed in
  observedBy 1 w = [2%nat] /\ observedBy 2 w = [].
Proof.
  unfold b_subscribed. rewrite !onCollisionTrigger_identifier by reflexivity.
  vm_compute. auto.
Qed.

(** C8, at the failing input.  "b" subscribed to "hit" before "a" did.
    After "a" subscribes both carry the tag and both hold a handler for it,
    and "a" observes "b": a report that they intersect runs "a"'s handler
    with ("a", "b").  But "b" observes nothing, so no report about "a" ever
    reaches "b"'s handler: [onCollisionTrigger] points the observer at the
    elements that carry the tag when it is called, and nothing points it at
    elements that take the tag later. *)
Theorem earlier_subscriber_does_not_observe :
  let w := onCollisionTrigger "hit" "ha" 1 b_subscribed in
  classListOf 1 w = ["hit"] /\ classListOf 2 w = ["hit"] /\
  handlerOf 1 "hit" w = Some "ha" /\ handlerOf 2 "hit" w = Some "hb" /\
  observedBy 1 w = [2%nat] /\ observedBy 2 w = [] /\
  trace (intersectionChange 1 [(2%nat, true)] w) = [Collision "ha" 1 2] /\
  trace (intersectionChange 2 [(1%nat, true)] w) = [].
Proof.
  unfold b_subscribed. rewrite !onCollisionTrigger_identifier by reflexivity.
  vm_compute. repeat split; reflexivity.
Qed.

(** The claim as stated fails with it. *)
Lemma adoption_is_one_sided : ~ adoption_makes_detection_symmetric.
Proof.
  intros Hc. pose proof late_subscription_observers as [_ E]. cbv zeta in E.
  assert (heap b_subscribed !! 1%nat = Some (new_CanvasObject "a" false)) as E1.
  { unfold b_subscribed. rewrite onCollisionTrigger_identifier by reflexivity.
    vm_compute. reflexivity. }
  assert (exists ob, heap b_subscribed !! 2%nat = Some ob /\ attached ob = true /\
                     collisionHandlers ob !! "hit" = Some "hb") as (ob & E2 & Ha & Hh).
  { unfold b_subscribed. rewrite onCollisionTrigger_identifier by reflexivity.
    eexists. split; [vm_compute; reflexivity|]. split; vm_compute; reflexivity. }
  destruct (Hc b_subscribed 1%nat 2%nat _ ob "hit" "ha" "hb" E1 E2) as [_ Hin];
    try assumption; try reflexivity; [lia|].
  rewrite E in Hin. apply elem_of_nil in Hin. exact Hin.
Qed.

(** X19. [onCollisionTrigger(tag, cb)] for a tag that is an identifier
    adds [tag] to the receiver's own class list, records [cb] for it and
    makes the receiver observe every other element that carries [tag] in
    the document at that moment.  An object that subscribes to [tag]
    afterwards therefore observes the receiver, and an intersecting report
    for the receiver (registered under its id) runs that object's handler
    with (that object, receiver).  Every invocation made by an observer
    callback has the callback's owner as first argument and changes nothing
    but the trace. *)
Theorem onCollisionTrigger_adopts_tag (w : Engine) (self : nat) (o : CanvasObject)
    (tag : string) (cb : callback) :
  heap w !! self = Some o ->
  identifier tag = true ->
  let w1 := onCollisionTrigger tag cb self w in
  tag ∈ classListOf self w1 /\
  handlerOf self tag w1 = Some cb /\
  (forall el, el <> self -> hasClass tag w el = true -> el ∈ observedBy self w1) /\
  (forall s os hs,
     s <> self -> heap w1 !! s = Some os -> attached o = true ->
     let w2 := onCollisionTrigger tag hs s w1 in
     self ∈ observedBy s w2 /\
     (objects w !! id o = Some self ->
      In (Collision hs s self) (trace (intersectionChange s [(self, true)] w2)))) /\
  (forall s entries w', onlyCalls s w' (intersectionChange s entries w')).
Proof.
  intros E Hident w1.
  destruct (onCollisionTrigger_spec w self o tag cb E)
    as (o1 & E1 & Hid & Hatt & Hcl & Hh & Hobs).
  specialize (Hobs Hident).
  fold w1 in E1.
  split; [unfold classListOf; rewrite E1, Hcl; apply classList_add_elem|].
  split; [unfold handlerOf; rewrite E1; simpl; rewrite Hh; apply lookup_insert_eq|].
  split; [intros el Hne Hel; unfold observedBy; rewrite E1; auto|].
  split; [|intros; apply intersectionChange_onlyCalls].
  intros s os hs Hne Es Ha w2.
  destruct (onCollisionTrigger_spec w1 s os tag hs Es)
    as (os2 & Es2 & _ & _ & _ & Hh2 & Hobs2).
  specialize (Hobs2 Hident).
  fold w2 in Es2.
  assert (hasClass tag w1 self = true) as Hself.
  { unfold hasClass. rewrite E1, Hatt, Ha, Hcl. simpl.
    apply bool_decide_eq_true, classList_add_elem. }
  assert (self ∈ observed os2) as Hin by (apply Hobs2; [congruence | exact Hself]).
  split; [unfold observedBy; rewrite Es2; exact Hin|].
  intros Hreg.
  destruct (onCollisionTrigger_other w1 s self tag hs Hne) as (Hk & Hobj2 & _).
  fold w2 in Hk, Hobj2.
  assert (objects w1 = objects w) as Hobj1.
  { destruct (onCollisionTrigger_other w self (S self) tag cb) as (_ & Ho1 & _); [lia|].
    exact Ho1. }
  apply (intersectionChange_invokes w2 s self os2 o1 tag hs).
  - exact Es2.
  - rewrite Hk. exact E1.
  - exact Hin.
  - rewrite Hcl. apply classList_add_elem.
  - rewrite Hh2. apply lookup_insert_eq.
  - rewrite Hobj2, Hobj1, Hid. exact Hreg.
Qed.
End Adoption.

(** "a" subscribes to "hit", then "b" does: "b" observes "a", and a report
    that "a" intersects runs "b"'s handler with ("b", "a"). *)
Lemma onCollisionTrigger_adopts_tag_witness :
  let w1 := Current.onCollisionTrigger "hit" "ha" 1 a_and_b in
  let w2 := Current.onCollisionTrigger "hit" "hb" 2 w1 in
  "hit" ∈ classListOf 1 w1 /\
  handlerOf 1 "hit" w1 = Some "ha" /\
  1%nat ∈ Current.observedBy 2 w2 /\
  In (Current.Collision "hb" 2 1)
     (Current.trace (Current.intersectionChange 2 [(1%nat, true)] w2)).
Proof.
  intros w1 w2.
  pose proof (onCollisionTrigger_adopts_tag a_and_b 1
                (Current.new_CanvasObject "a" false) "hit" "ha" eq_refl eq_refl)
    as (Ht & Hh & _ & Hlater & _).
  destruct (Hlater 2%nat (Current.new_CanvasObject "b" false) "hb") as [Hobs Hcall].
  - discriminate.
  - reflexivity.
  - reflexivity.
  - split; [exact Ht|]. split; [exact Hh|]. split; [exact Hobs|].
    apply Hcall. reflexivity.
Defined.

(** *** The pointer position *)


Example pointer_at_centre_current :
  let w := Current.mousemove 0 0 400 300 (Current.setPosition 10 0 0 fresh_engine) in
  Current.getPosition (Current.getCameraObject w) w = Some (mkPoint 10 0) /\
  Current.getMousePosition w = mkPoint (400 - 0) (300 - 0).
Proof. vm_compute. auto. Qed.



(** Scenario 4 on the earlier revision: camera at (10, 0), pointer at the
    centre of an 800 x 600 canvas. *)
Example pointer_at_centre_raf :
  let w := Raf.setPosition (fun _ => mkRect 0 0 0 0) 10 0 0
             (Raf.constructor "cam" (fun _ => "r")) in
  let p := Raf.getMousePosition w (Some (mkRect 0 0 800 600)) 400 300 in
  Qeq_bool (px p) 10 && Qeq_bool (py p) 0 = true.
Proof. vm_compute. reflexivity. Qed.

(** *** The variable store *)




(** ** The synchronous sweep (src/lib) *)

Section Sweep.
Import Lib.
Context {F : HostFunctions}.

Lemma visit_all (rectOf : nat -> DOMRect) (key : string) (self : nat) (els : list nat) :
  forall w,
    heap (foldl (visit rectOf key self) w els) = heap w /\
    canvasObjects (foldl (visit rectOf key self) w els) = canvasObjects w /\
    canvasProto (foldl (visit rectOf key self) w els) = canvasProto w /\
    canvasAttached (foldl (visit rectOf key self) w els) = canvasAttached w /\
    trace (foldl (visit rectOf key self) w els)
      = trace w ++ flat_map (callFor rectOf key self w) els.
Proof.
  induction els as [|el els IH]; intros w; simpl.
  - rewrite app_nil_r. auto.
  - destruct (IH (visit rectOf key self w el)) as (Hh & Ho & Hp & Ha & Ht).
    assert (heap (visit rectOf key self w el) = heap w /\
            canvasObjects (visit rectOf key self w el) = canvasObjects w /\
            canvasProto (visit rectOf key self w el) = canvasProto w /\
            canvasAttached (visit rectOf key self w el) = canvasAttached w /\
            trace (visit rectOf key self w el) = trace w ++ callFor rectOf key self w el)
      as (Hh1 & Ho1 & Hp1 & Ha1 & Ht1).
    { unfold visit, callFor. destruct (withinReach _ _).
      - destruct (heap w !! el); [destruct (trigger key self w)|];
          simpl; rewrite ?app_nil_r; auto.
      - rewrite app_nil_r. auto. }
    rewrite Hh, Ho, Hp, Ha, Ht, Hh1, Ho1, Hp1, Ha1, Ht1.
    repeat split; try reflexivity.
    rewrite <- app_assoc. f_equal. f_equal.
    apply flat_map_ext. intros x. unfold callFor, getCanvasObject, trigger.
    rewrite Hh1, Ho1, Hp1. reflexivity.
Qed.

(** What the sweep does for one subscribed key: it walks the elements that
    carry the key, in document order, and invokes the key's handler for
    those that pass [withinReach], a comparison of the rectangles'
    corners. *)
Lemma sweepKey_trace (rectOf : nat -> DOMRect) (self : nat) (w : Engine) (key : string) :
  trace (sweepKey rectOf self w key)
    = trace w ++ flat_map (callFor rectOf key self w) (getElementsByClassName key w).
Proof. unfold sweepKey. apply visit_all. Qed.
End Sweep.

(** For rectangles of equal size the corner test and the centre test
    agree. *)
Lemma withinReach_equal_sizes (a b : DOMRect) :
  rwidth a == rwidth b -> rheight a == rheight b ->
  withinReach a b = centresOverlap a b.
Proof.
  intros Hw Hh. unfold withinReach, centresOverlap, centerX, centerY.
  assert (forall p q r : Q, p == q -> Qle_bool (Qabs p) r = Qle_bool (Qabs q) r) as Hcongr.
  { intros p q r E. apply eq_true_iff_eq. rewrite !Qle_bool_iff, E. reflexivity. }
  f_equal; apply Hcongr.
  - rewrite Hw. ring.
  - rewrite Hh. ring.
Qed.

Section EarlierSweeps.
Context {F : HostFunctions}.

(** C6, at the failing input.  "b" carries the tag and its rectangle
    overlaps "a"'s (their centres are 4 apart, within (10 + 2) / 2), yet
    [a.setPosition(0, 0)] does not invoke the handler for "b": the sweep
    compares the corners, which are 8 apart.  The only invocation is for
    "a" itself. *)
Theorem sweep_compares_corners_not_centres :
  Lib.getElementsByClassName "hit" scene_ab = [1%nat; 2%nat] /\
  centresOverlap (layout_ab 1) (layout_ab 2) = true /\
  withinReach (layout_ab 1) (layout_ab 2) = false /\
  Lib.trace (Lib.setPosition layout_ab 0 0 1 scene_ab)
    = [Lib.Collision "h" 1 (Some (Filed 1))].
Proof. vm_compute. auto. Qed.

(** The converse failure: a 2 x 2 object and a 10 x 10 object whose
    rectangles are disjoint (centres 9 apart horizontally) but whose corners
    are 5 apart. *)
Example corners_within_reach_without_overlap :
  let a := mkRect 0 0 2 2 in
  let b := mkRect 5 (-4) 10 10 in
  withinReach a b = true /\ centresOverlap a b = false.
Proof. vm_compute. auto. Qed.

(** ** The earlier revisions against the properties of the current one *)

(** src/lib [createObject]: a duplicate id is reported, but a new object is
    constructed, returned and put in the old one's place. *)
Lemma lib_createObject_replaces (w : Lib.Engine) (i : string) (r : nat) :
  Lib.canvasObjects w !! i = Some r ->
  i <> "__proto__" ->
  fst (Lib.createObject i w) = length (Lib.heap w) /\
  Lib.heap (snd (Lib.createObject i w)) = Lib.heap w ++ [Lib.new_CanvasObject i false] /\
  Lib.getCanvasObject i (snd (Lib.createObject i w))
    = Some (Filed (length (Lib.heap w))) /\
  Lib.trace (snd (Lib.createObject i w)) = Lib.trace w ++ [Lib.AlertDuplicate i].
Proof.
  intros E Hne. unfold Lib.createObject, Lib.getCanvasObject, readProperty, writeProperty.
  cbn -[lookup insert String.eqb]. rewrite E.
  destruct (String.eqb_spec i "__proto__") as [Hi|_]; [contradiction|].
  cbn -[lookup insert]. rewrite lookup_insert_eq. auto.
Qed.

(** src/lib [destroy]: only the container is removed; the registry still
    answers with the object. *)
Lemma lib_destroy_keeps_registry (w : Lib.Engine) (self : nat) (i : string) :
  Lib.getCanvasObject i (Lib.destroy self w) = Lib.getCanvasObject i w.
Proof.
  unfold Lib.destroy. destruct (Lib.heap w !! self); reflexivity.
Qed.

(** src/lib [onCollisionTrigger]: the handler is recorded, the class list is
    left alone. *)
Lemma lib_onCollisionTrigger_keeps_classes (w : Lib.Engine) (self : nat)
    (o : Lib.CanvasObject) (tag : string) (cb : callback) :
  Lib.heap w !! self = Some o ->
  Lib.classList <$> Lib.heap (Lib.onCollisionTrigger tag cb self w) !! self
    = Some (Lib.classList o).
Proof.
  intros E. unfold Lib.onCollisionTrigger. rewrite E. cbv zeta. simpl.
  rewrite list_lookup_insert_eq by (eapply lookup_lt_Some, E). reflexivity.
Qed.

(** ** Unresolved matches *)

(** C7, at the failing input.  The sweep of [a.setPosition(0, 0)] matches the
    camera's element, whose id is not in the registry.  Nothing is reported:
    a new object is constructed and registered under the random name, and
    the handler is invoked with that object as [other]. *)
Theorem sweep_fabricates_placeholder :
  Raf.getElementsByClassName "hit" scene_camera_tagged = [0%nat] /\
  Raf.getCanvasObject "cam" scene_camera_tagged = None /\
  Raf.getCanvasObject "0.42" scene_camera_tagged = None /\
  length (Raf.heap scene_camera_tagged) = 2%nat /\
  let w := Raf.setPosition layout_camera 0 0 1 scene_camera_tagged in
  Raf.trace w = [Raf.Collision "h" 1 (Filed 2)] /\
  length (Raf.heap w) = 3%nat /\
  Raf.id <$> Raf.heap w !! 2%nat = Some "0.42" /\
  Raf.getCanvasObject "0.42" w = Some (Filed 2).
Proof. vm_compute. repeat split; reflexivity. Qed.

(** The same sweep falls back on [createObject] for an id with a space in
    it, since only the part before the space is looked up. *)
Example sweep_fabricates_for_spaced_id :
  let w0 := Raf.constructor "cam" (fun _ => "0.42") in
  let w1 := snd (Raf.createObject "a" w0) in
  let w2 := Raf.addClass "hit" 2 (snd (Raf.createObject "big boss" w1)) in
  let w3 := Raf.onCollisionTrigger "hit" "h" 1 w2 in
  let w := Raf.setPosition (fun _ => mkRect 395 295 10 10) 0 0 1 w3 in
  Raf.getCanvasObject "big boss" w3 = Some (Filed 2) /\
  Raf.trace w = [Raf.Collision "h" 1 (Filed 3)] /\
  Raf.getCanvasObject "0.42" w = Some (Filed 3).
Proof. vm_compute. auto. Qed.

(** src/lib on the same scene hands [null] to the handler and leaves the
    registry alone. *)
Example lib_sweep_passes_null :
  let w0 := Lib.constructor "cam" in
  let w1 := snd (Lib.createObject "a" w0) in
  let w2 := Lib.onCollisionTrigger "hit" "h" 1 (Lib.addClass "hit" 0 w1) in
  let w := Lib.setPosition layout_camera 0 0 1 w2 in
  Lib.trace w = [Lib.Collision "h" 1 None] /\
  Lib.canvasObjects w = Lib.canvasObjects w2 /\
  length (Lib.heap w) = 2%nat.
Proof. vm_compute. auto. Qed.

(** The current revision drops the match: the handler is not invoked and
    nothing is recorded. *)
Example current_callback_drops_unresolved :
  let w1 := snd (Current.createObject "a" fresh_engine) in
  let w2 := Current.onCollisionTrigger "hit" "h" 1 (Current.addClass "hit" 0 w1) in
  Current.observedBy 1 w2 = [0%nat] /\
  Current.intersectionChange 1 [(0%nat, true)] w2 = w2.
Proof. vm_compute. auto. Qed.

(** ** Movement in the requestAnimationFrame revision *)

(** There a negative speed is not ignored: the movement record is written
    and the first run of [loop] puts the object on the target. *)
Example raf_negative_speed_jumps :
  let w := Raf.setMoveToPosition no_layout 3 4 (-1) 0 0 1 raf_with_p in
  Raf.getPosition 1 w = mkPoint 3 4 /\
  Raf.targetX <$> Raf.getMoveToPosition 1 w = Some 3.
Proof. vm_compute. auto. Qed.

(** There [setPosition] leaves the movement and its pending frame in place,
    and the next frame moves the object back onto the segment. *)
Example raf_setPosition_keeps_moving :
  let w1 := Raf.setMoveToPosition no_layout 100 0 50 0 0 1 raf_with_p in
  let w2 := Raf.setPosition no_layout 7 7 1 w1 in
  let w3 := Raf.animationFrame no_layout 1000 1 w2 in
  Raf.getPosition 1 w2 = mkPoint 7 7 /\
  Raf.frames w2 = Raf.frames w1 /\
  (fst <$> Raf.frames w2) = [1%Z] /\
  at_point 50 0 (Raf.getPosition 1 w3) = true.
Proof. vm_compute. auto. Qed.

(** There the arrival test is strict, and the record is never cleared: with
    a duration of 2 s, the frame at 2000 ms interpolates (onto the target)
    and asks for another frame; the frame at 2001 ms sets the target and
    stops asking, with [#moveToPosition] still set. *)
Example raf_arrival :
  let w1 := Raf.setMoveToPosition no_layout 100 0 50 0 0 1 raf_with_p in
  let w2 := Raf.animationFrame no_layout 2000 1 w1 in
  let w3 := Raf.animationFrame no_layout 2001 2 w2 in
  at_point 100 0 (Raf.getPosition 1 w2) = true /\
  (fst <$> Raf.frames w2) = [2%Z] /\
  Raf.getPosition 1 w3 = mkPoint 100 0 /\
  Raf.frames w3 = [] /\
  Raf.targetX <$> Raf.getMoveToPosition 1 w3 = Some 100.
Proof. vm_compute. auto. Qed.

(** The sweep of this revision applies the same corner test. *)
Example raf_sweep_compares_corners :
  let w0 := Raf.constructor "cam" (fun _ => "0.42") in
  let w1 := snd (Raf.createObject "b" (snd (Raf.createObject "a" w0))) in
  let w2 := Raf.addClass "hit" 2 (Raf.addClass "hit" 1 w1) in
  let w3 := Raf.onCollisionTrigger "hit" "h" 1 w2 in
  Raf.trace (Raf.setPosition layout_ab 0 0 1 w3) = [Raf.Collision "h" 1 (Filed 1)].
Proof. vm_compute. auto. Qed.
End EarlierSweeps.

(** * Further properties of the current revision *)

(** ** Identity and the registry *)

Section Invariants.
Import Current.
Context {H : Hypot} {Sel : Selectors}.

Lemma quiet_refl w : quiet w w.
Proof. repeat split; eauto. Qed.

Lemma quiet_trans w1 w2 w3 : quiet w1 w2 -> quiet w2 w3 -> quiet w1 w3.
Proof.
  intros (C1 & O1 & L1 & H1) (C2 & O2 & L2 & H2).
  repeat split; try congruence.
  intros r o E. destruct (H1 r o E) as (o1 & E1 & ? & ? & ?).
  destruct (H2 r o1 E1) as (o2 & E2 & ? & ? & ?).
  exists o2. repeat split; congruence.
Qed.

Lemma quiet_store s o o' w :
  heap w !! s = Some o ->
  id o' = id o -> isCamera o' = isCamera o -> attached o' = attached o ->
  quiet w (store s o' w).
Proof.
  intros E Hi Hc Ha. repeat split; simpl.
  - apply length_insert.
  - intros r o0 E0. destruct (decide (s = r)) as [->|Hne].
    + rewrite list_lookup_insert_eq by (eapply lookup_lt_Some, E).
      exists o'. split; [reflexivity|]. rewrite E in E0. injection E0 as <-. auto.
    + rewrite list_lookup_insert_ne by exact Hne. eauto.
Qed.

Lemma quiet_foldl {A} (f : Engine -> A -> Engine) (l : list A) :
  (forall w a, quiet w (f w a)) -> forall w, quiet w (foldl f w l).
Proof.
  intros Hf. induction l as [|a l IH]; intros w; simpl; [apply quiet_refl|].
  eapply quiet_trans; [apply Hf | apply IH].
Qed.

Ltac quiet_method :=
  match goal with
  | |- quiet ?w (match heap ?w !! ?s with _ => _ end) =>
      let E := fresh "E" in
      destruct (heap w !! s) as [?o|] eqn:E; [|apply quiet_refl]
  end.

Lemma quiet_applyPosition x y s w : quiet w (applyPosition x y s w).
Proof.
  unfold applyPosition. quiet_method. destruct (isCamera o) eqn:Hc.
  - apply (quiet_trans w (store s (set_pos (mkPoint x y) o) w)).
    + eapply quiet_store; [eassumption|reflexivity..].
    + repeat split; eauto.
  - eapply quiet_store; [eassumption|reflexivity..].
Qed.

Lemma quiet_clearMovement s w : quiet w (clearMovement s w).
Proof.
  unfold clearMovement. quiet_method. eapply quiet_store; [eassumption|reflexivity..].
Qed.

Lemma quiet_setPosition x y s w : quiet w (setPosition x y s w).
Proof.
  unfold setPosition. quiet_method.
  eapply quiet_trans; [|apply quiet_applyPosition].
  eapply quiet_store; [eassumption|reflexivity..].
Qed.

Lemma quiet_update now s w : quiet w (update now s w).
Proof.
  unfold update. quiet_method.
  destruct (movement o) as [m|]; [|apply quiet_refl].
  destruct (Qle_bool _ _).
  - eapply quiet_trans; [|apply quiet_clearMovement]. apply quiet_setPosition.
  - apply quiet_applyPosition.
Qed.

Lemma quiet_loop time now w : quiet w (loop time now w).
Proof.
  unfold loop. eapply quiet_trans; [|apply quiet_foldl; intros; apply quiet_update].
  repeat split; eauto.
Qed.

Lemma quiet_setMoveToPosition x y speed now s w :
  quiet w (setMoveToPosition x y speed now s w).
Proof.
  unfold setMoveToPosition. quiet_method.
  destruct (Qle_bool speed 0); [apply quiet_refl|].
  destruct (Qeq_bool _ 0); [apply quiet_refl|].
  eapply quiet_store; [eassumption|reflexivity..].
Qed.

Lemma quiet_addClass c s w : quiet w (addClass c s w).
Proof.
  unfold addClass. quiet_method. eapply quiet_store; [eassumption|reflexivity..].
Qed.

Lemma quiet_setHandler c cb s w : quiet w (setHandler c cb s w).
Proof.
  unfold setHandler. quiet_method. eapply quiet_store; [eassumption|reflexivity..].
Qed.

Lemma quiet_observe el s w : quiet w (observe el s w).
Proof.
  unfold observe. quiet_method. eapply quiet_store; [eassumption|reflexivity..].
Qed.

Lemma quiet_onCollisionTrigger c cb s w : quiet w (onCollisionTrigger c cb s w).
Proof.
  rewrite onCollisionTrigger_selected.
  eapply quiet_trans;
    [|apply quiet_foldl; intros w' el; unfold watch;
      destruct (Nat.eqb el s); [apply quiet_refl | apply quiet_observe]].
  eapply quiet_trans; [|apply quiet_setHandler]. apply quiet_addClass.
Qed.

Lemma quiet_setVariable k v s w : quiet w (setVariable k v s w).
Proof.
  unfold setVariable. quiet_method. eapply quiet_store; [eassumption|reflexivity..].
Qed.

Lemma quiet_onDestroy cb s w : quiet w (onDestroy cb s w).
Proof.
  unfold onDestroy. quiet_method. eapply quiet_store; [eassumption|reflexivity..].
Qed.

Lemma quiet_disconnect s w : quiet w (disconnect s w).
Proof.
  unfold disconnect. quiet_method. eapply quiet_store; [eassumption|reflexivity..].
Qed.

Lemma quiet_emit e w : quiet w (emit e w).
Proof. repeat split; eauto. Qed.

Lemma quiet_intersectionChange s entries w : quiet w (intersectionChange s entries w).
Proof.
  unfold intersectionChange, observerCallback. apply quiet_foldl. intros w' entry.
  unfold onEntry. destruct (negb (snd entry)); [apply quiet_refl|].
  destruct (heap w' !! fst entry) as [target|]; [|apply quiet_refl].
  apply quiet_foldl. intros w'' cls. unfold onClass.
  destruct (heap w'' !! s) as [o|]; [|apply quiet_refl].
  destruct (collisionHandlers o !! cls); [|apply quiet_refl].
  destruct (getCanvasObject (id target) w''); [apply quiet_emit | apply quiet_refl].
Qed.

Lemma quiet_persists w w' : quiet w w' -> persists w w'.
Proof.
  intros (C & _ & _ & Hq). split; [exact C|].
  intros r o E. destruct (Hq r o E) as (o' & ? & ? & ? & ?). eauto.
Qed.

Lemma persists_trans w1 w2 w3 : persists w1 w2 -> persists w2 w3 -> persists w1 w3.
Proof.
  intros (C1 & H1) (C2 & H2). split; [congruence|].
  intros r o E. destruct (H1 r o E) as (o1 & E1 & ? & ?).
  destruct (H2 r o1 E1) as (o2 & E2 & ? & ?).
  exists o2. repeat split; congruence.
Qed.

Lemma consistent_quiet w w' : consistent w -> quiet w w' -> consistent w'.
Proof.
  intros ((c & Ec & Hc) & Huniq & Hreg) (C & O & L & Hq).
  split; [|split].
  - destruct (Hq _ _ Ec) as (c' & Ec' & _ & Hc' & _).
    exists c'. rewrite C. split; congruence.
  - intros r o' E' Hcam. rewrite C.
    assert (r < length (heap w))%nat as Hlt by (rewrite <- L; eapply lookup_lt_Some, E').
    destruct (lookup_lt_is_Some_2 _ _ Hlt) as [o E].
    destruct (Hq r o E) as (o'' & E'' & _ & Hc'' & _).
    apply (Huniq r o E). congruence.
  - intros i r Hi. rewrite O in Hi.
    destruct (Hreg i r Hi) as (o & E & ? & ? & ?).
    destruct (Hq r o E) as (o' & E' & ? & ? & ?).
    exists o'. repeat split; congruence.
Qed.

Lemma quiet_destroy_prefix s o w :
  heap w !! s = Some o ->
  quiet w (disconnect s match onDestroyCb o with
                        | Some cb => emit (DestroyHook cb s) w
                        | None => w
                        end).
Proof.
  intros E. eapply quiet_trans; [|apply quiet_disconnect].
  destruct (onDestroyCb o); [apply quiet_emit | apply quiet_refl].
Qed.

Lemma persists_destroy s w : persists w (destroy s w).
Proof.
  unfold destroy. destruct (heap w !! s) as [o|] eqn:E;
    [|apply quiet_persists, quiet_refl].
  eapply persists_trans; [apply quiet_persists, (quiet_destroy_prefix s o w E)|].
  set (w1 := disconnect s _).
  unfold removeContainer. simpl.
  destruct (heap w1 !! s) as [o1|] eqn:E1; simpl.
  - split; [reflexivity|]. intros r o0 E0. simpl.
    destruct (decide (s = r)) as [->|Hne].
    + rewrite list_lookup_insert_eq by (eapply lookup_lt_Some, E1).
      rewrite E1 in E0. injection E0 as <-. eexists. split; [reflexivity|]. auto.
    + rewrite list_lookup_insert_ne by exact Hne. eauto.
  - split; [reflexivity|]. eauto.
Qed.

Lemma persists_createObject i w : persists w (snd (createObject i w)).
Proof.
  unfold createObject. destruct (objects w !! i); simpl.
  - apply quiet_persists, quiet_emit.
  - split; [reflexivity|]. intros r o E. simpl.
    rewrite lookup_app_l by (eapply lookup_lt_Some, E). eauto.
Qed.

Lemma quiet_run1 w s :
  match s with CreateObject _ | Destroy _ => True | _ => quiet w (run1 w s) end.
Proof.
  destruct s; simpl; try exact I.
  - apply quiet_setPosition.
  - apply quiet_setMoveToPosition.
  - apply quiet_clearMovement.
  - apply quiet_addClass.
  - apply quiet_onCollisionTrigger.
  - apply quiet_setVariable.
  - apply quiet_onDestroy.
  - apply quiet_loop.
  - apply quiet_intersectionChange.
  - repeat split; eauto.
Qed.

Lemma persists_run1 w s : persists w (run1 w s).
Proof.
  pose proof (quiet_run1 w s) as Hq.
  destruct s; try (apply quiet_persists; exact Hq).
  - apply persists_createObject.
  - apply persists_destroy.
Qed.

Lemma consistent_createObject i w : consistent w -> consistent (snd (createObject i w)).
Proof.
  intros Hw. unfold createObject. destruct (objects w !! i) as [r0|] eqn:Ei; simpl.
  - eapply consistent_quiet; [exact Hw | apply quiet_emit].
  - destruct Hw as ((c & Ec & Hc) & Huniq & Hreg). split; [|split]; simpl.
    + exists c. rewrite lookup_app_l by (eapply lookup_lt_Some, Ec). auto.
    + intros r o E Hcam.
      destruct (decide (r < length (heap w))%nat) as [Hlt|Hge].
      * rewrite lookup_app_l in E by exact Hlt. eapply Huniq; eassumption.
      * rewrite lookup_app_r in E by lia.
        destruct (r - length (heap w))%nat; simpl in E; [|discriminate].
        injection E as <-. discriminate Hcam.
    + intros j r Hj. destruct (decide (i = j)) as [->|Hne].
      * rewrite lookup_insert_eq in Hj. injection Hj as <-.
        rewrite lookup_app_r by lia. rewrite Nat.sub_diag. simpl.
        eexists. split; [reflexivity|]. auto.
      * rewrite lookup_insert_ne in Hj by exact Hne.
        destruct (Hreg j r Hj) as (o & E & ? & ? & ?).
        exists o. rewrite lookup_app_l by (eapply lookup_lt_Some, E). auto.
Qed.

Lemma consistent_destroy s w : consistent w -> consistent (destroy s w).
Proof.
  intros Hw. unfold destroy. destruct (heap w !! s) as [o|] eqn:E; [|exact Hw].
  pose proof (quiet_destroy_prefix s o w E) as Hq.
  set (w1 := disconnect s _) in *.
  pose proof (consistent_quiet _ _ Hw Hq) as ((c & Ec & Hc) & Huniq & Hreg).
  destruct Hq as (_ & _ & _ & Hq). destruct (Hq s o E) as (o1 & E1 & Hid & Hcam & _).
  unfold removeContainer. simpl. rewrite E1.
  split; [|split]; simpl.
  - destruct (decide (s = camera w1)) as [Hs|Hne].
    + rewrite <- Hs in *.
      rewrite list_lookup_insert_eq by (eapply lookup_lt_Some, E1).
      eexists. split; [reflexivity|]. simpl. congruence.
    + rewrite list_lookup_insert_ne by exact Hne. eauto.
  - intros r o' E' Hcam'. destruct (decide (s = r)) as [->|Hne].
    + rewrite list_lookup_insert_eq in E' by (eapply lookup_lt_Some, E1).
      injection E' as <-. eapply Huniq; [exact E1 | exact Hcam'].
    + rewrite list_lookup_insert_ne in E' by exact Hne. eapply Huniq; eassumption.
  - intros i r Hi.
    destruct (decide (id o = i)) as [<-|Hne]; [rewrite lookup_delete_eq in Hi; discriminate|].
    rewrite lookup_delete_ne in Hi by exact Hne.
    destruct (Hreg i r Hi) as (o' & E' & Hid' & ? & ?).
    assert (s <> r) as Hsr by (intros ->; congruence).
    exists o'. rewrite list_lookup_insert_ne by exact Hsr. auto.
Qed.

Lemma consistent_run1 w s : consistent w -> consistent (run1 w s).
Proof.
  intros Hw. pose proof (quiet_run1 w s) as Hq.
  destruct s; try (eapply consistent_quiet; [exact Hw | exact Hq]).
  - apply consistent_createObject, Hw.
  - apply consistent_destroy, Hw.
Qed.

Lemma consistent_constructed (camId : string) (w0 : Engine) (steps : list step) :
  constructor true camId = Some w0 -> consistent (run steps w0).
Proof.
  intros E0.
  assert (consistent w0) as Hw0.
  { injection E0 as <-. split; [|split]; simpl.
    - eexists. split; reflexivity.
    - intros [|r] o E; [reflexivity|discriminate E].
    - intros i r Hi. rewrite lookup_empty in Hi. discriminate. }
  clear E0. revert w0 Hw0.
  induction steps as [|s steps IH]; intros w0 Hw0; simpl; [exact Hw0|].
  apply IH, consistent_run1, Hw0.
Qed.

(** X1. An object, once constructed, is never dropped from the heap and
    never changes its id or its kind (camera or not), whatever is done to
    the engine; the engine's camera reference never changes either. *)
Theorem identity_is_immutable (steps : list step) (w : Engine) (r : nat)
    (o : CanvasObject) :
  heap w !! r = Some o ->
  getCameraObject (run steps w) = getCameraObject w /\
  exists o', heap (run steps w) !! r = Some o' /\
             id o' = id o /\ isCamera o' = isCamera o.
Proof.
  revert w o. induction steps as [|s steps IH]; intros w o E; simpl.
  - split; [reflexivity|]. eauto.
  - destruct (persists_run1 w s) as (C & Hp).
    destruct (Hp r o E) as (o1 & E1 & Hi & Hc).
    destruct (IH _ o1 E1) as (C' & o2 & E2 & Hi2 & Hc2).
    unfold getCameraObject in *. split; [congruence|].
    exists o2. repeat split; congruence.
Qed.

(** X2. In every engine reached from construction by the steps of [step]
    (calls of [createObject], [setPosition], [setMoveToPosition],
    [setStopMovement], [addClass], [onCollisionTrigger], [setVariable],
    [onDestroy] and an object's [destroy], frame ticks, intersection reports
    and [mousemove] events; the engine's own [destroy()] is not one of
    them), the camera exists and is the only camera object; an id found in
    the registry leads to an object that bears this id, whose container has
    not been removed and which is not the camera; and no object is
    registered under two ids. *)
Theorem registry_stays_consistent (camId : string) (w0 : Engine) (steps : list step) :
  constructor true camId = Some w0 ->
  let w := run steps w0 in
  (exists c, heap w !! getCameraObject w = Some c /\ isCamera c = true) /\
  (forall r o, heap w !! r = Some o -> isCamera o = true -> r = getCameraObject w) /\
  (forall i r, getCanvasObject i w = Some r ->
     r <> getCameraObject w /\
     exists o, heap w !! r = Some o /\ id o = i /\ attached o = true) /\
  (forall i j r, getCanvasObject i w = Some r -> getCanvasObject j w = Some r -> i = j).
Proof.
  intros E0 w.
  destruct (consistent_constructed camId w0 steps E0) as ((c & Ec & Hc) & Huniq & Hreg).
  fold w in Ec, Huniq, Hreg.
  unfold getCameraObject, getCanvasObject.
  split; [eauto|]. split; [exact Huniq|]. split.
  - intros i r Hi. destruct (Hreg i r Hi) as (o & E & Hid & Hcam & Ha).
    split; [|eauto]. intros ->. congruence.
  - intros i j r Hi Hj.
    destruct (Hreg i r Hi) as (o & E & Hid & _).
    destruct (Hreg j r Hj) as (o' & E' & Hid' & _). congruence.
Qed.
End Invariants.

Lemma identity_is_immutable_witness :
  exists o', Current.heap
               (Current.run [Current.SetPosition 3 4 1; Current.Destroy 1;
                             Current.CreateObject "p"] engine_with_p) !! 1%nat = Some o' /\
             Current.id o' = "p" /\ Current.isCamera o' = false.
Proof.
  exact (proj2 (identity_is_immutable
                  [Current.SetPosition 3 4 1; Current.Destroy 1; Current.CreateObject "p"]
                  engine_with_p 1 (Current.new_CanvasObject "p" false) eq_refl)).
Defined.

Lemma registry_stays_consistent_witness :
  2%nat <> Current.getCameraObject b_subscribed /\
  exists o, Current.heap b_subscribed !! 2%nat = Some o /\
            Current.id o = "b" /\ Current.attached o = true.
Proof.
  exact (proj1 (proj2 (proj2
    (registry_stays_consistent "cam" fresh_engine
       [Current.CreateObject "a"; Current.CreateObject "b";
        Current.OnCollisionTrigger "hit" "hb" 2] eq_refl))) "b" 2%nat eq_refl).
Defined.

(** ** The frame tick *)

Section FrameTick.
Import Current.
Context {H : Hypot} {Sel : Selectors}.

Lemma advance_advance (now : Q) (o : CanvasObject) :
  advance now (advance now o) = advance now o.
Proof.
  unfold advance. destruct (movement o) as [m|] eqn:Em; [|rewrite Em; reflexivity].
  destruct (Qle_bool (duration m) ((now - startTime m) / 1000)) eqn:Hd.
  - unfold placed. destruct o; simpl in *. destruct isCamera0; reflexivity.
  - unfold placed. destruct o; simpl in *. destruct isCamera0; simpl; rewrite Em, Hd; reflexivity.
Qed.

Lemma update_effect (now : Q) (r : nat) (w : Engine) (o : CanvasObject) :
  heap w !! r = Some o ->
  heap (update now r w) = <[r := advance now o]> (heap w) /\
  objects (update now r w) = objects w /\
  trace (update now r w) = trace w.
Proof.
  intros E. unfold update, advance. rewrite E.
  destruct (movement o) as [m|].
  - destruct (Qle_bool _ _).
    + destruct (setPosition_heap w r o (targetX m) (targetY m) E) as (Hh & Ho & Ht).
      assert (heap (setPosition (targetX m) (targetY m) r w) !! r =
              Some (placed (targetX m) (targetY m) (set_movement None o))) as E2.
      { rewrite Hh. apply list_lookup_insert_eq. eapply lookup_lt_Some, E. }
      destruct (clearMovement_heap _ r _ E2) as (Hc & Hco & Hct).
      rewrite Hc, Hco, Hct, Hh, Ho, Ht, list_insert_insert_eq. auto.
    + apply applyPosition_heap, E.
  - rewrite list_insert_id by exact E. auto.
Qed.

Lemma update_lookup (now : Q) (a r : nat) (w : Engine) :
  heap (update now a w) !! r
    = if bool_decide (a = r) then advance now <$> heap w !! r else heap w !! r.
Proof.
  case_bool_decide as Har.
  - subst a. destruct (heap w !! r) as [o|] eqn:E.
    + destruct (update_effect now r w o E) as (-> & _).
      rewrite list_lookup_insert_eq by (eapply lookup_lt_Some, E). reflexivity.
    + unfold update. rewrite E. simpl. exact E.
  - apply update_heap_other, Har.
Qed.

Lemma updates_lookup (now : Q) (rs : list nat) :
  forall (w : Engine) (r : nat),
    heap (foldl (fun w r => update now r w) w rs) !! r
      = if bool_decide (r ∈ rs) then advance now <$> heap w !! r else heap w !! r.
Proof.
  induction rs as [|a rs IH]; intros w r; cbn [foldl].
  - case_bool_decide as Hin; [|reflexivity]. apply elem_of_nil in Hin. destruct Hin.
  - rewrite IH, update_lookup.
    destruct (decide (a = r)) as [->|Hne].
    + rewrite (bool_decide_eq_true_2 (r = r)) by reflexivity.
      rewrite (bool_decide_eq_true_2 (r ∈ r :: rs)) by apply list_elem_of_here.
      case_bool_decide; [|reflexivity].
      destruct (heap w !! r); simpl; [|reflexivity]. rewrite advance_advance. reflexivity.
    + rewrite (bool_decide_eq_false_2 (a = r)) by exact Hne.
      rewrite (bool_decide_ext (r ∈ a :: rs) (r ∈ rs)); [reflexivity|].
      rewrite elem_of_cons. intuition congruence.
Qed.

Lemma updates_rest (now : Q) (rs : list nat) :
  forall (w : Engine),
    objects (foldl (fun w r => update now r w) w rs) = objects w /\
    trace (foldl (fun w r => update now r w) w rs) = trace w.
Proof.
  induction rs as [|a rs IH]; intros w; simpl; [auto|].
  destruct (IH (update now a w)) as (-> & ->).
  destruct (heap w !! a) as [o|] eqn:E.
  - destruct (update_effect now a w o E) as (_ & -> & ->). auto.
  - unfold update. rewrite E. auto.
Qed.

Lemma registered_elem (r : nat) (w : Engine) :
  r ∈ map snd (map_to_list (objects w)) <-> registered r w.
Proof.
  rewrite list_elem_of_In, in_map_iff. unfold registered. split.
  - intros ([i r'] & Hs & Hin). simpl in Hs. subst r'.
    apply list_elem_of_In, elem_of_map_to_list in Hin. eauto.
  - intros (i & Hi). exists (i, r). split; [reflexivity|].
    apply list_elem_of_In, elem_of_map_to_list, Hi.
Qed.

Lemma loop_lookup (w : Engine) (time now : Q) (r : nat) :
  (registered r w -> heap (loop time now w) !! r = advance now <$> heap w !! r) /\
  (~ registered r w -> heap (loop time now w) !! r = heap w !! r).
Proof.
  unfold loop.
  pose proof (updates_lookup now (map snd (map_to_list (objects w)))
                (set_lastTime time w) r) as Hl.
  split; intros Hr; rewrite Hl.
  - rewrite bool_decide_eq_true_2; [reflexivity|]. apply registered_elem, Hr.
  - rewrite bool_decide_eq_false_2; [reflexivity|].
    intros Hin. apply Hr, registered_elem, Hin.
Qed.

(** X3. One frame tick advances every registered object exactly as
    [update] prescribes (arrival or interpolation at the clock reading),
    leaves every object that is not in the registry untouched, and changes
    neither the registry nor the trace. *)
Theorem loop_advances_the_registered (w : Engine) (time now : Q) (r : nat) :
  (registered r w -> heap (loop time now w) !! r = advance now <$> heap w !! r) /\
  (~ registered r w -> heap (loop time now w) !! r = heap w !! r) /\
  objects (loop time now w) = objects w /\
  trace (loop time now w) = trace w.
Proof.
  destruct (loop_lookup w time now r) as (Hreg & Hun).
  split; [exact Hreg|]. split; [exact Hun|].
  exact (updates_rest now (map snd (map_to_list (objects w))) (set_lastTime time w)).
Qed.

(** X4. The frame loop never advances the camera: in every engine reached
    from construction, no number of frame ticks changes the camera object,
    a movement requested for it included. *)
Theorem loop_never_moves_the_camera (camId : string) (w0 : Engine)
    (steps : list step) (ticks : list (Q * Q)) :
  constructor true camId = Some w0 ->
  let w := run steps w0 in
  let w' := run (map (fun t => Tick (fst t) (snd t)) ticks) w in
  heap w' !! getCameraObject w' = heap w !! getCameraObject w.
Proof.
  intros E0 w w'.
  pose proof (consistent_constructed camId w0 steps E0) as Hw.
  fold w in Hw. unfold w'. clearbody w. clear w' E0.
  revert w Hw. induction ticks as [|t ticks IH]; intros w Hw; simpl; [reflexivity|].
  assert (quiet w (loop (fst t) (snd t) w)) as Hq by apply quiet_loop.
  rewrite IH by (eapply consistent_quiet; eassumption).
  destruct Hq as (Hc & _). unfold getCameraObject. rewrite Hc.
  apply (loop_lookup w (fst t) (snd t) (camera w)).
  intros (i & Hi). destruct Hw as ((c & Ec & Hc') & _ & Hreg).
  destruct (Hreg i _ Hi) as (o & E & _ & Hcam & _). congruence.
Qed.
End FrameTick.

Lemma loop_advances_the_registered_witness :
  let w := Current.setMoveToPosition 100 0 50 0 1 engine_with_p in
  Current.heap (Current.loop 16 1000 w) !! 1%nat
    = advance 1000 <$> Current.heap w !! 1%nat /\
  Current.heap (Current.loop 16 1000 w) !! 0%nat = Current.heap w !! 0%nat.
Proof.
  intros w.
  destruct (loop_advances_the_registered w 16 1000 1) as (Hreg & _).
  destruct (loop_advances_the_registered w 16 1000 0) as (_ & Hun & _).
  split.
  - apply Hreg. exists "p". reflexivity.
  - apply Hun. intros (i & Hi).
    change (Current.objects w) with (<["p" := 1%nat]> (∅ : gmap string nat)) in Hi.
    destruct (decide ("p" = i)) as [<-|Hne].
    + rewrite lookup_insert_eq in Hi. discriminate Hi.
    + rewrite lookup_insert_ne, lookup_empty in Hi by exact Hne. discriminate Hi.
Defined.

(** The camera is asked to move to (100, 0); three ticks later it has not
    moved. *)
Lemma loop_never_moves_the_camera_witness :
  let w := Current.run [Current.CreateObject "p";
                        Current.SetMoveToPosition 100 0 50 0 0] fresh_engine in
  Current.heap (Current.run [Current.Tick 16 16; Current.Tick 1000 1000;
                             Current.Tick 3000 3000] w) !! 0%nat
    = Current.heap w !! 0%nat.
Proof.
  exact (loop_never_moves_the_camera "cam" fresh_engine
           [Current.CreateObject "p"; Current.SetMoveToPosition 100 0 50 0 0]
           [(16, 16); (1000, 1000); (3000, 3000)] eq_refl).
Defined.

(** ** Movement under way *)

Section UnderWay.
Import Current.
Context {H : Hypot} {Sel : Selectors}.

(** X5. While the elapsed time is short of the duration, [update] puts the
    object on the segment from start to target, at the fraction
    elapsed / duration of the way, independently on each axis; that fraction
    is at least 0 and less than 1, and the movement stays active and
    unchanged. *)
Theorem update_interpolates (w : Engine) (self : nat) (m : Movement) (now : Q) :
  movementOf self w = Some m ->
  startTime m <= now ->
  (now - startTime m) / 1000 < duration m ->
  0 <= progress now m /\ progress now m < 1 /\
  getPosition self (update now self w)
    = Some (mkPoint (startX m + (targetX m - startX m) * progress now m)
                    (startY m + (targetY m - startY m) * progress now m)) /\
  movementOf self (update now self w) = Some m.
Proof.
  intros Hm Hstart Hlt.
  assert (0 <= (now - startTime m) / 1000) as He.
  { apply Qle_shift_div_l; [reflexivity|]. rewrite Qmult_0_l.
    unfold Qminus. rewrite <- (Qplus_opp_r (startTime m)).
    apply Qplus_le_l. exact Hstart. }
  assert (0 < duration m) as Hd by (eapply Qle_lt_trans; eassumption).
  split; [|split].
  - unfold progress. apply Qle_shift_div_l; [exact Hd|]. rewrite Qmult_0_l. exact He.
  - unfold progress. apply Qlt_shift_div_r; [exact Hd|]. rewrite Qmult_1_l. exact Hlt.
  - apply (update_under_way w self m now Hm Hlt).
Qed.

(** X6. [setMoveToPosition] on an object that is already moving replaces
    the movement: the new one starts at the object's current position and at
    the current clock reading, keeps nothing of the old one, and leaves the
    position where it is; an [update] at that same clock reading still
    finds the object there. *)
Theorem setMoveToPosition_retargets (w : Engine) (self : nat) (o : CanvasObject)
    (old : Movement) (x y speed now : Q) :
  heap w !! self = Some o ->
  movement o = Some old ->
  0 < speed ->
  ~ (x == px (pos o) /\ y == py (pos o)) ->
  0 <= hypot (x - px (pos o)) (y - py (pos o)) ->
  let w1 := setMoveToPosition x y speed now self w in
  getPosition self w1 = Some (pos o) /\
  movementOf self w1 =
    Some (mkMovement (px (pos o)) (py (pos o)) x y speed now
            (hypot (x - px (pos o)) (y - py (pos o)) / speed)) /\
  exists p, getPosition self (update now self w1) = Some p /\
            px p == px (pos o) /\ py p == py (pos o).
Proof.
  intros E _ Hs Hne Hnn w1.
  set (d := hypot (x - px (pos o)) (y - py (pos o))) in *.
  set (m := mkMovement (px (pos o)) (py (pos o)) x y speed now (d / speed)).
  assert (~ d == 0) as Hd0.
  { intros Hz. apply hypot_zero in Hz. apply Hne. destruct Hz as [Hx Hy]. split.
    - rewrite <- (Qplus_0_r (px (pos o))), <- Hx. ring.
    - rewrite <- (Qplus_0_r (py (pos o))), <- Hy. ring. }
  assert (w1 = store self (set_movement (Some m) o) w) as Hw1.
  { unfold w1, setMoveToPosition. rewrite E.
    destruct (Qle_bool speed 0) eqn:Hle.
    - apply Qle_bool_iff in Hle. exfalso. eapply Qlt_not_le; eassumption.
    - fold d. destruct (Qeq_bool d 0) eqn:Hz; [|reflexivity].
      apply Qeq_bool_iff in Hz. contradiction. }
  assert (heap w1 !! self = Some (set_movement (Some m) o)) as E1.
  { rewrite Hw1. eapply heap_store_eq, E. }
  assert (movementOf self w1 = Some m) as Hm1.
  { unfold movementOf. rewrite E1. reflexivity. }
  split; [unfold getPosition; rewrite E1; reflexivity|].
  split; [exact Hm1|].
  assert (0 < d / speed) as Hdur.
  { apply Qlt_shift_div_l; [exact Hs|]. rewrite Qmult_0_l.
    destruct (Qle_lt_or_eq _ _ Hnn) as [Hlt|Heq]; [exact Hlt|].
    exfalso. apply Hd0. symmetry. exact Heq. }
  assert ((now - startTime m) / 1000 == 0) as He0.
  { simpl. unfold Qminus. rewrite Qplus_opp_r. reflexivity. }
  assert ((now - startTime m) / 1000 < duration m) as Hlt.
  { rewrite He0. exact Hdur. }
  destruct (update_under_way w1 self m now Hm1 Hlt) as (Hp & _).
  eexists. split; [exact Hp|]. simpl.
  assert ((now - now) / 1000 / (d / speed) == 0) as Ht0.
  { simpl in He0. rewrite He0. unfold Qdiv. apply Qmult_0_l. }
  split; rewrite Ht0; ring.
Qed.

(** X7. [setStopMovement] leaves the object where it is and without a
    movement; calling it again changes nothing, and no number of frame ticks
    moves the object afterwards. *)
Theorem setStopMovement_halts (w : Engine) (self : nat) (o : CanvasObject) :
  heap w !! self = Some o ->
  let w1 := setStopMovement self w in
  heap w1 !! self = Some (set_movement None o) /\
  getPosition self w1 = Some (pos o) /\
  movementOf self w1 = None /\
  setStopMovement self w1 = w1 /\
  (forall ticks : list (Q * Q),
     heap (foldl (fun w t => loop (fst t) (snd t) w) w1 ticks) !! self = heap w1 !! self).
Proof.
  intros E w1.
  destruct (clearMovement_heap w self o E) as (Hh & _ & _).
  assert (heap w1 !! self = Some (set_movement None o)) as E1.
  { unfold w1, setStopMovement. rewrite Hh.
    apply list_lookup_insert_eq. eapply lookup_lt_Some, E. }
  split; [exact E1|].
  split; [unfold getPosition; rewrite E1; reflexivity|].
  split; [unfold movementOf; rewrite E1; reflexivity|].
  split.
  - unfold setStopMovement, clearMovement at 1. rewrite E1.
    change (set_movement None (set_movement None o)) with (set_movement None o).
    unfold store. rewrite list_insert_id by exact E1. destruct w1; reflexivity.
  - intros ticks. rewrite E1. clear Hh. generalize dependent w1.
    induction ticks as [|t ticks IH]; intros w1 E1; simpl; [exact E1|].
    apply IH. apply loop_keeps_idle; [exact E1 | reflexivity].
Qed.
End UnderWay.

Lemma update_interpolates_witness :
  let w := Current.setMoveToPosition 100 0 50 0 1 engine_with_p in
  exists m, Current.movementOf 1 w = Some m /\
            Current.movementOf 1 (Current.update 1000 1 w) = Some m /\
            progress 1000 m < 1.
Proof.
  intros w. eexists. split; [reflexivity|].
  refine ((fun H => conj (proj2 (proj2 (proj2 H))) (proj1 (proj2 H)))
            (update_interpolates w 1 _ 1000 eq_refl _ _)).
  - apply Qle_bool_iff. vm_compute. reflexivity.
  - vm_compute. reflexivity.
Defined.

(** Half-way to (100, 0) the object is sent to (50, 40) instead. *)
Lemma setMoveToPosition_retargets_witness :
  let w := Current.update 1000 1 (Current.setMoveToPosition 100 0 50 0 1 engine_with_p) in
  let w1 := Current.setMoveToPosition 50 40 10 1000 1 w in
  (Current.startTime <$> Current.movementOf 1 w1) = Some 1000 /\
  exists p, Current.getPosition 1 (Current.update 1000 1 w1) = Some p /\
            Qeq_bool (px p) 50 = true /\ Qeq_bool (py p) 0 = true.
Proof.
  intros w w1.
  pose (o := default (Current.new_CanvasObject "p" false) (Current.heap w !! 1%nat)).
  assert (Current.heap w !! 1%nat = Some o) as E by (vm_compute; reflexivity).
  assert (exists old, Current.movement o = Some old) as [old Eold]
    by (eexists; vm_compute; reflexivity).
  unshelve epose proof (setMoveToPosition_retargets w 1 o old 50 40 10 1000 E Eold _ _ _)
    as (_ & Hm & p & Hp & Hx & Hy).
  - vm_compute. reflexivity.
  - intros [_ Hy]. vm_compute in Hy. discriminate Hy.
  - apply Qle_bool_iff. vm_compute. reflexivity.
  - fold w1 in Hm, Hp. split; [rewrite Hm; reflexivity|].
    exists p. split; [exact Hp|].
    split; apply Qeq_bool_iff; [rewrite Hx | rewrite Hy]; vm_compute; reflexivity.
Defined.

Lemma setStopMovement_halts_witness :
  let w := Current.setMoveToPosition 100 0 50 0 1 engine_with_p in
  Current.getPosition 1 (Current.setStopMovement 1 w) = Some origin /\
  Current.movementOf 1 (Current.setStopMovement 1 w) = None.
Proof.
  intros w.
  assert (exists o, Current.heap w !! 1%nat = Some o) as [o E] by (eexists; reflexivity).
  destruct (setStopMovement_halts w 1 o E) as (_ & Hp & Hm & _).
  split; [|exact Hm]. rewrite Hp. vm_compute in E. injection E as <-. reflexivity.
Defined.

(** ** Creation and destruction *)

Section Lifecycle.
Import Current.
Context {Sel : Selectors}.

(** X8. [createObject(id)] for an id that is not in the registry allocates
    a new object (a reference no object had before) at the origin, idle,
    without classes, handlers or variables and in the document, registers
    it under [id], emits nothing, and changes neither an existing object
    nor the entry of any other id. *)
Theorem createObject_fresh_id (w : Engine) (i : string) :
  objects w !! i = None ->
  let r := fst (createObject i w) in
  let w' := snd (createObject i w) in
  heap w !! r = None /\
  heap w' !! r = Some (new_CanvasObject i false) /\
  getCanvasObject i w' = Some r /\
  (forall j, j <> i -> getCanvasObject j w' = getCanvasObject j w) /\
  (forall s o, heap w !! s = Some o -> heap w' !! s = Some o) /\
  trace w' = trace w.
Proof.
  intros E r w'. unfold r, w', createObject, getCanvasObject. rewrite E. simpl.
  split; [apply lookup_ge_None_2; lia|].
  split; [rewrite lookup_app_r by lia; rewrite Nat.sub_diag; reflexivity|].
  split; [apply lookup_insert_eq|].
  split; [intros j Hne; apply lookup_insert_ne; congruence|].
  split; [|reflexivity].
  intros s o Es. rewrite lookup_app_l by (eapply lookup_lt_Some, Es). exact Es.
Qed.

(** X9. Creating an object under an unused id and destroying it again
    restores the registry exactly; the object stays in the heap, out of the
    document, and nothing is emitted. *)
Theorem create_then_destroy (w : Engine) (i : string) :
  objects w !! i = None ->
  let r := fst (createObject i w) in
  let w' := destroy r (snd (createObject i w)) in
  objects w' = objects w /\
  getCanvasObject i w' = None /\
  heap w' !! r = Some (set_attached false (new_CanvasObject i false)) /\
  trace w' = trace w.
Proof.
  intros E r w'. unfold w', r, createObject, getCanvasObject. rewrite E. simpl.
  unfold destroy. simpl.
  rewrite lookup_app_r by lia. rewrite Nat.sub_diag. simpl.
  unfold disconnect. simpl. rewrite lookup_app_r by lia. rewrite Nat.sub_diag. simpl.
  unfold removeContainer. simpl.
  rewrite list_lookup_insert_eq by (rewrite length_app; simpl; lia). simpl.
  rewrite list_insert_insert_eq.
  rewrite list_lookup_insert_eq by (rewrite length_app; simpl; lia).
  rewrite (delete_insert_id _ _ _ E).
  repeat split. exact E.
Qed.

Lemma destroy_effect (w : Engine) (r : nat) (o : CanvasObject) :
  heap w !! r = Some o ->
  heap (destroy r w) = <[r := set_attached false (set_observed [] o)]> (heap w) /\
  objects (destroy r w) = delete (id o) (objects w) /\
  trace (destroy r w) = trace w ++ destroyHooks r o.
Proof.
  intros E. unfold destroy, destroyHooks. rewrite E.
  assert (forall w1, heap w1 = heap w ->
            heap (removeContainer r (unregisterObject (id o) (disconnect r w1)))
              = <[r := set_attached false (set_observed [] o)]> (heap w) /\
            objects (removeContainer r (unregisterObject (id o) (disconnect r w1)))
              = delete (id o) (objects w1) /\
            trace (removeContainer r (unregisterObject (id o) (disconnect r w1)))
              = trace w1) as Hgen.
  { intros w1 Hh. unfold disconnect. rewrite Hh, E.
    unfold removeContainer. simpl. rewrite Hh.
    rewrite list_lookup_insert_eq by (eapply lookup_lt_Some, E). simpl.
    rewrite list_insert_insert_eq, Hh. auto. }
  destruct (onDestroyCb o) as [cb|].
  - destruct (Hgen (emit (DestroyHook cb r) w) eq_refl) as (-> & -> & ->). auto.
  - destruct (Hgen w eq_refl) as (-> & -> & ->). rewrite app_nil_r. auto.
Qed.

(** X10. Every call of [destroy] runs the callback last given to
    [onDestroy], once, with the object as argument, and no other callback;
    a second [destroy] runs it again but otherwise changes nothing: heap and
    registry are as after the first. *)
Theorem destroy_runs_hook_each_time (w : Engine) (r : nat) (o : CanvasObject) :
  heap w !! r = Some o ->
  trace (destroy r w) = trace w ++ destroyHooks r o /\
  (forall cb, trace (destroy r (onDestroy cb r w)) = trace w ++ [DestroyHook cb r]) /\
  heap (destroy r (destroy r w)) = heap (destroy r w) /\
  objects (destroy r (destroy r w)) = objects (destroy r w) /\
  trace (destroy r (destroy r w)) = trace w ++ destroyHooks r o ++ destroyHooks r o.
Proof.
  intros E.
  destruct (destroy_effect w r o E) as (Hh & Ho & Ht).
  set (o1 := set_attached false (set_observed [] o)) in *.
  assert (heap (destroy r w) !! r = Some o1) as E1.
  { rewrite Hh. apply list_lookup_insert_eq. eapply lookup_lt_Some, E. }
  destruct (destroy_effect (destroy r w) r o1 E1) as (Hh2 & Ho2 & Ht2).
  split; [exact Ht|]. split; [|split; [|split]].
  - intros cb. unfold onDestroy. rewrite E.
    destruct (destroy_effect (store r (set_onDestroyCb (Some cb) o) w) r
                (set_onDestroyCb (Some cb) o)) as (_ & _ & ->);
      [eapply heap_store_eq, E | reflexivity].
  - rewrite Hh2, Hh, list_insert_insert_eq. reflexivity.
  - rewrite Ho2, Ho. apply delete_delete_eq.
  - rewrite Ht2, Ht, <- app_assoc. reflexivity.
Qed.

(** X11. [destroy] unregisters by id without looking at who holds the
    entry: destroying an object whose id is by now registered to another
    object removes that other object from the registry, although it is
    left untouched and stays in the document. *)
Theorem destroy_unregisters_namesake (w : Engine) (r r' : nat) (o : CanvasObject) :
  heap w !! r = Some o ->
  getCanvasObject (id o) w = Some r' ->
  r' <> r ->
  getCanvasObject (id o) (destroy r w) = None /\
  heap (destroy r w) !! r' = heap w !! r'.
Proof.
  intros E _ Hne.
  destruct (destroy_effect w r o E) as (Hh & Ho & _).
  unfold getCanvasObject. rewrite Ho, Hh.
  split; [apply lookup_delete_eq|].
  apply list_lookup_insert_ne. congruence.
Qed.
End Lifecycle.

Lemma createObject_fresh_id_witness :
  Current.getCanvasObject "q" (snd (Current.createObject "q" engine_with_p)) = Some 2%nat /\
  Current.trace (snd (Current.createObject "q" engine_with_p)) = Current.trace engine_with_p.
Proof.
  destruct (createObject_fresh_id engine_with_p "q" eq_refl) as (_ & _ & Hg & _ & _ & Ht).
  split; [exact Hg | exact Ht].
Defined.

Lemma create_then_destroy_witness :
  Current.objects (Current.destroy 2 (snd (Current.createObject "q" engine_with_p)))
    = Current.objects engine_with_p.
Proof. exact (proj1 (create_then_destroy engine_with_p "q" eq_refl)). Defined.

Lemma destroy_runs_hook_each_time_witness :
  Current.trace (Current.destroy 1 (Current.destroy 1 (Current.onDestroy "bye" 1 engine_with_p)))
    = [Current.DestroyHook "bye" 1; Current.DestroyHook "bye" 1].
Proof.
  exact (proj2 (proj2 (proj2 (proj2
    (destroy_runs_hook_each_time (Current.onDestroy "bye" 1 engine_with_p) 1 _ eq_refl))))).
Defined.

(** "p" is created, destroyed and created again; destroying the first "p"
    once more takes the second one out of the registry. *)
Lemma destroy_unregisters_namesake_witness :
  let w := Current.run [Current.Destroy 1; Current.CreateObject "p"] engine_with_p in
  Current.getCanvasObject "p" w = Some 2%nat /\
  Current.getCanvasObject "p" (Current.destroy 1 w) = None /\
  (Current.attached <$> Current.heap (Current.destroy 1 w) !! 2%nat) = Some true.
Proof.
  intros w.
  destruct (destroy_unregisters_namesake w 1 2 _ eq_refl eq_refl) as (Hn & Hk);
    [discriminate|].
  split; [reflexivity|]. split; [exact Hn|]. rewrite Hk. reflexivity.
Defined.

(** ** Observers *)

Section Observers.
Import Current.
Context {Sel : Selectors}.





End Observers.

Section Reports.
Import Current.
Context {Sel : Selectors}.

Lemma onClass_all (self : nat) (t : CanvasObject) (l : list string) :
  forall w,
    heap (foldl (onClass self t) w l) = heap w /\
    objects (foldl (onClass self t) w l) = objects w /\
    trace (foldl (onClass self t) w l)
      = trace w ++
        flat_map (fun cls =>
                    match handlerOf self cls w, getCanvasObject (id t) w with
                    | Some handler, Some other => [Collision handler self other]
                    | _, _ => []
                    end) l.
Proof.
  induction l as [|cls l IH]; intros w; simpl.
  - rewrite app_nil_r. auto.
  - destruct (IH (onClass self t w cls)) as (Hh & Ho & Ht).
    assert (heap (onClass self t w cls) = heap w /\
            objects (onClass self t w cls) = objects w /\
            trace (onClass self t w cls)
              = trace w ++ match handlerOf self cls w, getCanvasObject (id t) w with
                           | Some handler, Some other => [Collision handler self other]
                           | _, _ => []
                           end) as (Hh1 & Ho1 & Ht1).
    { unfold onClass, handlerOf. destruct (heap w !! self) as [o|]; simpl.
      - destruct (collisionHandlers o !! cls); simpl.
        + destruct (getCanvasObject (id t) w); simpl; rewrite ?app_nil_r; auto.
        + rewrite app_nil_r. auto.
      - rewrite app_nil_r. auto. }
    rewrite Hh, Ho, Ht, Hh1, Ho1, Ht1. repeat split; try reflexivity.
    rewrite <- app_assoc. f_equal. f_equal.
    apply flat_map_ext. intros c. unfold handlerOf, getCanvasObject.
    rewrite Hh1, Ho1. reflexivity.
Qed.

Lemma onEntry_all (self : nat) (entries : list (nat * bool)) :
  forall w,
    heap (foldl (onEntry self) w entries) = heap w /\
    objects (foldl (onEntry self) w entries) = objects w /\
    trace (foldl (onEntry self) w entries)
      = trace w ++ flat_map (invocationsFor self w) entries.
Proof.
  induction entries as [|e entries IH]; intros w; simpl.
  - rewrite app_nil_r. auto.
  - destruct (IH (onEntry self w e)) as (Hh & Ho & Ht).
    assert (heap (onEntry self w e) = heap w /\
            objects (onEntry self w e) = objects w /\
            trace (onEntry self w e) = trace w ++ invocationsFor self w e)
      as (Hh1 & Ho1 & Ht1).
    { unfold onEntry, invocationsFor. destruct (snd e); simpl.
      - destruct (heap w !! fst e) as [t|]; [apply onClass_all|].
        rewrite app_nil_r. auto.
      - rewrite app_nil_r. auto. }
    rewrite Hh, Ho, Ht, Hh1, Ho1, Ht1. repeat split; try reflexivity.
    rewrite <- app_assoc. f_equal. f_equal.
    apply flat_map_ext. intros x. unfold invocationsFor, handlerOf, getCanvasObject.
    rewrite Hh1, Ho1. reflexivity.
Qed.

(** X13. A report from an object's observer changes neither the heap nor
    the registry.  It runs a handler with arguments (self, other) exactly
    when some reported entry is intersecting, its target is observed by the
    object and carries a class for which the object holds that handler, and
    the registry resolves the target's id to [other]; so [other] is always a
    registered object, and an entry that is not intersecting, or whose id
    the registry does not know, runs nothing. *)
Theorem intersectionChange_invocations (w : Engine) (self : nat)
    (entries : list (nat * bool)) :
  heap (intersectionChange self entries w) = heap w /\
  objects (intersectionChange self entries w) = objects w /\
  exists calls,
    trace (intersectionChange self entries w) = trace w ++ calls /\
    forall e, In e calls <->
      exists cb other target t cls,
        e = Collision cb self other /\
        In (target, true) entries /\
        target ∈ observedBy self w /\
        heap w !! target = Some t /\
        In cls (classList t) /\
        handlerOf self cls w = Some cb /\
        getCanvasObject (id t) w = Some other.
Proof.
  unfold intersectionChange, observerCallback.
  destruct (onEntry_all self (List.filter (isObserved self w) entries) w) as (Hh & Ho & Ht).
  split; [exact Hh|]. split; [exact Ho|].
  eexists. split; [exact Ht|].
  intros e. rewrite in_flat_map. split.
  - intros ([target b] & Hin & He). apply filter_In in Hin as [Hin Hobs].
    unfold invocationsFor in He. simpl in He. destruct b; [|destruct He].
    destruct (heap w !! target) as [t|] eqn:Et; [|destruct He].
    apply in_flat_map in He as (cls & Hcls & He).
    destruct (handlerOf self cls w) as [cb|] eqn:Hcb; [|destruct He].
    destruct (getCanvasObject (id t) w) as [other|] eqn:Hreg; [|destruct He].
    destruct He as [<-|[]].
    exists cb, other, target, t, cls. repeat split; try assumption.
    unfold isObserved, observedBy in *. destruct (heap w !! self); [|discriminate].
    simpl in Hobs. apply bool_decide_eq_true in Hobs. exact Hobs.
  - intros (cb & other & target & t & cls & -> & Hin & Hobs & Et & Hcls & Hcb & Hreg).
    exists (target, true). split.
    + apply filter_In. split; [exact Hin|].
      unfold isObserved, observedBy in *. destruct (heap w !! self); simpl.
      * apply bool_decide_eq_true. exact Hobs.
      * apply elem_of_nil in Hobs. destruct Hobs.
    + unfold invocationsFor. simpl. rewrite Et. apply in_flat_map.
      exists cls. split; [exact Hcls|]. rewrite Hcb, Hreg. left. reflexivity.
Qed.

End Reports.



(** ** [utils] *)

Section ClosestPoint.
Context {H : Hypot}.

Lemma below_Some (d m : Q) : below d (Some m) = true <-> d < m.
Proof.
  unfold below. rewrite negb_true_iff. split.
  - intros Hle. apply Qnot_le_lt. intros Hc. apply Qle_bool_iff in Hc. congruence.
  - intros Hlt. destruct (Qle_bool m d) eqn:Hle; [|reflexivity].
    apply Qle_bool_iff in Hle. exfalso. eapply Qlt_not_le; eassumption.
Qed.

Lemma closestFrom_spec (target : Point) (rest : list Point) :
  forall (pre : list Point) (c : nat),
    (c < length pre)%nat ->
    (forall j, (j < length pre)%nat ->
       distanceAt (pre ++ rest) target c <= distanceAt (pre ++ rest) target j) ->
    (forall j, (j < c)%nat ->
       distanceAt (pre ++ rest) target c < distanceAt (pre ++ rest) target j) ->
    let c' := Current.closestFrom target rest (length pre) c
                (Some (distanceAt (pre ++ rest) target c)) in
    (c' < length (pre ++ rest))%nat /\
    (forall j, (j < length (pre ++ rest))%nat ->
       distanceAt (pre ++ rest) target c' <= distanceAt (pre ++ rest) target j) /\
    (forall j, (j < c')%nat ->
       distanceAt (pre ++ rest) target c' < distanceAt (pre ++ rest) target j).
Proof.
  induction rest as [|p rest IH]; intros pre c Hc Hmin Hfirst; cbv zeta.
  - cbn [Current.closestFrom]. rewrite app_nil_r in *. auto.
  - assert (distanceAt (pre ++ p :: rest) target (length pre)
            = hypot (px p - px target) (py p - py target)) as Hd.
    { unfold distanceAt. rewrite list_lookup_middle by reflexivity. reflexivity. }
    assert (pre ++ p :: rest = (pre ++ [p]) ++ rest) as Happ
      by (rewrite <- app_assoc; reflexivity).
    assert (length (pre ++ [p]) = S (length pre)) as Hlen
      by (rewrite length_app; simpl; lia).
    cbn [Current.closestFrom]. rewrite <- Hd.
    destruct (below (distanceAt (pre ++ p :: rest) target (length pre))
                (Some (distanceAt (pre ++ p :: rest) target c))) eqn:Hb.
    + apply below_Some in Hb.
      specialize (IH (pre ++ [p]) (length pre)). cbv zeta in IH.
      rewrite <- Happ, Hlen in IH. apply IH.
      * lia.
      * intros j Hj. destruct (decide (j = length pre)) as [->|Hne]; [apply Qle_refl|].
        apply Qlt_le_weak. eapply Qlt_le_trans; [exact Hb|]. apply Hmin. lia.
      * intros j Hj. eapply Qlt_le_trans; [exact Hb|]. apply Hmin. lia.
    + assert (distanceAt (pre ++ p :: rest) target c
              <= distanceAt (pre ++ p :: rest) target (length pre)) as Hle.
      { apply Qnot_lt_le. intros Hlt. apply below_Some in Hlt. congruence. }
      specialize (IH (pre ++ [p]) c). cbv zeta in IH.
      rewrite <- Happ, Hlen in IH. apply IH.
      * lia.
      * intros j Hj. destruct (decide (j = length pre)) as [->|Hne]; [exact Hle|].
        apply Hmin. lia.
      * exact Hfirst.
Qed.

(** X15. [utils.getClosestToPoint] answers [null] exactly for an empty
    array; otherwise it answers a valid index whose point is at least as
    near to the target as every point of the array, and strictly nearer
    than every point before it: the first of the nearest points. *)
Theorem getClosestToPoint_first_nearest (points : list Point) (target : Point) :
  (Current.getClosestToPoint points target = None <-> points = []) /\
  forall i, Current.getClosestToPoint points target = Some i ->
    (i < length points)%nat /\
    (forall j, (j < length points)%nat ->
       distanceAt points target i <= distanceAt points target j) /\
    (forall j, (j < i)%nat -> distanceAt points target i < distanceAt points target j).
Proof.
  split.
  - destruct points; simpl; split; intros E; congruence.
  - intros i Hi. destruct points as [|p0 rest]; [discriminate|].
    injection Hi as <-. simpl.
    pose proof (closestFrom_spec target rest [p0] 0) as Hspec. simpl in Hspec.
    apply Hspec.
    + lia.
    + intros j Hj. replace j with 0%nat by lia. apply Qle_refl.
    + intros j Hj. lia.
Qed.

End ClosestPoint.

Section EarlierClosestPoint.
Context {R : Sqrt}.

Lemma raf_closestFrom_spec (point : Point) (rest : list Point) :
  forall (pre : list Point) (c : nat),
    (c < length pre)%nat ->
    (forall j, (j < length pre)%nat ->
       distanceTo (pre ++ rest) point c <= distanceTo (pre ++ rest) point j) ->
    (forall j, (j < c)%nat ->
       distanceTo (pre ++ rest) point c < distanceTo (pre ++ rest) point j) ->
    exists c',
      Raf.closestFrom point rest (length pre) (Some c) (distanceTo (pre ++ rest) point c)
        = Some c' /\
      (c' < length (pre ++ rest))%nat /\
      (forall j, (j < length (pre ++ rest))%nat ->
         distanceTo (pre ++ rest) point c' <= distanceTo (pre ++ rest) point j) /\
      (forall j, (j < c')%nat ->
         distanceTo (pre ++ rest) point c' < distanceTo (pre ++ rest) point j).
Proof.
  induction rest as [|p rest IH]; intros pre c Hc Hmin Hfirst.
  - cbn [Raf.closestFrom]. rewrite app_nil_r in *. eauto.
  - assert (distanceTo (pre ++ p :: rest) point (length pre)
            = Raf.getDistanceBetweenTwoPoints (px p) (py p) (px point) (py point)) as Hd.
    { unfold distanceTo. rewrite list_lookup_middle by reflexivity. reflexivity. }
    assert (pre ++ p :: rest = (pre ++ [p]) ++ rest) as Happ
      by (rewrite <- app_assoc; reflexivity).
    assert (length (pre ++ [p]) = S (length pre)) as Hlen
      by (rewrite length_app; simpl; lia).
    cbn [Raf.closestFrom]. rewrite <- Hd.
    destruct (Nat.eqb_spec (length pre) 0) as [Hz|_]; [lia|].
    destruct (negb (Qle_bool (distanceTo (pre ++ p :: rest) point c)
                      (distanceTo (pre ++ p :: rest) point (length pre)))) eqn:Hb.
    + apply (below_Some _ _) in Hb.
      specialize (IH (pre ++ [p]) (length pre)).
      rewrite <- Happ, Hlen in IH. apply IH.
      * lia.
      * intros j Hj. destruct (decide (j = length pre)) as [->|Hne]; [apply Qle_refl|].
        apply Qlt_le_weak. eapply Qlt_le_trans; [exact Hb|]. apply Hmin. lia.
      * intros j Hj. eapply Qlt_le_trans; [exact Hb|]. apply Hmin. lia.
    + assert (distanceTo (pre ++ p :: rest) point c
              <= distanceTo (pre ++ p :: rest) point (length pre)) as Hle.
      { apply Qnot_lt_le. intros Hlt. apply (below_Some _ _) in Hlt.
        unfold below in Hlt. congruence. }
      specialize (IH (pre ++ [p]) c).
      rewrite <- Happ, Hlen in IH. apply IH.
      * lia.
      * intros j Hj. destruct (decide (j = length pre)) as [->|Hne]; [exact Hle|].
        apply Hmin. lia.
      * exact Hfirst.
Qed.

(** X16. [utils.getClosestToPoint] of the earlier revision, which starts
    from [null] and treats index 0 apart, answers [null] exactly for an
    empty array; otherwise it answers a valid index whose point is, by the
    distances [getDistanceBetweenTwoPoints] returns, at least as near as
    every point of the array and strictly nearer than every point before
    it. *)
Theorem raf_closest_point_first_nearest (points : list Point) (point : Point) :
  (Raf.getClosestToPoint points point = None <-> points = []) /\
  (points <> [] -> exists i, Raf.getClosestToPoint points point = Some i) /\
  forall i, Raf.getClosestToPoint points point = Some i ->
    (i < length points)%nat /\
    (forall j, (j < length points)%nat ->
       distanceTo points point i <= distanceTo points point j) /\
    (forall j, (j < i)%nat -> distanceTo points point i < distanceTo points point j).
Proof.
  destruct points as [|p0 rest].
  - split; [split; reflexivity|]. split; [congruence|]. intros i Hi. discriminate Hi.
  - destruct (raf_closestFrom_spec point rest [p0] 0) as (c & Ec & Hc).
    + simpl. lia.
    + intros j Hj. simpl in Hj. replace j with 0%nat by lia. apply Qle_refl.
    + intros j Hj. lia.
    + assert (Raf.getClosestToPoint (p0 :: rest) point = Some c) as E.
      { unfold Raf.getClosestToPoint. cbn [Raf.closestFrom Nat.eqb]. exact Ec. }
      rewrite E. split; [split; intros Hn; discriminate Hn|].
      split; [eauto|]. intros i Hi. injection Hi as <-. exact Hc.
Qed.
End EarlierClosestPoint.

Section OrderedByDistance.
Context {H : Hypot}.

Lemma insertByDistance_Permutation (x : nat * Q) (l : list (nat * Q)) :
  Permutation (insertByDistance x l) (x :: l).
Proof.
  induction l as [|y l IH]; simpl; [reflexivity|].
  destruct (Qle_bool (snd y) (snd x)); [|reflexivity].
  rewrite IH. apply perm_swap.
Qed.

Lemma insertByDistance_sorted (x : nat * Q) (l : list (nat * Q)) :
  StronglySorted pairBefore l ->
  Forall (fun y => (fst y < fst x)%nat) l ->
  StronglySorted pairBefore (insertByDistance x l).
Proof.
  induction l as [|y l IH]; intros Hs Hx; simpl.
  - repeat constructor.
  - apply StronglySorted_inv in Hs as [Hs Hy].
    apply Forall_cons in Hx as [Hyx Hx].
    destruct (Qle_bool (snd y) (snd x)) eqn:Hle.
    + apply Qle_bool_iff in Hle. constructor; [auto|].
      rewrite insertByDistance_Permutation. constructor; [|exact Hy].
      destruct (Qle_lt_or_eq _ _ Hle) as [Hlt|Heq]; [left; exact Hlt|right; auto].
    + assert (snd x < snd y) as Hlt.
      { apply Qnot_le_lt. intros Hc. apply Qle_bool_iff in Hc. congruence. }
      constructor; [constructor; assumption|].
      constructor; [left; exact Hlt|].
      eapply Forall_impl; [exact Hy|]. intros z [Hz|[Hz _]]; left.
      * eapply Qlt_trans; eassumption.
      * rewrite <- Hz. exact Hlt.
Qed.

Lemma sortByDistance_from (d : Point -> Q) (ps : list Point) :
  forall (n : nat) (acc : list (nat * Q)),
    StronglySorted pairBefore acc ->
    Forall (fun y => (fst y < n)%nat) acc ->
    let l := imap (fun i p => ((n + i)%nat, d p)) ps in
    let r := foldl (fun sorted x => insertByDistance x sorted) acc l in
    StronglySorted pairBefore r /\ Permutation r (acc ++ l).
Proof.
  induction ps as [|p ps IH]; intros n acc Hs Hn; cbv zeta.
  - simpl. rewrite app_nil_r. auto.
  - rewrite imap_cons. cbn [foldl].
    rewrite (imap_ext _ (fun i p => ((S n + i)%nat, d p))).
    2:{ intros i q _. simpl. f_equal. lia. }
    destruct (IH (S n) (insertByDistance ((n + 0)%nat, d p) acc)) as [Hs' Hp'].
    + apply insertByDistance_sorted; [exact Hs|].
      eapply Forall_impl; [exact Hn|]. simpl. intros; lia.
    + rewrite insertByDistance_Permutation. constructor; [simpl; lia|].
      eapply Forall_impl; [exact Hn|]. simpl. intros; lia.
    + split; [exact Hs'|]. rewrite Hp', insertByDistance_Permutation.
      simpl. apply Permutation_middle.
Qed.

Lemma indices_of_imap (d : Point -> Q) (ps : list Point) (n : nat) :
  map fst (imap (fun i p => ((n + i)%nat, d p)) ps) = seq n (length ps).
Proof.
  revert n. induction ps as [|p ps IH]; intros n; [reflexivity|].
  rewrite imap_cons. simpl. f_equal; [lia|].
  rewrite <- IH. f_equal. apply imap_ext. intros i q _. simpl. f_equal. lia.
Qed.

(** X17. [utils.getPointDistancesInOrdered] answers every index of the
    array exactly once, nearer points first, and equally near points in
    the order they have in the array. *)
Theorem getPointDistancesInOrdered_sorts (points : list Point) (target : Point) :
  Permutation (Current.getPointDistancesInOrdered points target)
              (seq 0 (length points)) /\
  StronglySorted (nearerFirst points target)
                 (Current.getPointDistancesInOrdered points target).
Proof.
  unfold Current.getPointDistancesInOrdered, sortByDistance.
  set (d := fun p : Point => hypot (px p - px target) (py p - py target)).
  pose proof (sortByDistance_from d points 0 [] (SSorted_nil _) (Forall_nil_2 _))
    as [Hs Hp].
  simpl in Hs, Hp. fold d.
  set (r := foldl _ _ _) in *.
  split.
  - rewrite Hp. pose proof (indices_of_imap d points 0) as Hi. simpl in Hi.
    rewrite Hi. reflexivity.
  - assert (Forall (fun x => snd x = distanceAt points target (fst x)) r) as Hd.
    { rewrite Hp. apply Forall_forall. intros x Hx.
      apply elem_of_lookup_imap in Hx as (i & p & -> & Hi).
      unfold distanceAt. simpl. rewrite Hi. reflexivity. }
    clearbody r. clear Hp.
    induction Hs as [|x l Hs IH Hx]; simpl; [constructor|].
    apply Forall_cons in Hd as [Hdx Hd].
    constructor; [auto|].
    apply Forall_fmap. apply Forall_forall. intros y Hy.
    rewrite Forall_forall in Hx, Hd.
    specialize (Hx y Hy). specialize (Hd y Hy).
    unfold nearerFirst. unfold pairBefore in Hx. simpl.
    rewrite <- Hdx, <- Hd. exact Hx.
Qed.
End OrderedByDistance.

(** ** [setMoveInDirection] *)

Section Direction.
Import Current.
Context {H : Hypot} {Sel : Selectors} {T : Trig}.

(** X18. [setMoveInDirection(direction, distance, speed)] with a
    non-positive speed, or with distance zero, has no effect at all,
    whatever the direction and whatever the platform's cosine and sine
    answer. *)
Theorem setMoveInDirection_ignored (w : Engine) (self : nat)
    (direction distance speed now : Q) :
  speed <= 0 \/ distance == 0 ->
  setMoveInDirection direction distance speed now self w = w.
Proof.
  intros Hc. unfold setMoveInDirection.
  destruct (heap w !! self) as [o|] eqn:E; [|reflexivity].
  cbv zeta. unfold setMoveToPosition. rewrite E.
  destruct (Qle_bool speed 0) eqn:Hs; [reflexivity|].
  destruct Hc as [Hle|Hd].
  - apply Qle_bool_iff in Hle. congruence.
  - match goal with |- context [Qeq_bool ?d 0] => assert (d == 0) as Hz end.
    { apply hypot_zero. split; rewrite Hd; ring. }
    apply Qeq_bool_iff in Hz. rewrite Hz. reflexivity.
Qed.
End Direction.

Lemma setMoveInDirection_ignored_witness :
  (5 <= 0 \/ 0 == 0) /\
  Current.setMoveInDirection (T := rightwards) 90 0 5 0 1 engine_with_p = engine_with_p.
Proof.
  split; [right; reflexivity|].
  apply (setMoveInDirection_ignored (T := rightwards)). right. reflexivity.
Defined.

(** ** [Object.keys] *)

Lemma insertByIndex_Permutation (x : N * string) (l : list (N * string)) :
  Permutation (insertByIndex x l) (x :: l).
Proof.
  induction l as [|y l IH]; simpl; [reflexivity|].
  destruct (fst y <=? fst x)%N; [|reflexivity].
  rewrite IH. apply perm_swap.
Qed.

Lemma indexed_keys (keys : list string) :
  map snd (omap (fun k => (fun n => (n, k)) <$> arrayIndex k) keys)
    = List.filter isArrayIndex keys.
Proof.
  induction keys as [|k keys IH]; [reflexivity|].
  cbn [omap list_omap List.filter]. unfold isArrayIndex at 1.
  destruct (arrayIndex k); cbn [fmap option_fmap option_map map snd];
    rewrite IH; reflexivity.
Qed.

Lemma filter_split {A} (p : A -> bool) (l : list A) :
  Permutation (List.filter p l ++ List.filter (fun a => negb (p a)) l) l.
Proof.
  induction l as [|a l IH]; [reflexivity|]. simpl.
  destruct (p a); simpl.
  - constructor. exact IH.
  - rewrite <- Permutation_middle. constructor. exact IH.
Qed.

(** [Object.keys] lists every own key once. *)
Lemma ownKeys_Permutation {A} (l : list (string * A)) :
  Permutation (ownKeys l) (map fst l).
Proof.
  unfold ownKeys. rewrite <- (filter_split isArrayIndex (map fst l)) at 3.
  apply Permutation_app; [|reflexivity].
  rewrite <- indexed_keys. apply Permutation_map.
  generalize (omap (fun k => (fun n => (n, k)) <$> arrayIndex k) (map fst l)).
  induction l0 as [|x xs IH]; simpl; [reflexivity|].
  rewrite insertByIndex_Permutation. constructor. exact IH.
Qed.


(** A key that is no array index and is created last is listed last. *)
Lemma ownKeys_snoc {A} (l : list (string * A)) (k : string) (a : A) :
  isArrayIndex k = false -> ownKeys (l ++ [(k, a)]) = ownKeys l ++ [k].
Proof.
  intros Hk. unfold ownKeys. rewrite map_app. simpl.
  assert (arrayIndex k = None) as Ek.
  { unfold isArrayIndex in Hk. destruct (arrayIndex k); [discriminate|reflexivity]. }
  rewrite omap_app, List.filter_app. cbn [omap list_omap List.filter].
  rewrite Hk, Ek. cbn [fmap option_fmap option_map negb].
  rewrite !app_nil_r, app_assoc. reflexivity.
Qed.

Lemma ownKeys_same_keys {A} (l l' : list (string * A)) :
  map fst l' = map fst l -> ownKeys l' = ownKeys l.
Proof. intros E. unfold ownKeys. rewrite E. reflexivity. Qed.

Lemma property_key {A} (key : string) (a : A) (l : list (string * A)) :
  property key l = Some a -> In key (map fst l).
Proof.
  induction l as [|[k b] l IH]; simpl; [discriminate|].
  destruct (String.eqb_spec k key) as [->|Hne]; intros Hp; [left; reflexivity|].
  right. apply IH, Hp.
Qed.

Lemma property_missing {A} (key : string) (l : list (string * A)) :
  property key l = None -> ~ In key (map fst l).
Proof.
  induction l as [|[k b] l IH]; simpl; [tauto|].
  destruct (String.eqb_spec k key) as [->|Hne]; intros Hp; [discriminate|].
  intros [Hk|Hin]; [congruence|]. exact (IH Hp Hin).
Qed.

Lemma assign_property {A} (key : string) (v : A) (l : list (string * A)) :
  property key (assign key v l) = Some v /\
  (forall k, k <> key -> property k (assign key v l) = property k l) /\
  (In key (map fst l) -> map fst (assign key v l) = map fst l) /\
  (~ In key (map fst l) -> assign key v l = l ++ [(key, v)]).
Proof.
  induction l as [|[k a] l (IH1 & IH2 & IH3 & IH4)]; simpl.
  - rewrite String.eqb_refl. repeat split; try tauto. intros k Hne.
    destruct (String.eqb_spec key k); congruence.
  - destruct (String.eqb_spec k key) as [->|Hne]; simpl.
    + rewrite String.eqb_refl. split; [reflexivity|]. split; [|split].
      * intros k Hk. destruct (String.eqb_spec key k); congruence.
      * reflexivity.
      * intros Hn. exfalso. apply Hn. left. reflexivity.
    + destruct (String.eqb_spec k key) as [|_]; [contradiction|].
      split; [exact IH1|]. split; [|split].
      * intros k' Hk'. destruct (String.eqb_spec k k'); [reflexivity|]. apply IH2, Hk'.
      * intros [Hk|Hin]; [contradiction|]. rewrite IH3 by exact Hin. reflexivity.
      * intros Hn. rewrite IH4; [reflexivity|]. intros Hin. apply Hn. right. exact Hin.
Qed.

(** ** The synchronous sweep of src/lib, in general *)

Section LibSweep.
Import Lib.
Context {F : HostFunctions}.
Variable rectOf : nat -> DOMRect.

Lemma alike_refl (w : Engine) : alike w w.
Proof. repeat split. Qed.

Lemma alike_hasClass (w w' : Engine) (c : string) (r : nat) :
  alike w w' -> hasClass c w' r = hasClass c w r.
Proof.
  intros (_ & _ & Ha & _ & Hr). unfold hasClass. specialize (Hr r). rewrite Ha.
  destruct (heap w' !! r) as [o'|], (heap w !! r) as [o|]; try discriminate; [|reflexivity].
  injection Hr as _ _ Hc Hat. rewrite Hc, Hat. reflexivity.
Qed.

Lemma alike_getElementsByClassName (w w' : Engine) (c : string) :
  alike w w' -> getElementsByClassName c w' = getElementsByClassName c w.
Proof.
  intros Hal. unfold getElementsByClassName.
  pose proof Hal as (_ & _ & _ & Hl & _). rewrite Hl.
  apply filter_ext. intros r. apply alike_hasClass. exact Hal.
Qed.

Lemma alike_callFor (w w' : Engine) (key : string) (self el : nat) :
  alike w w' -> callFor rectOf key self w' el = callFor rectOf key self w el.
Proof.
  intros (Ho & Hp & _ & _ & Hr). unfold callFor, trigger, getCanvasObject.
  destruct (withinReach _ _); [|reflexivity].
  pose proof (Hr el) as Hel. pose proof (Hr self) as Hself. rewrite Ho, Hp.
  destruct (heap w' !! el) as [e'|], (heap w !! el) as [e|]; try discriminate; [|reflexivity].
  injection Hel as Hid _ _ _. rewrite Hid.
  destruct (heap w' !! self) as [o'|], (heap w !! self) as [o|]; try discriminate;
    [|reflexivity].
  injection Hself as _ Ht _ _. simpl. rewrite Ht. reflexivity.
Qed.

Lemma alike_sweepCalls (w w' : Engine) (self : nat) (key : string) :
  alike w w' -> sweepCalls rectOf self w' key = sweepCalls rectOf self w key.
Proof.
  intros Hal. unfold sweepCalls. rewrite (alike_getElementsByClassName w w' key Hal).
  apply flat_map_ext. intros el. apply alike_callFor, Hal.
Qed.

(** The sweeps of all keys change nothing but the trace. *)
Lemma sweep_all (self : nat) (keys : list string) :
  forall w,
    heap (foldl (sweepKey rectOf self) w keys) = heap w /\
    canvasObjects (foldl (sweepKey rectOf self) w keys) = canvasObjects w /\
    canvasProto (foldl (sweepKey rectOf self) w keys) = canvasProto w /\
    canvasAttached (foldl (sweepKey rectOf self) w keys) = canvasAttached w /\
    trace (foldl (sweepKey rectOf self) w keys)
      = trace w ++ flat_map (sweepCalls rectOf self w) keys.
Proof.
  induction keys as [|key keys IH]; intros w; cbn [foldl flat_map].
  - rewrite app_nil_r. auto.
  - destruct (IH (sweepKey rectOf self w key)) as (Hh & Ho & Hp & Ha & Ht).
    destruct (visit_all rectOf key self (getElementsByClassName key w) w)
      as (Hh1 & Ho1 & Hp1 & Ha1 & Ht1).
    fold (sweepKey rectOf self w key) in Hh1, Ho1, Hp1, Ha1, Ht1.
    rewrite Hh, Ho, Hp, Ha, Ht, Hh1, Ho1, Hp1, Ha1, Ht1.
    repeat split; try reflexivity.
    rewrite <- app_assoc. f_equal. f_equal.
    apply flat_map_ext. intros k. apply alike_sweepCalls.
    repeat split; congruence.
Qed.

(** Writing the position (and, for the camera, the canvas offset) changes
    nothing the sweep reads. *)
Lemma alike_moved (w : Engine) (self : nat) (o : CanvasObject) (x y : Q) :
  heap w !! self = Some o ->
  let o1 := set_offset (mkPoint x (- y)) (set_position (mkPoint x y) o) in
  let w1 := store self o1 w in
  alike w (if isCamera o then set_canvasShift (mkPoint (- x) y) w1 else w1).
Proof.
  intros E o1 w1.
  assert (alike w w1) as Hal.
  { repeat split.
    - unfold w1, store. simpl. apply length_insert.
    - intros r. unfold w1, store. simpl.
      destruct (decide (r = self)) as [->|Hne].
      + rewrite list_lookup_insert_eq by (eapply lookup_lt_Some, E). rewrite E. reflexivity.
      + rewrite list_lookup_insert_ne by congruence. reflexivity. }
  destruct (isCamera o); [|exact Hal].
  destruct Hal as (Ho & Hp & Ha & Hl & Hr). repeat split; assumption.
Qed.


Lemma withinReach_self (r : DOMRect) :
  0 <= rwidth r -> 0 <= rheight r -> withinReach r r = true.
Proof.
  intros Hw Hh. unfold withinReach.
  assert (forall p s : Q, 0 <= s -> Qle_bool (Qabs (p - p)) ((s + s) / 2) = true) as Hz.
  { intros p s Hs. apply Qle_bool_iff.
    assert (p - p == 0) as -> by ring.
    assert ((s + s) / 2 == s) as -> by field. exact Hs. }
  rewrite !Hz by assumption. reflexivity.
Qed.

(** X21. The sweep of src/lib does not leave out the receiver: an object
    on the page that carries a class it is itself subscribed to gets the
    handler invoked for its own element on every [setPosition], wherever
    it is put. *)
Theorem lib_sweep_reports_receiver (w : Engine) (self : nat) (o : CanvasObject)
    (key : string) (cb : callback) (x y : Q) :
  heap w !! self = Some o ->
  canvasAttached w = true ->
  attached o = true ->
  key ∈ classList o ->
  property key (onCollisionTriggers o) = Some cb ->
  0 <= rwidth (rectOf self) ->
  0 <= rheight (rectOf self) ->
  Collision cb self (getCanvasObject (upToSpace (id o)) w)
    ∈ trace (setPosition rectOf x y self w).
Proof.
  intros E Hca Hat Hc Hp Hw Hh.
  pose proof (alike_moved w self o x y E) as Hal. cbv zeta in Hal.
  unfold setPosition. rewrite E. cbv zeta.
  set (o1 := set_offset (mkPoint x (- y)) (set_position (mkPoint x y) o)) in *.
  set (w2 := if isCamera o then _ else _) in *.
  destruct (sweep_all self (ownKeys (onCollisionTriggers o1)) w2) as (_ & _ & _ & _ & Ht).
  rewrite Ht. apply elem_of_app. right.
  apply list_elem_of_In, in_flat_map. exists key. split.
  { eapply Permutation_in; [symmetry; apply ownKeys_Permutation|].
    eapply property_key. exact Hp. }
  rewrite (alike_sweepCalls w w2 self key Hal).
  unfold sweepCalls. apply in_flat_map. exists self. split.
  - unfold getElementsByClassName. apply filter_In. split.
    + apply in_seq. apply lookup_lt_Some in E. lia.
    + unfold hasClass. rewrite E, Hca, Hat. simpl. apply bool_decide_eq_true. exact Hc.
  - unfold callFor, trigger. rewrite (withinReach_self _ Hw Hh), E. simpl.
    rewrite Hp. left. reflexivity.
Qed.

(** X22. The corner test of the sweep is symmetric: whether [a] reaches
    [b] and whether [b] reaches [a] is the same question. *)
Theorem withinReach_symmetric (a b : DOMRect) :
  withinReach a b = withinReach b a.
Proof.
  unfold withinReach.
  assert (forall p q r t : Q, Qabs p == Qabs q -> r == t ->
                              Qle_bool (Qabs p) r = Qle_bool (Qabs q) t) as Hcongr.
  { intros p q r t E1 E2. apply eq_true_iff_eq. rewrite !Qle_bool_iff, E1, E2. reflexivity. }
  f_equal; apply Hcongr.
  - rewrite (Qabs_Qminus (rx a) (rx b)). reflexivity.
  - field.
  - rewrite (Qabs_Qminus (ry a) (ry b)). reflexivity.
  - field.
Qed.

(** X23. src/lib [onCollisionTrigger(tag, func)].  Under the class name
    [__proto__] nothing is subscribed: no handler and no key changes, so
    no sweep ever invokes [func].  Under any other name, on an object that
    never subscribed under [__proto__], [func] becomes the handler of
    [tag] and the handlers of the other classes are untouched; if [tag] was
    subscribed already the keys [Object.keys] lists, and so the sweeps, are
    the same in the same order; if it was not, [tag] is added to them, at
    the end when it is not named like an array index. *)
Theorem lib_onCollisionTrigger_replaces (w : Engine) (self : nat) (o : CanvasObject)
    (tag : string) (cb : callback) :
  heap w !! self = Some o ->
  let w' := onCollisionTrigger tag cb self w in
  (tag = "__proto__" ->
   (forall k, trigger k self w' = trigger k self w) /\
   keysOf self w' = keysOf self w) /\
  (tag <> "__proto__" -> triggersProto o = None ->
   trigger tag self w' = Some cb /\
   (forall k, k <> tag -> trigger k self w' = trigger k self w) /\
   (trigger tag self w <> None -> keysOf self w' = keysOf self w) /\
   (trigger tag self w = None ->
    Permutation (keysOf self w') (tag :: keysOf self w) /\
    (isArrayIndex tag = false -> keysOf self w' = keysOf self w ++ [tag]))).
Proof.
  intros E w'.
  assert (forall own proto,
            assignHandler tag cb (onCollisionTriggers o) (triggersProto o) = (own, proto) ->
            heap w' !! self
              = Some (set_triggersProto proto (set_onCollisionTriggers own o))) as E'.
  { intros own proto Ea. unfold w', onCollisionTrigger. rewrite E. cbv zeta. rewrite Ea.
    simpl. apply list_lookup_insert_eq. eapply lookup_lt_Some, E. }
  unfold trigger, keysOf. rewrite E. cbn [mbind option_bind].
  split.
  - intros ->. rewrite (E' (onCollisionTriggers o) (Some cb)) by reflexivity.
    simpl. auto.
  - intros Hne Hproto.
    assert (assignHandler tag cb (onCollisionTriggers o) (triggersProto o)
            = (assign tag cb (onCollisionTriggers o), None)) as Ea.
    { unfold assignHandler. destruct (String.eqb_spec tag "__proto__"); [contradiction|].
      rewrite Hproto. destruct (property tag (onCollisionTriggers o)); reflexivity. }
    rewrite (E' _ _ Ea). simpl.
    destruct (assign_property tag cb (onCollisionTriggers o)) as (H1 & H2 & H3 & H4).
    split; [exact H1|]. split; [exact H2|]. split.
    + intros Hsome. apply ownKeys_same_keys, H3.
      destruct (property tag (onCollisionTriggers o)) eqn:Ep; [|contradiction].
      eapply property_key, Ep.
    + intros Hnone. apply property_missing in Hnone. rewrite (H4 Hnone). split.
      * rewrite !ownKeys_Permutation, map_app. simpl.
        rewrite <- Permutation_middle, app_nil_r. reflexivity.
      * intros Hidx. apply ownKeys_snoc, Hidx.
Qed.
End LibSweep.


(** ** The requestAnimationFrame revision *)

Section RafMovement.
Import Raf.
Context {F : HostFunctions} {R : Sqrt}.
Variable rectOf : nat -> DOMRect.

Lemma extends_refl (w : Engine) : extends w w.
Proof. repeat split. auto. Qed.

Lemma extends_trans (w1 w2 w3 : Engine) :
  extends w1 w2 -> extends w2 w3 -> extends w1 w3.
Proof.
  intros (Hf & Hn & Hm & Hh) (Hf' & Hn' & Hm' & Hh').
  repeat split; try congruence. auto.
Qed.

Lemma visit_extends (key : string) (self : nat) (w : Engine) (el : nat) :
  extends w (visit rectOf key self w el).
Proof.
  unfold visit. destruct (withinReach _ _); [|apply extends_refl].
  destruct (heap w !! el) as [e|]; [|apply extends_refl].
  destruct (trigger key self w) as [cb|]; [|apply extends_refl].
  destruct (getCanvasObject _ w) as [other|].
  - repeat split. auto.
  - unfold random, createObject, writeProperty. cbn -[lookup insert getCanvasObject String.eqb].
    destruct (getCanvasObject _ _); destruct (String.eqb _ _);
      (repeat split; intros r o Hr; cbn -[lookup insert]; apply lookup_app_l_Some, Hr).
Qed.

Lemma visits_extend (key : string) (self : nat) (els : list nat) :
  forall w, extends w (foldl (visit rectOf key self) w els).
Proof.
  induction els as [|el els IH]; intros w; cbn [foldl]; [apply extends_refl|].
  eapply extends_trans; [apply visit_extends|apply IH].
Qed.

Lemma sweeps_extend (self : nat) (keys : list string) :
  forall w, extends w (foldl (sweepKey rectOf self) w keys).
Proof.
  induction keys as [|key keys IH]; intros w; cbn [foldl]; [apply extends_refl|].
  eapply extends_trans; [apply visits_extend|apply IH].
Qed.

Lemma raf_setPosition_lookup (w : Engine) (self : nat) (o : CanvasObject) (x y : Q) :
  heap w !! self = Some o ->
  let w' := setPosition rectOf x y self w in
  heap w' !! self = Some (set_offset (mkPoint x (- y)) (set_position (mkPoint x y) o)) /\
  frames w' = frames w /\
  nextHandle w' = nextHandle w.
Proof.
  intros E w'. unfold w', setPosition. rewrite E. cbv zeta.
  set (o1 := set_offset (mkPoint x (- y)) (set_position (mkPoint x y) o)).
  set (w2 := if isCamera o then _ else _).
  destruct (sweeps_extend self (ownKeys (onCollisionTriggers o1)) w2) as (Hf & Hn & _ & Hh).
  assert (heap w2 !! self = Some o1) as E2.
  { unfold w2. destruct (isCamera o); simpl;
      apply list_lookup_insert_eq; eapply lookup_lt_Some, E. }
  split; [apply Hh, E2|].
  rewrite Hf, Hn. unfold w2. destruct (isCamera o); auto.
Qed.

(** X25. [setPosition] of the requestAnimationFrame revision does not
    stop a movement under way: the movement record and the pending frames
    are what they were, so the next frame puts the object back on its
    path. *)
Theorem raf_setPosition_leaves_movement (w : Engine) (self : nat) (o : CanvasObject)
    (x y : Q) :
  heap w !! self = Some o ->
  let w' := setPosition rectOf x y self w in
  getPosition self w' = mkPoint x y /\
  getMoveToPosition self w' = moveToPosition o /\
  frames w' = frames w.
Proof.
  intros E w'. destruct (raf_setPosition_lookup w self o x y E) as (E' & Hf & _).
  fold w' in E', Hf. unfold getPosition, getMoveToPosition. rewrite E'.
  repeat split. exact Hf.
Qed.

(** X26. A frame of the movement loop that runs after the time to the
    destination has passed puts the object on the target and requests no
    further frame; the movement record stays set. *)
Theorem raf_loop_arrives (w : Engine) (self : nat) (o : CanvasObject)
    (m : movementInterface) (now timeTillDestination : Q) :
  heap w !! self = Some o ->
  moveToPosition o = Some m ->
  timeTillDestination < (now - timestamp m) / 1000 ->
  let w' := loop rectOf now timeTillDestination self w in
  getPosition self w' = mkPoint (targetX m) (targetY m) /\
  getMoveToPosition self w' = Some m /\
  frames w' = List.filter (fun f => negb (Z.eqb (fst f) (loopId m))) (frames w).
Proof.
  intros E Hm Hlt w'. unfold w', loop, getMoveToPosition. rewrite E. simpl. rewrite Hm.
  cbv zeta.
  destruct (Qle_bool ((now - timestamp m) / 1000) timeTillDestination) eqn:Hle.
  { apply Qle_bool_iff in Hle. exfalso. eapply Qlt_not_le; eassumption. }
  simpl negb. cbv iota.
  destruct (raf_setPosition_lookup w self o (targetX m) (targetY m) E) as (E' & Hf & _).
  unfold getPosition, cancelAnimationFrame. simpl. rewrite E', Hf. simpl.
  rewrite Hm. auto.
Qed.

(** X27. [setStopMovement] clears the movement record, cancels the frame
    the record names and leaves the position alone; a frame of the
    receiver that is still pending and runs later moves nothing and
    invokes nothing. *)
Theorem raf_setStopMovement_stops (w : Engine) (self : nat) (o : CanvasObject)
    (now : Q) (h : Z) (f : Z * (nat * Q)) :
  heap w !! self = Some o ->
  let w1 := setStopMovement self w in
  getMoveToPosition self w1 = None /\
  getPosition self w1 = position o /\
  (forall m, moveToPosition o = Some m -> ~ pending (loopId m) w1) /\
  (List.find (fun f => Z.eqb (fst f) h) (frames w1) = Some f -> fst (snd f) = self ->
   animationFrame rectOf now h w1 = cancelAnimationFrame h w1).
Proof.
  intros E w1.
  assert (heap w1 !! self = Some (set_moveToPosition None o)) as E1.
  { unfold w1, setStopMovement. rewrite E.
    destruct (moveToPosition o); simpl;
      apply list_lookup_insert_eq; eapply lookup_lt_Some, E. }
  split; [unfold getMoveToPosition; rewrite E1; reflexivity|].
  split; [unfold getPosition; rewrite E1; reflexivity|].
  split.
  - intros m Hm. unfold pending, w1, setStopMovement. rewrite E, Hm. simpl.
    rewrite in_map_iff. intros ([h' x] & Hh & Hin). simpl in Hh. subst h'.
    apply filter_In in Hin as [_ Hneq]. simpl in Hneq.
    rewrite Z.eqb_refl in Hneq. discriminate Hneq.
  - intros Hfind Hself. unfold animationFrame. rewrite Hfind.
    destruct f as [h' [self' t]]. simpl in Hself. subst self'.
    unfold loop, getMoveToPosition. simpl. rewrite E1. reflexivity.
Qed.

(** X28. [createObject] of the requestAnimationFrame revision constructs
    a new object on every call, and afterwards the registry answers the id
    with that object, in place of what it answered with before (the
    registry holding no own property named [__proto__], which no
    assignment creates).  The alert is raised exactly when the registry
    read as something for the id before the call: an object filed under it
    or a member the registry literal inherits; on a literal whose prototype
    was never replaced and that has nothing filed under the id, that is
    when the id names a member of [Object.prototype].  What the registry
    answers for other ids stays, unless the id is [__proto__]: that id
    files nothing and makes the new object the literal's prototype. *)
Theorem raf_createObject_always_constructs (w : Engine) (i : string) :
  let r := fst (createObject i w) in
  let w' := snd (createObject i w) in
  r = length (heap w) /\
  heap w' = heap w ++ [new_CanvasObject i false] /\
  (canvasObjects w !! "__proto__" = None -> getCanvasObject i w' = Some (Filed r)) /\
  (i <> "__proto__" ->
   forall j, j <> i -> getCanvasObject j w' = getCanvasObject j w) /\
  (i = "__proto__" -> canvasObjects w' = canvasObjects w /\ canvasProto w' = Some r) /\
  trace w' = trace w ++ match getCanvasObject i w with
                        | Some _ => [AlertDuplicate i]
                        | None => []
                        end /\
  (canvasObjects w !! i = None -> canvasProto w = None ->
   (getCanvasObject i w = None <-> i ∉ objectPrototype)).
Proof.
  cbv zeta. unfold createObject, writeProperty.
  change (getCanvasObject i (set_heap (heap w ++ [new_CanvasObject i false]) w))
    with (getCanvasObject i w).
  assert (canvasObjects w !! i = None -> canvasProto w = None ->
          (getCanvasObject i w = None <-> i ∉ objectPrototype)) as Hfresh.
  { intros Hown Hproto. unfold getCanvasObject, readProperty. rewrite Hown, Hproto.
    case_bool_decide as Hin; split; intros Hx; try discriminate; try reflexivity;
      try exact Hin.
    contradiction. }
  destruct (getCanvasObject i w) as [x|] eqn:Eg;
    destruct (String.eqb_spec i "__proto__") as [Hi|Hi];
    cbn -[lookup insert getCanvasObject];
    (split; [reflexivity|]); (split; [reflexivity|]);
    (split; [|split; [|split; [|split; [rewrite ?app_nil_r; reflexivity|exact Hfresh]]]]);
    unfold getCanvasObject, readProperty; cbn -[lookup insert String.eqb].
  all: try (intros Hown; subst i; rewrite Hown; reflexivity).
  all: try (intros _; rewrite lookup_insert_eq; reflexivity).
  all: try (intros Hne; contradiction).
  all: try (intros Hne j Hj; rewrite lookup_insert_ne by congruence; reflexivity).
  all: try (intros _; auto).
  all: try (intros He; contradiction).
Qed.

(** X29. The pointer position of the requestAnimationFrame revision is
    computed from the size of the canvas element's rectangle only, not
    from where the rectangle is; a pointer at (width / 2, height / 2)
    reads as the camera's position, the vertical axis is flipped, and
    without a rectangle the answer is (0, 0) whatever the camera. *)
Theorem raf_getMousePosition_uses_size_only (w : Engine) (r r' : DOMRect)
    (clientX clientY dx dy : Q) :
  (rwidth r = rwidth r' -> rheight r = rheight r' ->
   getMousePosition w (Some r) clientX clientY
     = getMousePosition w (Some r') clientX clientY) /\
  (px (getMousePosition w (Some r) (rwidth r / 2) (rheight r / 2))
     == px (getPosition (camera w) w) /\
   py (getMousePosition w (Some r) (rwidth r / 2) (rheight r / 2))
     == py (getPosition (camera w) w)) /\
  (px (getMousePosition w (Some r) (clientX + dx) (clientY + dy))
     == px (getMousePosition w (Some r) clientX clientY) + dx /\
   py (getMousePosition w (Some r) (clientX + dx) (clientY + dy))
     == py (getMousePosition w (Some r) clientX clientY) - dy) /\
  getMousePosition w None clientX clientY = mkPoint 0 0.
Proof.
  unfold getMousePosition. simpl.
  split; [intros -> ->; reflexivity|].
  split; [split; field|].
  split; [split; ring|reflexivity].
Qed.
End RafMovement.

Lemma getClosestToPoint_first_nearest_witness :
  let points := [mkPoint 3 4; mkPoint 0 1; mkPoint 1 0] in
  Current.getClosestToPoint points origin = Some 1%nat /\
  distanceAt points origin 1 <= distanceAt points origin 2 /\
  distanceAt points origin 1 < distanceAt points origin 0.
Proof.
  intros points.
  assert (Current.getClosestToPoint points origin = Some 1%nat) as E
    by (vm_compute; reflexivity).
  destruct (getClosestToPoint_first_nearest points origin) as [_ Hn].
  destruct (Hn 1%nat E) as (_ & Hmin & Hfirst).
  split; [exact E|]. split; [apply Hmin; simpl; lia|apply Hfirst; lia].
Defined.


Lemma lib_sweep_reports_receiver_witness :
  Lib.Collision "h" 1 (Some (Filed 1))
    ∈ Lib.trace (Lib.setPosition layout_ab 7 9 1 scene_ab).
Proof.
  pose (o := default (Lib.new_CanvasObject "a" false) (Lib.heap scene_ab !! 1%nat)).
  assert (Lib.heap scene_ab !! 1%nat = Some o) as E by (vm_compute; reflexivity).
  assert (Lib.getCanvasObject (upToSpace (Lib.id o)) scene_ab = Some (Filed 1)) as Hid
    by (vm_compute; reflexivity).
  rewrite <- Hid.
  apply (lib_sweep_reports_receiver layout_ab scene_ab 1 o "hit" "h" 7 9 E).
  - reflexivity.
  - reflexivity.
  - apply list_elem_of_here.
  - reflexivity.
  - apply Qle_bool_iff. reflexivity.
  - apply Qle_bool_iff. reflexivity.
Defined.

(** On "a" of [scene_keys]: subscribing again to "b" replaces the handler
    and keeps the order of the keys; subscribing to "0" puts that class in
    front; subscribing under [__proto__] subscribes nothing. *)
Lemma lib_onCollisionTrigger_replaces_witness :
  Lib.trigger "b" 1 (Lib.onCollisionTrigger "b" "h2" 1 scene_keys) = Some "h2" /\
  keysOf 1 (Lib.onCollisionTrigger "b" "h2" 1 scene_keys) = ["1"; "b"] /\
  Permutation (keysOf 1 (Lib.onCollisionTrigger "0" "h0" 1 scene_keys)) ["0"; "1"; "b"] /\
  keysOf 1 (Lib.onCollisionTrigger "__proto__" "hp" 1 scene_keys) = ["1"; "b"].
Proof.
  pose (o := default (Lib.new_CanvasObject "a" false) (Lib.heap scene_keys !! 1%nat)).
  assert (Lib.heap scene_keys !! 1%nat = Some o) as E by (vm_compute; reflexivity).
  assert (keysOf 1 scene_keys = ["1"; "b"]) as Hk by (vm_compute; reflexivity).
  destruct (lib_onCollisionTrigger_replaces scene_keys 1 o "b" "h2" E) as [_ Hb].
  destruct Hb as (Hh & _ & Hsame & _); [discriminate|reflexivity|].
  destruct (lib_onCollisionTrigger_replaces scene_keys 1 o "0" "h0" E) as [_ H0].
  destruct H0 as (_ & _ & _ & Hnew); [discriminate|reflexivity|].
  destruct (lib_onCollisionTrigger_replaces scene_keys 1 o "__proto__" "hp" E)
    as [Hproto _].
  destruct (Hproto eq_refl) as [_ Hkeys].
  split; [exact Hh|].
  split; [rewrite Hsame, Hk; [reflexivity|vm_compute; discriminate]|].
  split; [|rewrite Hkeys, Hk; reflexivity].
  destruct Hnew as [Hperm _]; [vm_compute; reflexivity|].
  rewrite Hperm, Hk. reflexivity.
Defined.

Lemma raf_setPosition_leaves_movement_witness :
  let w := Raf.setMoveToPosition no_layout 100 0 50 0 0 1 raf_with_p in
  Raf.getPosition 1 (Raf.setPosition no_layout 5 5 1 w) = mkPoint 5 5 /\
  Raf.frames (Raf.setPosition no_layout 5 5 1 w) = Raf.frames w.
Proof.
  intros w.
  pose (o := default (Raf.new_CanvasObject "p" false) (Raf.heap w !! 1%nat)).
  assert (Raf.heap w !! 1%nat = Some o) as E by (vm_compute; reflexivity).
  destruct (raf_setPosition_leaves_movement no_layout w 1 o 5 5 E) as (Hp & _ & Hf).
  split; assumption.
Defined.

Lemma raf_loop_arrives_witness :
  let w := Raf.setMoveToPosition no_layout 100 0 50 0 0 1 raf_with_p in
  Raf.getPosition 1 (Raf.loop no_layout 3000 2 1 w) = mkPoint 100 0 /\
  Raf.frames (Raf.loop no_layout 3000 2 1 w) = [].
Proof.
  intros w.
  pose (o := default (Raf.new_CanvasObject "p" false) (Raf.heap w !! 1%nat)).
  assert (Raf.heap w !! 1%nat = Some o) as E by (vm_compute; reflexivity).
  pose (m := default (Raf.mkMovement 0 0 0 0 0 0 0) (Raf.moveToPosition o)).
  assert (Raf.moveToPosition o = Some m) as Em by (vm_compute; reflexivity).
  destruct (raf_loop_arrives no_layout w 1 o m 3000 2 E Em) as (Hp & _ & Hf).
  - vm_compute. reflexivity.
  - split; [rewrite Hp | rewrite Hf]; vm_compute; reflexivity.
Defined.

Lemma raf_setStopMovement_stops_witness :
  let w := Raf.setMoveToPosition no_layout 100 0 50 0 0 1 raf_with_p in
  Raf.frames w <> [] /\
  Raf.getMoveToPosition 1 (Raf.setStopMovement 1 w) = None /\
  Raf.frames (Raf.setStopMovement 1 w) = [].
Proof.
  intros w.
  pose (o := default (Raf.new_CanvasObject "p" false) (Raf.heap w !! 1%nat)).
  assert (Raf.heap w !! 1%nat = Some o) as E by (vm_compute; reflexivity).
  destruct (raf_setStopMovement_stops no_layout w 1 o 0 1%Z (1%Z, (1%nat, 2)) E)
    as (Hm & _ & _ & _).
  split; [vm_compute; discriminate|].
  split; [exact Hm|]. vm_compute. reflexivity.
Defined.

(** ** Removal from the page (src/lib) *)

Section LibRemoval.
Import Lib.
Context {F : HostFunctions}.
Variable rectOf : nat -> DOMRect.

Lemma filter_none {A} (f : A -> bool) (l : list A) :
  (forall a, f a = false) -> List.filter f l = [].
Proof.
  intros Hf. induction l as [|a l IH]; simpl; [reflexivity|]. rewrite Hf. exact IH.
Qed.

Lemma filter_twice {A} (f g h : A -> bool) (l : list A) :
  (forall a, In a l -> f a = g a && h a) ->
  List.filter f l = List.filter g (List.filter h l).
Proof.
  induction l as [|a l IH]; intros Hf; simpl; [reflexivity|].
  rewrite (Hf a) by (left; reflexivity).
  rewrite IH by (intros b Hb; apply Hf; right; exact Hb).
  destruct (h a); simpl; destruct (g a); reflexivity.
Qed.

(** X30. What src/lib removes from the page is no longer found by a
    sweep, and nothing more happens.  After the engine's [destroy] the
    registry is a fresh literal: it answers no id with an object, only the
    names of the members of [Object.prototype] with those members; and a
    [setPosition] on an object the host still holds invokes no handler.
    After an object's [destroy] the elements found for a class are those
    found before without the object's; the registry still answers as
    before, and the object's handlers stay subscribed. *)
Theorem lib_removal (w : Engine) (self : nat) (i key : string) (x y : Q) :
  (getCanvasObject i (destroyEngine w)
     = (if bool_decide (i ∈ objectPrototype) then Some (Inherited i) else None) /\
   (forall r, getCanvasObject i (destroyEngine w) <> Some (Filed r)) /\
   trace (setPosition rectOf x y self (destroyEngine w)) = trace w) /\
  (getElementsByClassName key (destroy self w)
     = List.filter (fun r => negb (Nat.eqb r self)) (getElementsByClassName key w) /\
   getCanvasObject i (destroy self w) = getCanvasObject i w /\
   trigger key self (destroy self w) = trigger key self w).
Proof.
  split.
  - assert (getCanvasObject i (destroyEngine w)
            = (if bool_decide (i ∈ objectPrototype) then Some (Inherited i) else None))
      as Eg.
    { unfold getCanvasObject, destroyEngine, readProperty. cbn -[lookup bool_decide].
      rewrite lookup_empty. reflexivity. }
    split; [exact Eg|]. split.
    { intros r. rewrite Eg. case_bool_decide; discriminate. }
    unfold setPosition. change (heap (destroyEngine w)) with (heap w).
    destruct (heap w !! self) as [o|] eqn:E; [|reflexivity]. cbv zeta.
    set (o1 := set_offset (mkPoint x (- y)) (set_position (mkPoint x y) o)).
    set (w2 := if isCamera o then _ else _).
    destruct (sweep_all rectOf self (ownKeys (onCollisionTriggers o1)) w2)
      as (_ & _ & _ & _ & Ht).
    assert (canvasAttached w2 = false) as Hca
      by (unfold w2; destruct (isCamera o); reflexivity).
    assert (trace w2 = trace w) as Ht2
      by (unfold w2; destruct (isCamera o); reflexivity).
    rewrite Ht, Ht2.
    assert (forall keys, flat_map (sweepCalls rectOf self w2) keys = []) as ->.
    { induction keys as [|k keys IH]; simpl; [reflexivity|]. rewrite IH.
      unfold sweepCalls, getElementsByClassName. rewrite filter_none; [reflexivity|].
      intros r. unfold hasClass. rewrite Hca. destruct (heap w2 !! r); reflexivity. }
    apply app_nil_r.
  - unfold destroy, getCanvasObject, trigger.
    destruct (heap w !! self) as [o|] eqn:E.
    + split; [|split; [reflexivity|]].
      * unfold getElementsByClassName. simpl. rewrite length_insert.
        apply filter_twice. intros r _. unfold hasClass. simpl.
        destruct (Nat.eqb_spec r self) as [->|Hne].
        -- rewrite list_lookup_insert_eq by (eapply lookup_lt_Some, E). simpl.
           rewrite andb_false_r. reflexivity.
        -- rewrite list_lookup_insert_ne by congruence. reflexivity.
      * simpl. rewrite list_lookup_insert_eq by (eapply lookup_lt_Some, E).
        reflexivity.
    + split; [|split; [reflexivity|rewrite E; reflexivity]].
      unfold getElementsByClassName.
      apply filter_twice. intros r Hr. apply in_seq in Hr.
      destruct (Nat.eqb_spec r self) as [->|Hne]; [|reflexivity].
      apply lookup_ge_None in E. lia.
Qed.
End LibRemoval.
